(** * AllergyGuard AI: a shallow embedding of the client and of the nutrition proxy

    The development follows the two source units of the repository:
    - the browser application (badge classifier, allergen catalog, profile
      store, highlighter, risk detector, product search, the request for
      the nutrition of the picked product and the details shown for it), and
    - the Express server ([POST /nutrition] with its in-memory cache).

    JavaScript values are embedded as data: a string is the list of its
    UTF-16 code units, a number is a decimal [m * 10^e] or one of the three
    non-finite values, a JSON document is a tree.  A thrown exception is
    [None] in the option monad.  Case mapping is the Unicode one on the code
    units below 256 and the identity above. *)

From Stdlib Require Import ZArith NArith QArith Qpower List String Ascii Lia Bool.
From stdpp Require Import gmap list.

Set Default Proof Using "Type".
Set Warnings "-register-all".

(** ** JavaScript strings *)

Module JS.

Definition char := N.
Definition jsstring := list N.

(** A literal of the source text. *)
Definition js (s : string) : jsstring := map N_of_ascii (list_ascii_of_string s).

(** The double quote, which a literal cannot hold. *)
Definition dq : jsstring := [34%N].

Definition in_range (lo hi c : N) : bool := ((lo <=? c) && (c <=? hi))%N.

(** WhiteSpace and LineTerminator code units, the ones [trim] strips. *)
Definition isWhiteSpace (c : char) : bool :=
  in_range 9 13 c || (c =? 32)%N || (c =? 160)%N || (c =? 5760)%N
  || in_range 8192 8202 c || (c =? 8232)%N || (c =? 8233)%N
  || (c =? 8239)%N || (c =? 8287)%N || (c =? 12288)%N || (c =? 65279)%N.

Fixpoint dropWhile {A} (f : A -> bool) (l : list A) : list A :=
  match l with
  | [] => []
  | x :: r => if f x then dropWhile f r else l
  end.

Definition trimStart (s : jsstring) : jsstring := dropWhile isWhiteSpace s.
Definition trimEnd (s : jsstring) : jsstring := rev (dropWhile isWhiteSpace (rev s)).
Definition trim (s : jsstring) : jsstring := trimEnd (trimStart s).

Definition toLowerChar (c : char) : char :=
  if in_range 65 90 c || (in_range 192 222 c && negb (c =? 215)%N)
  then (c + 32)%N else c.

Definition toLowerCase (s : jsstring) : jsstring := map toLowerChar s.

(** [Canonicalize] of a case-insensitive pattern without the unicode flag:
    the upper-case mapping when it is a single code unit and does not move
    a non-ASCII code unit into ASCII. *)
Definition canonicalize (c : char) : N :=
  if in_range 97 122 c || (in_range 224 254 c && negb (c =? 247)%N)
  then (c - 32)%N
  else if (c =? 255)%N then 376%N
  else if (c =? 181)%N then 924%N
  else c.

Definition str_eqb (a b : jsstring) : bool := bool_decide (a = b).

Fixpoint startsWith (s prefix : jsstring) {struct prefix} : bool :=
  match prefix with
  | [] => true
  | p :: ps =>
      match s with
      | c :: cs => (c =? p)%N && startsWith cs ps
      | [] => false
      end
  end.

Fixpoint includes (s needle : jsstring) : bool :=
  startsWith s needle ||
  match s with
  | [] => false
  | _ :: r => includes r needle
  end.

Fixpoint join (sep : jsstring) (l : list jsstring) : jsstring :=
  match l with
  | [] => []
  | [x] => x
  | x :: r => x ++ sep ++ join sep r
  end.

(** [s.substring(a, b)] for [a <= b]. *)
Definition slice (s : jsstring) (a b : nat) : jsstring := take (b - a) (drop a s).

Definition isLineTerminator (c : char) : bool :=
  (c =? 10)%N || (c =? 13)%N || (c =? 8232)%N || (c =? 8233)%N.

Definition isDigit (c : char) : bool := in_range 48 57 c.

(** [\w] without the unicode flag. *)
Definition isWordChar (c : char) : bool :=
  in_range 97 122 c || in_range 65 90 c || isDigit c || (c =? 95)%N.

Definition isHighSurrogate (c : char) : bool := in_range 55296 56319 c.
Definition isLowSurrogate (c : char) : bool := in_range 56320 57343 c.

(** [encodeURIComponent] throws on a surrogate that is not in a pair. *)
Fixpoint encodable (s : jsstring) : bool :=
  match s with
  | [] => true
  | c :: r =>
      if isHighSurrogate c then
        match r with
        | d :: r' => isLowSurrogate d && encodable r'
        | [] => false
        end
      else negb (isLowSurrogate c) && encodable r
  end.

(** ** Numbers

    A finite number is kept as the decimal [m * 10^e] its literal denotes
    (a JSON document or a numeric string can only write decimals, and the
    code never adds or multiplies), next to the three non-finite values. *)

Inductive number :=
| Dec (m e : Z)
| NaN
| PInf
| NInf.

Definition num_of_Z (z : Z) : number := Dec z 0.

Definition num_truthy (n : number) : bool :=
  match n with
  | Dec m _ => negb (m =? 0)%Z
  | NaN => false
  | PInf | NInf => true
  end.

Definition Number_isFinite (n : number) : bool :=
  match n with Dec _ _ => true | _ => false end.

(** [a < b] and [a <= b] on numbers; every comparison with [NaN] is false. *)
Definition num_ltb (a b : number) : bool :=
  match a, b with
  | NaN, _ | _, NaN => false
  | Dec m1 e1, Dec m2 e2 =>
      let e := Z.min e1 e2 in
      (m1 * 10 ^ (e1 - e) <? m2 * 10 ^ (e2 - e))%Z
  | NInf, NInf => false
  | NInf, _ => true
  | _, PInf => match a with PInf => false | _ => true end
  | _, _ => false
  end.

Definition num_leb (a b : number) : bool :=
  match a, b with
  | NaN, _ | _, NaN => false
  | Dec m1 e1, Dec m2 e2 =>
      let e := Z.min e1 e2 in
      (m1 * 10 ^ (e1 - e) <=? m2 * 10 ^ (e2 - e))%Z
  | NInf, _ => true
  | _, PInf => true
  | _, _ => false
  end.

(** [Math.round]: the nearest integer, a tie going up. *)
Definition Math_round (n : number) : number :=
  match n with
  | Dec m e =>
      if (0 <=? e)%Z then Dec m e
      else let d := (10 ^ (- e))%Z in Dec ((2 * m + d) / (2 * d)) 0
  | _ => n
  end.

Fixpoint uint_digits (u : Decimal.uint) : jsstring :=
  match u with
  | Decimal.Nil => []
  | Decimal.D0 r => 48%N :: uint_digits r
  | Decimal.D1 r => 49%N :: uint_digits r
  | Decimal.D2 r => 50%N :: uint_digits r
  | Decimal.D3 r => 51%N :: uint_digits r
  | Decimal.D4 r => 52%N :: uint_digits r
  | Decimal.D5 r => 53%N :: uint_digits r
  | Decimal.D6 r => 54%N :: uint_digits r
  | Decimal.D7 r => 55%N :: uint_digits r
  | Decimal.D8 r => 56%N :: uint_digits r
  | Decimal.D9 r => 57%N :: uint_digits r
  end.

(** The decimal digits of a natural number, ["0"] for zero. *)
Definition digits_of_N (n : N) : jsstring := uint_digits (N.to_uint n).

Definition digit_val (c : char) : Z := Z.of_N (c - 48).

Definition digits_to_Z (ds : jsstring) : Z :=
  fold_left (fun acc c => acc * 10 + digit_val c)%Z ds 0%Z.

Definition zeros (n : nat) : jsstring := repeat 48%N n.

(** [Number::toString] in radix 10: with [s] the significant digits, [k]
    their count and [n] the position of the decimal point, plain notation
    for [-6 < n <= 21] and exponent notation otherwise. *)
Definition numberToString (x : number) : jsstring :=
  match x with
  | NaN => js "NaN"
  | PInf => js "Infinity"
  | NInf => js "-Infinity"
  | Dec m e =>
      if (m =? 0)%Z then js "0" else
      let all := digits_of_N (Z.abs_N m) in
      let s := rev (dropWhile (fun c => (c =? 48)%N) (rev all)) in
      let k := Z.of_nat (length s) in
      let n := (Z.of_nat (length all) + e)%Z in
      let sign := if (m <? 0)%Z then js "-" else [] in
      sign ++
      (if ((k <=? n) && (n <=? 21))%Z then s ++ zeros (Z.to_nat (n - k))
       else if ((0 <? n) && (n <=? 21))%Z
         then take (Z.to_nat n) s ++ js "." ++ drop (Z.to_nat n) s
       else if ((-6 <? n) && (n <=? 0))%Z
         then js "0." ++ zeros (Z.to_nat (- n)) ++ s
       else
         let ex := (n - 1)%Z in
         let etxt := (if (ex <? 0)%Z then js "-" else js "+")
                       ++ digits_of_N (Z.abs_N ex) in
         match s with
         | [d] => [d] ++ js "e" ++ etxt
         | d :: r => [d] ++ js "." ++ r ++ js "e" ++ etxt
         | [] => []
         end)
  end.

(** The longest prefix of digits, and the rest. *)
Fixpoint scan_digits (s : jsstring) : jsstring * jsstring :=
  match s with
  | c :: r =>
      if isDigit c then let '(ds, rest) := scan_digits r in (c :: ds, rest)
      else ([], s)
  | [] => ([], [])
  end.

(** An optional exponent part [e|E [+|-] digits]; [None] when an exponent
    mark is not followed by digits. *)
Definition scan_exponent (s : jsstring) : option (Z * jsstring) :=
  match s with
  | c :: r =>
      if (c =? 101)%N || (c =? 69)%N then
        let '(neg, r1) :=
          match r with
          | sg :: r' =>
              if (sg =? 45)%N then (true, r')
              else if (sg =? 43)%N then (false, r') else (false, r)
          | [] => (false, r)
          end in
        let '(ds, rest) := scan_digits r1 in
        match ds with
        | [] => None
        | _ => Some (if neg then (- digits_to_Z ds)%Z else digits_to_Z ds, rest)
        end
      else Some (0%Z, s)
  | [] => Some (0%Z, [])
  end.

Definition hex_val (c : char) : option Z :=
  if isDigit c then Some (Z.of_N (c - 48))
  else if in_range 97 102 c then Some (Z.of_N (c - 87))
  else if in_range 65 70 c then Some (Z.of_N (c - 55))
  else None.

Definition radix_digits (radix : Z) (s : jsstring) : option Z :=
  match s with
  | [] => None
  | _ =>
      fold_left (fun acc c =>
        match acc, hex_val c with
        | Some a, Some d => if (d <? radix)%Z then Some (a * radix + d)%Z else None
        | _, _ => None
        end) s (Some 0%Z)
  end.

(** [StrUnsignedDecimalLiteral], the whole string. *)
Definition unsigned_decimal (s : jsstring) : number :=
  if str_eqb s (js "Infinity") then PInf else
  let '(ip, r1) := scan_digits s in
  let '(fp, r2) :=
    match r1 with
    | c :: r => if (c =? 46)%N then scan_digits r else ([], r1)
    | [] => ([], r1)
    end in
  match ip ++ fp with
  | [] => NaN
  | ds =>
      match scan_exponent r2 with
      | Some (ex, []) => Dec (digits_to_Z ds) (ex - Z.of_nat (length fp))
      | _ => NaN
      end
  end.

Definition negate (n : number) : number :=
  match n with
  | Dec m e => Dec (- m) e
  | PInf => NInf
  | NInf => PInf
  | NaN => NaN
  end.

(** [StringToNumber]: what [Number(s)] is for a string. *)
Definition stringToNumber (s : jsstring) : number :=
  match trim s with
  | [] => Dec 0 0
  | c :: r =>
      if (c =? 45)%N then negate (unsigned_decimal r)
      else if (c =? 43)%N then unsigned_decimal r
      else
        match r with
        | p :: ds =>
            let radix :=
              if (c =? 48)%N then
                if (p =? 120)%N || (p =? 88)%N then Some 16%Z
                else if (p =? 111)%N || (p =? 79)%N then Some 8%Z
                else if (p =? 98)%N || (p =? 66)%N then Some 2%Z
                else None
              else None in
            match radix with
            | Some b =>
                match radix_digits b ds with
                | Some z => Dec z 0
                | None => NaN
                end
            | None => unsigned_decimal (c :: r)
            end
        | [] => unsigned_decimal (c :: r)
        end
  end.

(** ** Values *)

Inductive val :=
| VUndef
| VNull
| VBool (b : bool)
| VNum (n : number)
| VStr (s : jsstring)
| VArr (l : list val)
| VObj (kv : list (jsstring * val)).

Definition truthy (v : val) : bool :=
  match v with
  | VUndef | VNull => false
  | VBool b => b
  | VNum n => num_truthy n
  | VStr s => match s with [] => false | _ => true end
  | VArr _ | VObj _ => true
  end.

(** [a || b] *)
Definition or_else (a b : val) : val := if truthy a then a else b.

Fixpoint ToString (v : val) : jsstring :=
  match v with
  | VUndef => js "undefined"
  | VNull => js "null"
  | VBool true => js "true"
  | VBool false => js "false"
  | VNum n => numberToString n
  | VStr s => s
  | VArr l =>
      join (js ",")
        (map (fun x => match x with VUndef | VNull => [] | _ => ToString x end) l)
  | VObj _ => js "[object Object]"
  end.

(** [Number(v)] *)
Definition ToNumber (v : val) : number :=
  match v with
  | VUndef => NaN
  | VNull => Dec 0 0
  | VBool true => Dec 1 0
  | VBool false => Dec 0 0
  | VNum n => n
  | VStr s => stringToNumber s
  | VArr _ => stringToNumber (ToString v)
  | VObj _ => NaN
  end.

Fixpoint assoc {A} (k : jsstring) (l : list (jsstring * A)) : option A :=
  match l with
  | [] => None
  | (k', v) :: r => if str_eqb k k' then Some v else assoc k r
  end.

(** [o[k] = v] on an object: the value is replaced where the key is, or the
    pair is added last. *)
Fixpoint obj_set {A} (l : list (jsstring * A)) (k : jsstring) (v : A)
  : list (jsstring * A) :=
  match l with
  | [] => [(k, v)]
  | (k', v') :: r => if str_eqb k k' then (k, v) :: r else (k', v') :: obj_set r k v
  end.

(** A canonical array index: ["0"], or digits that do not start with 0. *)
Definition array_index (k : jsstring) : option nat :=
  match k with
  | [] => None
  | c :: r =>
      if forallb isDigit k && (negb (c =? 48)%N || match r with [] => true | _ => false end)
      then Some (Z.to_nat (digits_to_Z k)) else None
  end.

(** [o[k]] or [o.k] for a name [k] that no built-in prototype defines (all
    the names the sources read are such); [None] is the TypeError of a
    property read on [null] or [undefined]. *)
Definition get_prop (o : val) (k : jsstring) : option val :=
  match o with
  | VUndef | VNull => None
  | VObj kv => Some (default VUndef (assoc k kv))
  | VArr l =>
      if str_eqb k (js "length") then Some (VNum (num_of_Z (Z.of_nat (length l))))
      else Some (match array_index k with
                 | Some i => default VUndef (l !! i)
                 | None => VUndef
                 end)
  | VStr s =>
      if str_eqb k (js "length") then Some (VNum (num_of_Z (Z.of_nat (length s))))
      else Some (match array_index k with
                 | Some i => match s !! i with Some c => VStr [c] | None => VUndef end
                 | None => VUndef
                 end)
  | VBool _ | VNum _ => Some VUndef
  end.

(** [o?.k] *)
Definition get_prop_opt (o : val) (k : jsstring) : val :=
  default VUndef (get_prop o k).

(** ** JSON text

    [JSON.parse] by recursive descent.  The three functions go down on a
    fuel argument; [JSON_parse] starts them with more than twice as much
    fuel as the text has code units, which is always enough (lemma
    [JSON_parse_fuel]).  Objects keep
    their members in the order of the text; the order of the keys is never
    observed by the sources. *)

Inductive presult :=
| POk (v : val) (rest : jsstring)
| PErr
| PFuel.

Definition isJsonWs (c : char) : bool :=
  (c =? 32)%N || (c =? 9)%N || (c =? 10)%N || (c =? 13)%N.

Definition skip_ws (s : jsstring) : jsstring := dropWhile isJsonWs s.

Definition hex4 (a b c d : char) : option char :=
  match hex_val a, hex_val b, hex_val c, hex_val d with
  | Some x, Some y, Some z, Some w =>
      Some (Z.to_N (((x * 16 + y) * 16 + z) * 16 + w))
  | _, _, _, _ => None
  end.

Definition simple_escape (c : char) : option char :=
  if (c =? 34)%N then Some 34%N
  else if (c =? 92)%N then Some 92%N
  else if (c =? 47)%N then Some 47%N
  else if (c =? 98)%N then Some 8%N
  else if (c =? 102)%N then Some 12%N
  else if (c =? 110)%N then Some 10%N
  else if (c =? 114)%N then Some 13%N
  else if (c =? 116)%N then Some 9%N
  else None.

(** The characters of a string literal after its opening quote, up to and
    without the closing quote. *)
Fixpoint pstring (s : jsstring) : option (jsstring * jsstring) :=
  match s with
  | [] => None
  | c :: r =>
      if (c =? 34)%N then Some ([], r)
      else if (c =? 92)%N then
        match r with
        | e :: r1 =>
            if (e =? 117)%N then
              match r1 with
              | h1 :: h2 :: h3 :: h4 :: r2 =>
                  match hex4 h1 h2 h3 h4, pstring r2 with
                  | Some u, Some (t, rest) => Some (u :: t, rest)
                  | _, _ => None
                  end
              | _ => None
              end
            else
              match simple_escape e, pstring r1 with
              | Some u, Some (t, rest) => Some (u :: t, rest)
              | _, _ => None
              end
        | [] => None
        end
      else if (c <? 32)%N then None
      else
        match pstring r with
        | Some (t, rest) => Some (c :: t, rest)
        | None => None
        end
  end.

(** A number literal: [-? int frac? exp?]. *)
Definition pnumber (s : jsstring) : option (number * jsstring) :=
  let '(neg, s1) :=
    match s with
    | c :: r => if (c =? 45)%N then (true, r) else (false, s)
    | [] => (false, s)
    end in
  let int_part :=
    match s1 with
    | c :: r =>
        if (c =? 48)%N then Some ([c], r)
        else if isDigit c then Some (scan_digits s1)
        else None
    | [] => None
    end in
  match int_part with
  | None => None
  | Some (ip, r1) =>
      let frac :=
        match r1 with
        | c :: r =>
            if (c =? 46)%N then
              match scan_digits r with
              | ([], _) => None
              | (fp, r2) => Some (fp, r2)
              end
            else Some ([], r1)
        | [] => Some ([], r1)
        end in
      match frac with
      | None => None
      | Some (fp, r2) =>
          match scan_exponent r2 with
          | None => None
          | Some (ex, r3) =>
              let m := digits_to_Z (ip ++ fp) in
              Some (Dec (if neg then - m else m) (ex - Z.of_nat (length fp)), r3)
          end
      end
  end.

Fixpoint pvalue (fuel : nat) (s : jsstring) : presult :=
  match fuel with
  | O => PFuel
  | S f =>
      match skip_ws s with
      | [] => PErr
      | c :: r =>
          if (c =? 123)%N then
            match skip_ws r with
            | d :: r' => if (d =? 125)%N then POk (VObj []) r' else pmembers f [] r
            | [] => PErr
            end
          else if (c =? 91)%N then
            match skip_ws r with
            | d :: r' => if (d =? 93)%N then POk (VArr []) r' else pelements f [] r
            | [] => PErr
            end
          else if (c =? 34)%N then
            match pstring r with
            | Some (t, rest) => POk (VStr t) rest
            | None => PErr
            end
          else if startsWith (c :: r) (js "true") then POk (VBool true) (drop 4 (c :: r))
          else if startsWith (c :: r) (js "false") then POk (VBool false) (drop 5 (c :: r))
          else if startsWith (c :: r) (js "null") then POk VNull (drop 4 (c :: r))
          else
            match pnumber (c :: r) with
            | Some (n, rest) => POk (VNum n) rest
            | None => PErr
            end
      end
  end
with pmembers (fuel : nat) (acc : list (jsstring * val)) (s : jsstring) : presult :=
  match fuel with
  | O => PFuel
  | S f =>
      match skip_ws s with
      | q :: r =>
          if (q =? 34)%N then
            match pstring r with
            | Some (k, r1) =>
                match skip_ws r1 with
                | c :: r2 =>
                    if (c =? 58)%N then
                      match pvalue f r2 with
                      | POk v r3 =>
                          match skip_ws r3 with
                          | d :: r4 =>
                              if (d =? 44)%N then pmembers f (obj_set acc k v) r4
                              else if (d =? 125)%N then POk (VObj (obj_set acc k v)) r4
                              else PErr
                          | [] => PErr
                          end
                      | e => e
                      end
                    else PErr
                | [] => PErr
                end
            | None => PErr
            end
          else PErr
      | [] => PErr
      end
  end
with pelements (fuel : nat) (acc : list val) (s : jsstring) : presult :=
  match fuel with
  | O => PFuel
  | S f =>
      match pvalue f s with
      | POk v r =>
          match skip_ws r with
          | d :: r' =>
              if (d =? 44)%N then pelements f (acc ++ [v]) r'
              else if (d =? 93)%N then POk (VArr (acc ++ [v])) r'
              else PErr
          | [] => PErr
          end
      | e => e
      end
  end.

(** [JSON.parse(s)]; [None] is the SyntaxError. *)
Definition JSON_parse (s : jsstring) : option val :=
  match pvalue (S (2 * length s)) s with
  | POk v rest => match skip_ws rest with [] => Some v | _ => None end
  | _ => None
  end.

Definition hex_digit (n : N) : char := if (n <? 10)%N then (48 + n)%N else (87 + n)%N.

Definition unicode_escape (c : char) : jsstring :=
  js "\u" ++ [hex_digit (c / 4096 mod 16); hex_digit (c / 256 mod 16);
              hex_digit (c / 16 mod 16); hex_digit (c mod 16)]%N.

(** [QuoteJSONString] without the two quotes. *)
Fixpoint quote_chars (s : jsstring) : jsstring :=
  match s with
  | [] => []
  | c :: r =>
      if (c =? 8)%N then js "\b" ++ quote_chars r
      else if (c =? 9)%N then js "\t" ++ quote_chars r
      else if (c =? 10)%N then js "\n" ++ quote_chars r
      else if (c =? 12)%N then js "\f" ++ quote_chars r
      else if (c =? 13)%N then js "\r" ++ quote_chars r
      else if (c =? 34)%N then [92; 34]%N ++ quote_chars r
      else if (c =? 92)%N then [92; 92]%N ++ quote_chars r
      else if (c <? 32)%N then unicode_escape c ++ quote_chars r
      else if isHighSurrogate c then
        match r with
        | d :: r' =>
            if isLowSurrogate d then c :: d :: quote_chars r'
            else unicode_escape c ++ quote_chars r
        | [] => unicode_escape c
        end
      else if isLowSurrogate c then unicode_escape c ++ quote_chars r
      else c :: quote_chars r
  end.

Definition quote (s : jsstring) : jsstring := dq ++ quote_chars s ++ dq.

(** [JSON.stringify(v)]; [None] is the result [undefined]. *)
Fixpoint JSON_stringify (v : val) : option jsstring :=
  match v with
  | VUndef => None
  | VNull => Some (js "null")
  | VBool true => Some (js "true")
  | VBool false => Some (js "false")
  | VNum n => Some (if Number_isFinite n then numberToString n else js "null")
  | VStr s => Some (quote s)
  | VArr l =>
      Some (js "[" ++
            join (js ",") (map (fun x => default (js "null") (JSON_stringify x)) l)
            ++ js "]")
  | VObj kv =>
      Some (js "{" ++
            join (js ",")
              (flat_map (fun '(k, x) =>
                 match JSON_stringify x with
                 | Some t => [quote k ++ js ":" ++ t]
                 | None => []
                 end) kv)
            ++ js "}")
  end.

End JS.

(** ** Regular expressions

    The fragment of the pattern language that [highlight] builds: word
    boundaries, one level or more of groups, alternation, and characters
    (plain or escaped), matched by backtracking with the [g] and [i] flags. *)

Module RegExp.
Import JS.

Inductive regex :=
| REmpty
| RChar (c : char)
| RWordB
| RSeq (a b : regex)
| RAlt (a b : regex)
| RGroup (a : regex).

Inductive token :=
| TB
| TLit (c : char)
| TOpen
| TClose
| TBar.

(** [SyntaxCharacter]: ^ $ \ . * + ? ( ) [ ] { } | *)
Definition isSyntaxChar (c : char) : bool :=
  (c =? 94)%N || (c =? 36)%N || (c =? 92)%N || (c =? 46)%N || (c =? 42)%N
  || (c =? 43)%N || (c =? 63)%N || (c =? 40)%N || (c =? 41)%N || (c =? 91)%N
  || (c =? 93)%N || (c =? 123)%N || (c =? 125)%N || (c =? 124)%N.

Fixpoint lex (s : jsstring) : option (list token) :=
  match s with
  | [] => Some []
  | c :: r =>
      if (c =? 92)%N then
        match r with
        | e :: r' =>
            if (e =? 98)%N then cons TB <$> lex r'
            else if isSyntaxChar e then cons (TLit e) <$> lex r'
            else None
        | [] => None
        end
      else if (c =? 40)%N then cons TOpen <$> lex r
      else if (c =? 41)%N then cons TClose <$> lex r
      else if (c =? 124)%N then cons TBar <$> lex r
      else if isSyntaxChar c then None
      else cons (TLit c) <$> lex r
  end.

Fixpoint mk_alt (alts : list regex) : regex :=
  match alts with
  | [] => REmpty
  | [a] => a
  | a :: r => RAlt a (mk_alt r)
  end.

(** A disjunction being read: its finished alternatives and the current one. *)
Abbreviation frame := (list regex * regex)%type.

Definition parse_step (st : option (frame * list frame)) (t : token)
  : option (frame * list frame) :=
  match st with
  | None => None
  | Some ((alts, cur), stack) =>
      match t with
      | TLit c => Some ((alts, RSeq cur (RChar c)), stack)
      | TB => Some ((alts, RSeq cur RWordB), stack)
      | TBar => Some ((alts ++ [cur], REmpty), stack)
      | TOpen => Some (([], REmpty), (alts, cur) :: stack)
      | TClose =>
          match stack with
          | [] => None
          | (palts, pcur) :: rest =>
              Some ((palts, RSeq pcur (RGroup (mk_alt (alts ++ [cur])))), rest)
          end
      end
  end.

Definition parse (ts : list token) : option regex :=
  match fold_left parse_step ts (Some (([], REmpty), [])) with
  | Some ((alts, cur), []) => Some (mk_alt (alts ++ [cur]))
  | _ => None
  end.

(** [new RegExp(source, "gi")]; [None] is the SyntaxError. *)
Definition RegExp_new (source : jsstring) : option regex := lex source ≫= parse.

Definition wordAt (text : jsstring) (i : nat) : bool :=
  match text !! i with Some c => isWordChar c | None => false end.

(** [\b] at index [i]. *)
Definition isWordBoundary (text : jsstring) (i : nat) : bool :=
  xorb (match i with O => false | S j => wordAt text j end) (wordAt text i).

(** [m r text k i]: the end of a match of [r] that starts at [i] and that
    the continuation [k] accepts, alternatives tried from the left. *)
Fixpoint m (r : regex) (text : jsstring) (k : nat -> option nat) (i : nat)
  : option nat :=
  match r with
  | REmpty => k i
  | RChar c =>
      match text !! i with
      | Some d => if (canonicalize d =? canonicalize c)%N then k (S i) else None
      | None => None
      end
  | RWordB => if isWordBoundary text i then k i else None
  | RSeq a b => m a text (fun j => m b text k j) i
  | RAlt a b =>
      match m a text k i with
      | Some e => Some e
      | None => m b text k i
      end
  | RGroup a => m a text k i
  end.

(** The end of the match that starts at [i], if there is one. *)
Definition match_at (r : regex) (text : jsstring) (i : nat) : option nat :=
  m r text Some i.

(** [text.replace(re, f)] for a global [re]: from [i] on, with the text
    before [copied] already emitted.  An empty match moves the search one
    code unit on. *)
Fixpoint replace_from (fuel : nat) (r : regex) (f : jsstring -> jsstring)
  (text : jsstring) (i copied : nat) : jsstring :=
  match fuel with
  | O => drop copied text
  | S fuel' =>
      if bool_decide (length text < i) then drop copied text
      else
        match match_at r text i with
        | Some e =>
            slice text copied i ++ f (slice text i e)
            ++ replace_from fuel' r f text (if (e =? i) then S i else e) e
        | None => replace_from fuel' r f text (S i) copied
        end
  end.

Definition replace_all (r : regex) (f : jsstring -> jsstring) (text : jsstring)
  : jsstring :=
  replace_from (S (length text)) r f text 0 0.

End RegExp.

(** ** The browser application *)

Module Client.
Import JS RegExp.

Record Badge := { label : jsstring; color : jsstring; bg : jsstring }.

Definition classifyCarbs (carbs : number) : Badge :=
  if num_ltb (num_of_Z 30) carbs
  then {| label := js "Avoid"; color := js "#d33"; bg := js "#ffecec" |}
  else if num_leb (num_of_Z 15) carbs
  then {| label := js "Limit"; color := js "#a96d00"; bg := js "#fff4d6" |}
  else {| label := js "Eat"; color := js "#1a7f37"; bg := js "#e9f7ef" |}.

Record Allergen := { key : jsstring; labels : list jsstring }.

Definition ALLERGENS : list Allergen :=
  [ {| key := js "peanut"; labels := map js ["peanut"; "groundnut"; "arachis"] |};
    {| key := js "tree_nuts";
       labels := map js ["almond"; "walnut"; "pecan"; "hazelnut"; "pistachio";
                         "cashew"; "brazil nut"; "macadamia"] |};
    {| key := js "milk"; labels := map js ["milk"; "dairy"; "casein"; "whey"; "lactose"] |};
    {| key := js "egg"; labels := map js ["egg"; "albumen"; "ovalbumin"] |};
    {| key := js "gluten";
       labels := map js ["gluten"; "wheat"; "barley"; "rye"; "spelt"; "malt"] |};
    {| key := js "soy"; labels := map js ["soy"; "soya"; "soybean"; "lecithin (soya)"] |};
    {| key := js "sesame"; labels := map js ["sesame"; "tahini"; "sesamum"] |};
    {| key := js "fish"; labels := map js ["fish"; "anchovy"; "cod"; "salmon"; "tuna"] |};
    {| key := js "shellfish";
       labels := map js ["shrimp"; "prawn"; "crab"; "lobster"; "oyster"; "clam";
                         "mussel"; "scallop"] |};
    {| key := js "mustard"; labels := map js ["mustard"] |};
    {| key := js "celery"; labels := map js ["celery"] |};
    {| key := js "sulfites";
       labels := map js ["sulphite"; "sulfite"; "e220"; "e221"; "e222"; "e223";
                         "e224"; "e226"; "e227"; "e228"] |} ]%string.

(** *** Profile store

    [localStorage] holds at most one item under the application's key. *)

Definition Storage := option jsstring.

(** [JSON.parse(localStorage.getItem(KEY) || "{}")], any exception giving [{}]. *)
Definition loadProfile (st : Storage) : val :=
  let text := match st with
              | Some (c :: r) => c :: r
              | Some [] | None => js "{}"
              end in
  match JSON_parse text with
  | Some v => v
  | None => VObj []
  end.

(** [localStorage.setItem(KEY, JSON.stringify(p))]: the item is the string
    of the argument, ["undefined"] when there is nothing to serialise. *)
Definition saveProfile (p : val) : Storage :=
  Some (default (js "undefined") (JSON_stringify p)).

(** *** Highlighting *)

Definition escapeRegExp (n : jsstring) : jsstring :=
  flat_map (fun c => if isSyntaxChar c then [92%N; c] else [c]) n.

Definition mark (matched : jsstring) : jsstring :=
  js "<mark style=" ++ dq ++ js "background:#ffcccc" ++ dq ++ js ">"
  ++ matched ++ js "</mark>".

Definition highlight_source (needles : list jsstring) : jsstring :=
  js "\b(" ++ join (js "|") (map escapeRegExp needles) ++ js ")\b".

(** [None] only if [new RegExp] threw, which it never does here
    (lemma [highlight_source_compiles]). *)
Definition highlight (text : jsstring) (needles : list jsstring) : option jsstring :=
  match text with
  | [] => Some []
  | _ =>
      re ← RegExp_new (highlight_source needles);
      Some (replace_all re mark text)
  end.

(** *** Risk detection *)

Record Product := {
  code : val;
  product_name : val;
  brands : val;
  ingredients_text : val;
  allergens_tags : option (list jsstring)
}.

Record Risk := { hits : list jsstring; hasRisk : bool }.

(** The labels of the categories the profile selects, in catalog order;
    [None] when [profile[a.key]] throws, i.e. for a [null] profile. *)
Definition selectedLabels (profile : val) : option (list jsstring) :=
  fold_left
    (fun out a =>
       o ← out;
       v ← get_prop profile (key a);
       Some (if truthy v then o ++ labels a else o))
    ALLERGENS (Some []).

(** [(v || "").toLowerCase()] *)
Definition lower_or_empty (v : val) : option jsstring :=
  match or_else v (VStr []) with
  | VStr s => Some (toLowerCase s)
  | _ => None
  end.

(** [t.replace(/^..:/, "")] *)
Definition strip_lang (t : jsstring) : jsstring :=
  match t with
  | a :: b :: c :: r =>
      if negb (isLineTerminator a) && negb (isLineTerminator b) && (c =? 58)%N
      then r else t
  | _ => t
  end.

(** [Array.from(new Set(l))]: the first occurrences, in order. *)
Definition uniq (l : list jsstring) : list jsstring :=
  fold_left (fun seen x => if existsb (str_eqb x) seen then seen else seen ++ [x]) l [].

(** The tag test of [riskFor]; the profile is an object or a primitive
    here, [selectedLabels] has read the same properties before. *)
Definition tag_selected (profile : val) (t : jsstring) : bool :=
  existsb (fun a =>
             truthy (get_prop_opt profile (key a))
             && (str_eqb (key a) t || existsb (str_eqb t) (labels a)))
          ALLERGENS.

Definition riskFor (profile : val) (p : option Product) : option Risk :=
  match p with
  | None => Some {| hits := []; hasRisk := false |}
  | Some p =>
      sel ← selectedLabels profile;
      ing ← lower_or_empty (ingredients_text p);
      let textHits := filter (fun lbl => includes ing (toLowerCase lbl)) sel in
      let tagHits :=
        filter (tag_selected profile)
               (map strip_lang (default [] (allergens_tags p))) in
      let u := uniq (textHits ++ tagHits) in
      Some {| hits := u; hasRisk := bool_decide (0 < length u) |}
  end.

(** *** Select all, deselect all, toggle *)

Definition setAll (b : bool) : val :=
  VObj (fold_left (fun o a => obj_set o (key a) (VBool b)) ALLERGENS []).

Definition selectAllAllergens : val := setAll true.
Definition deselectAllAllergens : val := setAll false.

(** The own enumerable properties that [{...v}] copies. *)
Definition spread (v : val) : list (jsstring * val) :=
  match v with
  | VObj kv => kv
  | VArr l => imap (fun i x => (digits_of_N (N.of_nat i), x)) l
  | VStr s => imap (fun i c => (digits_of_N (N.of_nat i), VStr [c])) s
  | _ => []
  end.

(** The checkbox of category [a]: [{ ...prev, [a.key]: checked }]. *)
Definition toggle (prev : val) (a : Allergen) (checked : bool) : val :=
  VObj (obj_set (spread prev) (key a) (VBool checked)).

(** *** Product search *)

Fixpoint filterM {A} (f : A -> option bool) (l : list A) : option (list A) :=
  match l with
  | [] => Some []
  | x :: r =>
      match f x, filterM f r with
      | Some true, Some r' => Some (x :: r')
      | Some false, Some r' => Some r'
      | _, _ => None
      end
  end.

Definition as_array (v : val) : option (list val) :=
  match v with VArr l => Some l | _ => None end.

Definition as_string (v : val) : option jsstring :=
  match v with VStr s => Some s | _ => None end.

(** [p.product_name && p.product_name.toLowerCase().includes(q.toLowerCase())] *)
Definition name_matches (q : jsstring) (p : val) : option bool :=
  name ← get_prop p (js "product_name");
  if truthy name then
    s ← as_string name;
    Some (includes (toLowerCase s) (toLowerCase q))
  else Some false.

Definition toProduct (p : val) : option Product :=
  tags ← get_prop p (js "allergens_tags");
  arr ← as_array (or_else tags (VArr []));
  strs ← mapM as_string arr;
  Some {| code := get_prop_opt p (js "code");
          product_name := get_prop_opt p (js "product_name");
          brands := get_prop_opt p (js "brands");
          ingredients_text := get_prop_opt p (js "ingredients_text");
          allergens_tags :=
            Some (map (drop 3) (filter (fun t => startsWith t (js "en:")) strs)) |}.

(** [p.product_name ?? ""] as the key of the map; a product that passed
    the filter has a non-empty string there. *)
Definition name_key (p : Product) : jsstring :=
  match product_name p with VStr s => s | _ => [] end.

(** The [Map] of the loop, in insertion order. *)
Definition uniqueProdsMap (prods : list Product) : list (jsstring * Product) :=
  fold_left
    (fun mp p =>
       let name := name_key p in
       match name, assoc name mp with
       | _ :: _, None => obj_set mp name p
       | _, _ => mp
       end)
    prods [].

Definition candidates (q : jsstring) (j : val) : option (list Product) :=
  products ← get_prop j (js "products");
  arr ← as_array (or_else products (VArr []));
  filtered ← filterM (name_matches q) arr;
  mapM toProduct filtered.

(** The result list that [search] leaves in the state; [fetched] is the
    parsed body of the response, [None] when [fetch] or [json()] rejects.
    Every exception of the [try] block, the one of [encodeURIComponent]
    too, ends in an empty list. *)
Definition search (q : jsstring) (fetched : option val) : list Product :=
  match trim q with
  | [] => []
  | _ =>
      if encodable q then
        match fetched ≫= candidates q with
        | Some prods => take 5 (map snd (uniqueProdsMap prods))
        | None => []
        end
      else []
  end.

(** *** The nutrition of the picked product *)

(** The body of the request that the effect posts to [/nutrition] when a
    product is picked; [None] when the effect returns before the [fetch]:
    nothing is picked, or the product has no name. *)
Definition nutritionBody (picked : option Product) : option jsstring :=
  match picked with
  | None => None
  | Some p =>
      let name := or_else (product_name p) (VStr []) in
      let brand := or_else (brands p) (VStr []) in
      if truthy name
      then JSON_stringify (VObj [(js "name", name); (js "brand", brand)])
      else None
  end.

(** *** The details of the picked product *)

Record Details := { pickedRisk : Risk; highlighted : jsstring }.

(** [riskFor(picked)] and
    [picked?.ingredients_text ? highlight(picked.ingredients_text, selectedLabels) : ""],
    in a render that has computed the selected labels; [None] when the
    render throws. *)
Definition details (profile : val) (picked : option Product) : option Details :=
  sel ← selectedLabels profile;
  risk ← riskFor profile picked;
  hl ← match picked with
       | Some p =>
           if truthy (ingredients_text p)
           then text ← as_string (ingredients_text p); highlight text sel
           else Some []
       | None => Some []
       end;
  Some {| pickedRisk := risk; highlighted := hl |}.

(** [highlighted || "<i>No ingredients listed</i>"] *)
Definition ingredientsHtml (d : Details) : jsstring :=
  match highlighted d with
  | [] => js "<i>No ingredients listed</i>"
  | h => h
  end.

(** *** The profile across sessions *)

Record Session := { storage : Storage; profile : val }.

(** The component renders unless reading the profile throws. *)
Definition renders (p : val) : bool :=
  match selectedLabels p with Some _ => true | None => false end.

(** A render with profile [p], then the effect that saves it; a render
    that throws leaves the store as it was. *)
Definition commit (st : Storage) (p : val) : Session :=
  {| storage := if renders p then saveProfile p else st; profile := p |}.

(** What can happen to the profile: the page is opened (again), a checkbox
    changes, or one of the two buttons is pressed. *)
Inductive step : Session -> Session -> Prop :=
| step_mount s : step s (commit (storage s) (loadProfile (storage s)))
| step_toggle s a checked :
    renders (profile s) = true -> In a ALLERGENS ->
    step s (commit (storage s) (toggle (profile s) a checked))
| step_select_all s :
    renders (profile s) = true -> step s (commit (storage s) selectAllAllergens)
| step_deselect_all s :
    renders (profile s) = true -> step s (commit (storage s) deselectAllAllergens).

(** A first visit: nothing is stored yet. *)
Definition fresh : Session := commit None (loadProfile None).

Inductive reachable : Session -> Prop :=
| reach_fresh : reachable fresh
| reach_step s s' : reachable s -> step s s' -> reachable s'.

End Client.

(** ** The nutrition proxy *)

(** The handler of [POST /nutrition].  A request is followed from its
    arrival to its response in one piece: the [await]s of one request are
    not interleaved with other requests, whose effect on the cache shows
    only in the world a request starts from. *)

Module Server.
Import JS.

Record entry := { data : val; t : Z }.

Inductive call :=
| SearchCall (q : jsstring)
| DetailCall (fdcId : jsstring).

(** What a handler can observe and change: the cache of the process, the
    clock, and the requests sent upstream so far. *)
Record World := { cache : gmap jsstring entry; clock : Z; calls : list call }.

(** A response of the upstream service: its [ok] flag and the result of
    [json()], [None] when the body is not JSON. *)
Record Reply := { ok : bool; json : option val }.

(** The upstream service during one request: for each call the time it
    takes and the reply, [None] when [fetch] rejects. *)
Definition Upstream : Type := call -> Z * option Reply.

Record Response := { status : Z; body : val }.

(** Computations that read and change the world and may throw. *)
Definition M (A : Type) : Type := World -> option A * World.

Definition ret {A} (a : A) : M A := fun w => (Some a, w).
Definition throw {A} : M A := fun w => (None, w).
Definition bind {A B} (c : M A) (k : A -> M B) : M B :=
  fun w => match c w with
           | (Some a, w') => k a w'
           | (None, w') => (None, w')
           end.
Definition lift {A} (o : option A) : M A :=
  match o with Some a => ret a | None => throw end.

Notation "x <- c ;; k" := (bind c (fun x => k))
  (at level 100, c at next level, right associativity).

Definition TTL : Z := 5 * 60 * 1000.

Definition get (k : jsstring) : M val := fun w =>
  match cache w !! k with
  | None => (Some VNull, w)
  | Some v =>
      if (TTL <? clock w - t v)%Z
      then (Some VNull,
            {| cache := delete k (cache w); clock := clock w; calls := calls w |})
      else (Some (data v), w)
  end.

Definition set (k : jsstring) (d : val) : M unit := fun w =>
  (Some tt,
   {| cache := <[k := {| data := d; t := clock w |}]> (cache w);
      clock := clock w; calls := calls w |}).

(** [await fetch(...)]: the call is recorded and the clock moves on. *)
Definition fetch (up : Upstream) (c : call) : M Reply := fun w =>
  let '(dt, r) := up c in
  (r, {| cache := cache w; clock := (clock w + dt)%Z; calls := calls w ++ [c] |}).

Definition num (x : val) : number :=
  let n := ToNumber x in if Number_isFinite n then n else Dec 0 0.

Record Nutrients := { calories : number; carbs : number; sugars : number }.

Definition fromLabel (ln : val) : option Nutrients :=
  let ln := match ln with VUndef => VObj [] | _ => ln end in
  ca ← get_prop ln (js "calories");
  cb ← get_prop ln (js "carbohydrates");
  su ← get_prop ln (js "sugars");
  Some {| calories := num (get_prop_opt ca (js "value"));
          carbs := num (get_prop_opt cb (js "value"));
          sugars := num (get_prop_opt su (js "value")) |}.

Definition fromNutrients (list : val) : option Nutrients :=
  let list := match list with VUndef => VArr [] | _ => list end in
  match list with
  | VArr l =>
      let find code :=
        get_prop_opt
          (default VUndef
             (List.find (fun n =>
                str_eqb (ToString (get_prop_opt (get_prop_opt n (js "nutrient"))
                                                (js "number")))
                        code) l))
          (js "amount") in
      Some {| calories := num (find (js "1008"));
              carbs := num (find (js "1005"));
              sugars := num (find (js "2000")) |}
  | _ => None
  end.

(** [hits.find(h => h.dataType === 'Branded')] *)
Fixpoint find_branded (hits : list val) : option val :=
  match hits with
  | [] => Some VUndef
  | h :: r =>
      dt ← get_prop h (js "dataType");
      match dt with
      | VStr s => if str_eqb s (js "Branded") then Some h else find_branded r
      | _ => find_branded r
      end
  end.

(** [(v || '').trim()] *)
Definition trimmed (v : val) : option jsstring :=
  match or_else v (VStr []) with
  | VStr s => Some (trim s)
  | _ => None
  end.

(** [[brand, name].filter(Boolean).join(' ').trim() || name] *)
Definition query (brand name : jsstring) : jsstring :=
  match trim (join (js " ")
                (List.filter (fun s => match s with [] => false | _ => true end)
                             [brand; name])) with
  | [] => name
  | q => q
  end.

Definition cacheKey (q : jsstring) : jsstring := js "USDA::" ++ toLowerCase q.

Definition round_or_0 (n : number) : val :=
  VNum (Math_round (if num_truthy n then n else Dec 0 0)).

Definition error (s : Z) (msg : string) : Response :=
  {| status := s; body := VObj [(js "error", VStr (js msg))] |}.

(** The record of a lookup, from the candidates of the search: the pick,
    its detail, and what is read off it.  The cache is not touched. *)
Definition describe (up : Upstream) (brand : jsstring) (first : val)
  (hits : list val) : M val :=
  found <- lift (match brand with [] => Some VNull | _ => find_branded hits end) ;;
  let pick := or_else found first in
  fdcId <- lift (get_prop pick (js "fdcId")) ;;
  r <- fetch up (DetailCall (ToString fdcId)) ;;
  d <- lift (json r) ;;
  ln <- lift (get_prop d (js "labelNutrients")) ;;
  nutrients <- lift (if truthy ln then fromLabel ln
                     else fromNutrients (get_prop_opt d (js "foodNutrients"))) ;;
  matchType <- lift (match brand with
                     | [] => Some (js "generic")
                     | _ =>
                         match or_else (get_prop_opt d (js "brandOwner")) (VStr []) with
                         | VStr o =>
                             Some (if includes (toLowerCase o) (toLowerCase brand)
                                   then js "exact" else js "likely")
                         | _ => None
                         end
                     end) ;;
  let size := get_prop_opt d (js "servingSize") in
  let unit := get_prop_opt d (js "servingSizeUnit") in
  ret (VObj [ (js "source", VStr (js "usda"));
              (js "matchType", VStr matchType);
              (js "serving_desc",
                or_else (get_prop_opt d (js "householdServingFullText"))
                  (if truthy size && truthy unit
                   then VStr (ToString size ++ js " " ++ ToString unit)
                   else VStr (js "100 g")));
              (js "calories_kcal", round_or_0 (calories nutrients));
              (js "carbs_g", round_or_0 (carbs nutrients));
              (js "sugar_g", round_or_0 (sugars nutrients));
              (js "raw_name",
                or_else (get_prop_opt d (js "description"))
                  (or_else (get_prop_opt pick (js "description")) (VStr []))) ]).

(** The body of the [try] block after the two guards: the cache, the
    search, and the record that is cached and returned. *)
Definition cachedLookup (up : Upstream) (brand name : jsstring) : M Response :=
  let q := query brand name in
  cached <- get (cacheKey q) ;;
  if truthy cached then ret {| status := 200; body := cached |} else
  _ <- (if encodable q then ret tt else throw) ;;
  s <- fetch up (SearchCall q) ;;
  _ <- (if ok s then ret tt else throw) ;;
  sj <- lift (json s) ;;
  foods <- lift (get_prop sj (js "foods")) ;;
  match (match foods with VArr l => l | _ => [] end) with
  | [] => ret (error 404 "not_found")
  | first :: rest =>
      out <- describe up brand first (first :: rest) ;;
      _ <- set (cacheKey q) out ;;
      ret {| status := 200; body := out |}
  end.

(** The two guards of the handler and the strings it works on. *)
Definition validated (reqBody : val) : M (option (jsstring * jsstring)) :=
  name <- lift (trimmed (get_prop_opt reqBody (js "name"))) ;;
  brand <- lift (trimmed (get_prop_opt reqBody (js "brand"))) ;;
  match name with
  | [] => ret None
  | _ => ret (Some (brand, name))
  end.

(** [app.post('/nutrition', ...)]: the handler run on a request body, with
    the key of the environment and the upstream of the moment. *)
Definition nutrition (USDA_KEY : option jsstring) (up : Upstream) (reqBody : val)
  (w : World) : Response * World :=
  match USDA_KEY with
  | None | Some [] => (error 500 "USDA_API_KEY missing in .env", w)
  | Some (_ :: _) =>
      let handler : M Response :=
        v <- validated reqBody ;;
        match v with
        | None => ret (error 400 "name required")
        | Some (brand, name) => cachedLookup up brand name
        end in
      match handler w with
      | (Some r, w') => (r, w')
      | (None, w') => (error 500 "server_error", w')
      end
  end.

(** The worlds a process with a given key goes through: it starts with an
    empty cache, time passes, requests are handled one after the other. *)
Inductive runs (USDA_KEY : option jsstring) : World -> Prop :=
| runs_boot now : runs USDA_KEY {| cache := ∅; clock := now; calls := [] |}
| runs_tick w now :
    runs USDA_KEY w ->
    runs USDA_KEY {| cache := cache w; clock := now; calls := calls w |}
| runs_request w up reqBody :
    runs USDA_KEY w -> runs USDA_KEY (snd (nutrition USDA_KEY up reqBody w)).

End Server.

(** ** Vocabulary of the statements *)

Module Spec.
Import JS RegExp Client Server.

(** *** Numbers *)

(** The rational a finite number stands for. *)
Definition num_value (m e : Z) : Q := (inject_Z m * 10 ^ e)%Q.

(** *** Request fields *)

(** A field that is not there, is falsy, or is a string. *)
Definition string_or_absent (v : val) : Prop :=
  truthy v = false \/ exists s, v = VStr s.

(** A field that is not there, is falsy, or is a string of white space. *)
Definition blank (v : val) : Prop :=
  truthy v = false \/ exists s, v = VStr s /\ Forall (fun c => isWhiteSpace c = true) s.

(** The key of the environment is missing or empty. *)
Definition key_missing (k : option jsstring) : Prop := k = None \/ k = Some [].

(** A field that is there and is not a string: [trim] is not a function
    of it. *)
Definition not_a_string (v : val) : Prop :=
  truthy v = true /\ forall s, v <> VStr s.

Definition starts_tight (s : jsstring) : Prop :=
  match s with [] => True | c :: _ => isWhiteSpace c = false end.

(** A string that [trim] leaves as it is: no white space at either end. *)
Definition tight (s : jsstring) : Prop := starts_tight s /\ starts_tight (rev s).

(** *** Risk detection *)

(** The labels of the categories of [l] that a profile selects. *)
Definition labels_of (profile : val) (l : list Allergen) : list jsstring :=
  flat_map (fun a => if truthy (get_prop_opt profile (key a)) then labels a else []) l.

(** The category is selected in the profile: [profile[a.key]] is truthy. *)
Definition selected (profile : val) (a : Allergen) : bool :=
  truthy (get_prop_opt profile (key a)).

(** A tag as the catalog service writes it: two characters and a colon
    before the name. *)
Definition with_lang (c1 c2 : char) (t : jsstring) : jsstring := c1 :: c2 :: 58%N :: t.

Definition isAscii (c : char) : bool := (c <? 128)%N.

(** *** Product search *)

(** The candidates with, for each name, the first one that bears it. *)
Fixpoint first_occurrences (l : list Product) : list Product :=
  match l with
  | [] => []
  | p :: r => p :: filter (fun x => name_key x <> name_key p) (first_occurrences r)
  end.

Definition same_name (p x : Product) : bool := bool_decide (name_key x = name_key p).

(** *** The profile and its text *)

(** A code unit that a JSON string holds as it is. *)
Definition plain_char (c : char) : bool :=
  (32 <=? c)%N && negb (c =? 34)%N && negb (c =? 92)%N
  && negb (isHighSurrogate c) && negb (isLowSurrogate c).

Definition is_flag (v : val) : Prop := exists b, v = VBool b.

(** A profile as the application builds it: category keys, each once, with
    a boolean. *)
Definition profile_ok (kv : list (jsstring * val)) : Prop :=
  NoDup (map fst kv)
  /\ Forall (fun e => In (fst e) (map key ALLERGENS) /\ is_flag (snd e)) kv.

(** A mapping whose keys are category identifiers. *)
Definition keys_in_catalog (p : val) : Prop :=
  exists kv, p = VObj kv /\ Forall (fun k => In k (map key ALLERGENS)) (map fst kv).

Definition flag_text (v : val) : jsstring :=
  match v with VBool false => js "false" | _ => js "true" end.

Definition member_text (e : jsstring * val) : jsstring :=
  dq ++ fst e ++ dq ++ js ":" ++ flag_text (snd e).

(** The text [saveProfile] writes for the members of a profile. *)
Definition members_text (kv : list (jsstring * val)) : jsstring :=
  join (js ",") (map member_text kv).

Definition set_member (o : list (jsstring * val)) (e : jsstring * val) :=
  obj_set o (fst e) (snd e).

(** What holds of every session: the profile is a profile of the
    application and the store holds its text. *)
Definition session_ok (s : Session) : Prop :=
  exists kv, profile s = VObj kv /\ profile_ok kv /\ storage s = saveProfile (VObj kv).

(** A code unit of a string: 16 bits. *)
Definition code_unit (c : char) : Prop := (c < 65536)%N.

(** One more character in front of what [pstring] read. *)
Definition pcons (u : char) (r : option (jsstring * jsstring))
  : option (jsstring * jsstring) :=
  match r with Some (t, rest) => Some (u :: t, rest) | None => None end.

(** The text of [{ name, brand }] for two strings. *)
Definition body_text (s b : jsstring) : jsstring :=
  js "{" ++ dq ++ js "name" ++ dq ++ js ":" ++ quote s ++ js ","
  ++ dq ++ js "brand" ++ dq ++ js ":" ++ quote b ++ js "}".

(** *** Highlighting *)

(** The expression of a keyword: its characters, one after the other. *)
Definition literal (n : jsstring) : regex :=
  fold_left (fun r c => RSeq r (RChar c)) n REmpty.

(** The alternatives of the group; no keyword leaves the empty one. *)
Definition alternatives (needles : list jsstring) : list regex :=
  match needles with
  | [] => [REmpty]
  | _ => map literal needles
  end.

(** The expression [highlight] compiles. *)
Definition highlight_regex (needles : list jsstring) : regex :=
  RSeq (RSeq (RSeq REmpty RWordB) (RGroup (mk_alt (alternatives needles)))) RWordB.

(** The tokens between the two parentheses. *)
Fixpoint keyword_tokens (needles : list jsstring) : list token :=
  match needles with
  | [] => []
  | [n] => map TLit n
  | n :: r => map TLit n ++ TBar :: keyword_tokens r
  end.

(** The keyword is at index [i] of the text, letter case apart. *)
Fixpoint keyword_at (n text : jsstring) (i : nat) : bool :=
  match n with
  | [] => true
  | c :: n' =>
      match text !! i with
      | Some d => (canonicalize d =? canonicalize c)%N && keyword_at n' text (S i)
      | None => false
      end
  end.

(** The end of the first keyword of the list that stands at [i] and ends
    on a word boundary. *)
Fixpoint first_keyword (needles : list jsstring) (text : jsstring) (i : nat)
  : option nat :=
  match needles with
  | [] => None
  | n :: r =>
      if keyword_at n text i && isWordBoundary text (i + length n)
      then Some (i + length n)
      else first_keyword r text i
  end.

(** What the expression of [highlight] matches at [i]. *)
Definition marked_at (needles : list jsstring) (text : jsstring) (i : nat)
  : option nat :=
  if isWordBoundary text i then
    match needles with
    | [] => Some i
    | _ => first_keyword needles text i
    end
  else None.

(** The matches of a global search from [i] on: where each starts and ends. *)
Fixpoint matches_from (fuel : nat) (mt : nat -> option nat) (len i : nat)
  : list (nat * nat) :=
  match fuel with
  | O => []
  | S fuel' =>
      if bool_decide (len < i) then []
      else match mt i with
           | Some e => (i, e) :: matches_from fuel' mt len (if (e =? i) then S i else e)
           | None => matches_from fuel' mt len (S i)
           end
  end.

(** The text from [copied] on, with [f] applied to the matches. *)
Fixpoint splice (f : jsstring -> jsstring) (text : jsstring)
  (ms : list (nat * nat)) (copied : nat) : jsstring :=
  match ms with
  | [] => drop copied text
  | (o, e) :: r => slice text copied o ++ f (slice text o e) ++ splice f text r e
  end.

(** Matches that follow one another from [lo] on, inside the text. *)
Fixpoint chain (len lo : nat) (ms : list (nat * nat)) : Prop :=
  match ms with
  | [] => True
  | (o, e) :: r => lo <= o /\ o <= e /\ e <= len /\ chain len e r
  end.

(** The matches of [highlight] in a text. *)
Definition marks (needles : list jsstring) (text : jsstring) : list (nat * nat) :=
  matches_from (S (length text)) (marked_at needles text) (length text) 0.

(** *** The handler *)

(** A computation that leaves the cache alone and only adds calls. *)
Definition keeps_cache {A} (c : M A) : Prop :=
  forall w r w', c w = (r, w') ->
    cache w' = cache w /\ exists more, calls w' = calls w ++ more.

(** What a computation returns when it does not throw. *)
Definition returns {A} (c : M A) (P : A -> Prop) : Prop :=
  forall w a w', c w = (Some a, w') -> P a.

(** The world after the cache check that did not serve: the entry of the
    key is gone, if there was one beyond the limit. *)
Definition after_miss (k : jsstring) (w : World) : World :=
  match cache w !! k with
  | Some e =>
      if (TTL <? clock w - t e)%Z
      then {| cache := delete k (cache w); clock := clock w; calls := calls w |}
      else w
  | None => w
  end.

(** The cache check does not serve: no entry, or one beyond the limit, or
    one that holds a falsy value. *)
Definition missed (k : jsstring) (w : World) : Prop :=
  forall e, cache w !! k = Some e -> (clock w - t e <= TTL)%Z -> truthy (data e) = false.

(** The outcomes of the lookup: served from the cache; the query cannot be
    put in a URL; the lookup failed after the search call, with a throw or
    with nothing found; the record was found, cached and returned. *)
Inductive lookup_outcome (up : Upstream) (brand name : jsstring) (w : World)
  : option Response -> World -> Prop :=
| outcome_hit e :
    cache w !! cacheKey (query brand name) = Some e ->
    (clock w - t e <= TTL)%Z -> truthy (data e) = true ->
    lookup_outcome up brand name w (Some {| status := 200; body := data e |}) w
| outcome_unencodable :
    missed (cacheKey (query brand name)) w ->
    encodable (query brand name) = false ->
    lookup_outcome up brand name w None (after_miss (cacheKey (query brand name)) w)
| outcome_failed r w' more :
    missed (cacheKey (query brand name)) w ->
    encodable (query brand name) = true ->
    (r = None \/ r = Some (error 404 "not_found")) ->
    cache w' = cache (after_miss (cacheKey (query brand name)) w) ->
    calls w' = calls w ++ SearchCall (query brand name) :: more ->
    lookup_outcome up brand name w r w'
| outcome_stored out w' more now :
    missed (cacheKey (query brand name)) w ->
    encodable (query brand name) = true ->
    truthy out = true ->
    cache w' = <[cacheKey (query brand name) := {| data := out; t := now |}]>
                 (cache (after_miss (cacheKey (query brand name)) w)) ->
    calls w' = calls w ++ SearchCall (query brand name) :: more ->
    lookup_outcome up brand name w (Some {| status := 200; body := out |}) w'.

(** What a request does: it is turned down by a guard or by a throw of
    [trim], the world as it was, or it is a lookup. *)
Inductive request_outcome (USDA_KEY : option jsstring) (up : Upstream)
  (reqBody : val) (w : World) : Response -> World -> Prop :=
| request_rejected r : status r <> 200%Z -> request_outcome USDA_KEY up reqBody w r w
| request_lookup brand name r w' :
    ~ key_missing USDA_KEY ->
    trimmed (get_prop_opt reqBody (js "name")) = Some name -> name <> [] ->
    trimmed (get_prop_opt reqBody (js "brand")) = Some brand ->
    lookup_outcome up brand name w r w' ->
    request_outcome USDA_KEY up reqBody w
      (match r with Some x => x | None => error 500 "server_error" end) w'.



(** The world at another time. *)
Definition at_time (now : Z) (w : World) : World :=
  {| cache := cache w; clock := now; calls := calls w |}.

(** The world after the cache check that did not serve and the search
    call that followed. *)
Definition searched (up : Upstream) (q : jsstring) (w : World) : World :=
  snd (fetch up (SearchCall q) (after_miss (cacheKey q) w)).

(** A number without a fraction. *)
Definition is_integer (n : number) : bool :=
  match n with Dec _ e => (0 <=? e)%Z | _ => false end.

(** The record of the handler's answers: the seven fields, the source,
    one of the three match types, a serving that is there, whole
    numbers. *)
Definition nutrition_record (v : val) : Prop :=
  exists mt sd kcal cg sg rn,
    v = VObj [ (js "source", VStr (js "usda")); (js "matchType", VStr mt);
               (js "serving_desc", sd); (js "calories_kcal", VNum kcal);
               (js "carbs_g", VNum cg); (js "sugar_g", VNum sg);
               (js "raw_name", rn) ]
    /\ In mt [js "exact"; js "likely"; js "generic"]
    /\ truthy sd = true
    /\ is_integer kcal = true /\ is_integer cg = true /\ is_integer sg = true.

(** Every entry of the cache holds a record of the handler. *)
Definition cache_records (w : World) : Prop :=
  forall k e, cache w !! k = Some e -> nutrition_record (data e).

(** The upstream with every detail reply marked as successful. *)
Definition detail_marked_ok (up : Upstream) : Upstream := fun c =>
  match c with
  | SearchCall _ => up c
  | DetailCall _ =>
      (fst (up c), (fun r => {| ok := true; json := json r |}) <$> snd (up c))
  end.


(** *** Data of the examples *)

Definition milky : Product :=
  {| code := VStr (js "0001"); product_name := VStr (js "Milky bar");
     brands := VUndef; ingredients_text := VStr (js "milky");
     allergens_tags := Some [] |}.

(** An upstream that is down, one that finds nothing, and a process that
    has just started. *)
Definition offline : Upstream := fun _ => (0%Z, None).

Definition empty_upstream : Upstream := fun _ =>
  (25%Z, Some {| ok := true; json := Some (VObj [(js "foods", VArr [])]) |}).

Definition booted (now : Z) : World := {| cache := ∅; clock := now; calls := [] |}.

(** A search answer and a detail answer. *)
Definition oats_upstream : Upstream := fun c =>
  match c with
  | SearchCall _ =>
      (40%Z, Some {| ok := true;
                     json := Some (VObj [(js "foods",
                               VArr [VObj [(js "fdcId", VNum (num_of_Z 173904));
                                           (js "description", VStr (js "Oats"))]])]) |})
  | DetailCall _ =>
      (60%Z, Some {| ok := true;
                     json := Some (VObj [(js "description", VStr (js "Oats, raw"));
                               (js "foodNutrients",
                                VArr [VObj [(js "nutrient", VObj [(js "number", VStr (js "1008"))]);
                                            (js "amount", VNum (Dec 3795 (-1)))];
                                      VObj [(js "nutrient", VObj [(js "number", VStr (js "1005"))]);
                                            (js "amount", VNum (Dec 675 (-1)))]])]) |})
  end.

(** A search answer, and a detail endpoint that answers 404 with an error
    body. *)
Definition oats_without_detail : Upstream := fun c =>
  match c with
  | SearchCall _ => oats_upstream c
  | DetailCall _ =>
      (60%Z, Some {| ok := false;
                     json := Some (VObj [(js "error", VStr (js "Not Found"))]) |})
  end.

Definition oats_request : val := VObj [(js "name", VStr (js " Oats "))].


End Spec.

(** ** Tactics *)

(** Case analysis on the comparisons of code units in the goal; the cases
    that the hypotheses exclude are closed at once. *)
Ltac split_ranges :=
  repeat match goal with
         | |- context [(?a <=? ?b)%N] => destruct (N.leb_spec a b); try (exfalso; lia)
         | |- context [(?a =? ?b)%N] => destruct (N.eqb_spec a b); try (exfalso; lia)
         end.

(** * Properties *)

Import JS.

(** ** Numbers *)

Section NumberOrder.
Local Open Scope Q_scope.

Lemma ten_pow_pos (e : Z) : 0 < 10 ^ e.
Proof. apply Qpower_0_lt. reflexivity. Qed.

(** A decimal rescaled to a smaller exponent is the same rational. *)
Lemma num_value_rescale (m e e0 : Z) :
  (e0 <= e)%Z ->
  Spec.num_value m e == inject_Z (m * 10 ^ (e - e0)) * 10 ^ e0.
Proof.
  intros He. unfold Spec.num_value.
  rewrite inject_Z_mult, Zpower_Qpower by lia.
  rewrite <- Qmult_assoc, <- Qpower_plus by discriminate.
  replace (e - e0 + e0)%Z with e by lia. reflexivity.
Qed.

Lemma num_ltb_value (m1 e1 m2 e2 : Z) :
  num_ltb (Dec m1 e1) (Dec m2 e2) = true
  <-> Spec.num_value m1 e1 < Spec.num_value m2 e2.
Proof.
  simpl. set (e0 := Z.min e1 e2).
  rewrite (num_value_rescale m1 e1 e0), (num_value_rescale m2 e2 e0) by lia.
  rewrite Qmult_lt_r by apply ten_pow_pos.
  rewrite <- Zlt_Qlt. apply Z.ltb_lt.
Qed.

Lemma num_leb_value (m1 e1 m2 e2 : Z) :
  num_leb (Dec m1 e1) (Dec m2 e2) = true
  <-> Spec.num_value m1 e1 <= Spec.num_value m2 e2.
Proof.
  simpl. set (e0 := Z.min e1 e2).
  rewrite (num_value_rescale m1 e1 e0), (num_value_rescale m2 e2 e0) by lia.
  rewrite Qmult_le_r by apply ten_pow_pos.
  rewrite <- Zle_Qle. apply Z.leb_le.
Qed.

Lemma num_value_int (z : Z) : Spec.num_value z 0 == inject_Z z.
Proof. unfold Spec.num_value. simpl. ring. Qed.
End NumberOrder.

(** ** The badge *)

Section Badge.
Import Client.
Local Open Scope Q_scope.

Lemma classifyCarbs_avoid (m e : Z) :
  30 < Spec.num_value m e -> label (classifyCarbs (Dec m e)) = js "Avoid".
Proof.
  intros H. unfold classifyCarbs, num_of_Z.
  rewrite <- (num_value_int 30) in H. apply num_ltb_value in H.
  rewrite H. reflexivity.
Qed.

Lemma classifyCarbs_limit (m e : Z) :
  15 <= Spec.num_value m e <= 30 -> label (classifyCarbs (Dec m e)) = js "Limit".
Proof.
  intros [Hlo Hhi]. unfold classifyCarbs, num_of_Z.
  destruct (num_ltb (Dec 30 0) (Dec m e)) eqn:Hgt.
  - apply num_ltb_value in Hgt. rewrite num_value_int in Hgt.
    exfalso. exact (Qlt_not_le _ _ Hgt Hhi).
  - rewrite <- (num_value_int 15) in Hlo. apply num_leb_value in Hlo.
    rewrite Hlo. reflexivity.
Qed.

Lemma classifyCarbs_eat (m e : Z) :
  Spec.num_value m e < 15 -> label (classifyCarbs (Dec m e)) = js "Eat".
Proof.
  intros H. unfold classifyCarbs, num_of_Z.
  destruct (num_ltb (Dec 30 0) (Dec m e)) eqn:Hgt.
  - apply num_ltb_value in Hgt. rewrite num_value_int in Hgt.
    exfalso. apply (Qlt_irrefl 15).
    eapply Qlt_trans; [|exact H]. eapply Qlt_trans; [|exact Hgt]. reflexivity.
  - destruct (num_leb (Dec 15 0) (Dec m e)) eqn:Hge; [|reflexivity].
    apply num_leb_value in Hge. rewrite num_value_int in Hge.
    exfalso. exact (Qlt_not_le _ _ H Hge).
Qed.

(** C3 -- the badge of a carbohydrate amount: "Avoid" above 30, "Limit"
    from 15 to 30 inclusive, "Eat" below 15, for every finite amount; so
    10 gives "Eat", 15 and 30 give "Limit", 31 gives "Avoid". *)
Theorem classifyCarbs_thresholds :
  (forall m e : Z,
      (30 < Spec.num_value m e -> label (classifyCarbs (Dec m e)) = js "Avoid")
      /\ (15 <= Spec.num_value m e <= 30 ->
          label (classifyCarbs (Dec m e)) = js "Limit")
      /\ (Spec.num_value m e < 15 -> label (classifyCarbs (Dec m e)) = js "Eat"))
  /\ label (classifyCarbs (num_of_Z 10)) = js "Eat"
  /\ label (classifyCarbs (num_of_Z 15)) = js "Limit"
  /\ label (classifyCarbs (num_of_Z 30)) = js "Limit"
  /\ label (classifyCarbs (num_of_Z 31)) = js "Avoid".
Proof.
  split; [|repeat split; reflexivity].
  intros m e. split; [|split].
  - apply classifyCarbs_avoid.
  - apply classifyCarbs_limit.
  - apply classifyCarbs_eat.
Qed.

(** Not a number, the classifier falls through to "Eat". *)
Example classifyCarbs_NaN : label (classifyCarbs NaN) = js "Eat".
Proof. reflexivity. Qed.
End Badge.

(** ** Strings and values *)

Section Strings.

Lemma startsWith_refl (s : jsstring) : startsWith s s = true.
Proof. induction s as [|c s IH]; simpl; [done|]. by rewrite N.eqb_refl. Qed.

Lemma includes_refl (s : jsstring) : includes s s = true.
Proof. destruct s; simpl; [done|]. by rewrite N.eqb_refl, startsWith_refl. Qed.

Lemma str_eqb_eq (a b : jsstring) : str_eqb a b = true <-> a = b.
Proof. unfold str_eqb. by rewrite bool_decide_eq_true. Qed.

Lemma str_eqb_refl (a : jsstring) : str_eqb a a = true.
Proof. by apply str_eqb_eq. Qed.

Lemma str_eqb_neq (a b : jsstring) : str_eqb a b = false <-> a <> b.
Proof. unfold str_eqb. by rewrite bool_decide_eq_false. Qed.

(** A property read throws on [null] and [undefined] only. *)
Lemma get_prop_defined (o : val) (k k' : jsstring) :
  is_Some (get_prop o k) -> get_prop o k' = Some (get_prop_opt o k').
Proof.
  intros [v Hv]. unfold get_prop_opt.
  destruct o; simpl in *; try done; repeat case_match; done.
Qed.

End Strings.

(** ** Risk detection *)

Section Risk.
Import Client Spec.

Lemma selectedLabels_fold (profile : val) (l : list Allergen) (acc : list jsstring) :
  (forall k, get_prop profile k = Some (get_prop_opt profile k)) ->
  fold_left
    (fun out a =>
       o ← out; v ← get_prop profile (key a);
       Some (if truthy v then o ++ labels a else o))
    l (Some acc)
  = Some (acc ++ labels_of profile l).
Proof.
  intros Hdef. revert acc.
  induction l as [|a l IH]; intros acc; simpl.
  - by rewrite app_nil_r.
  - rewrite Hdef. simpl. destruct (truthy _); rewrite IH.
    + by rewrite <- app_assoc.
    + done.
Qed.

Lemma selectedLabels_object (profile : val) (k : jsstring) :
  is_Some (get_prop profile k) ->
  selectedLabels profile = Some (labels_of profile ALLERGENS).
Proof.
  intros Hk. unfold selectedLabels.
  rewrite selectedLabels_fold; [done|].
  intros k'. by eapply get_prop_defined.
Qed.

Lemma selectedLabels_null (profile : val) :
  get_prop profile (js "peanut") = None -> selectedLabels profile = None.
Proof.
  intros H. unfold selectedLabels, ALLERGENS. simpl fold_left at 1.
  cbn [key]. rewrite H. simpl.
  generalize (tail (tail ALLERGENS)). intros _.
  repeat (cbn [fold_left mbind option_bind]; try done).
Qed.

Lemma uniq_fold_elem (l seen : list jsstring) (x : jsstring) :
  In x (fold_left (fun seen x => if existsb (str_eqb x) seen then seen else seen ++ [x])
                  l seen)
  <-> In x seen \/ In x l.
Proof.
  revert seen. induction l as [|y l IH]; intros seen; simpl.
  - tauto.
  - rewrite IH. destruct (existsb (str_eqb y) seen) eqn:E.
    + apply existsb_exists in E as (z & Hz & Hyz). apply str_eqb_eq in Hyz. subst z.
      intuition (subst; auto).
    + rewrite in_app_iff. simpl. tauto.
Qed.

Lemma uniq_elem (l : list jsstring) (x : jsstring) : In x (uniq l) <-> In x l.
Proof. unfold uniq. rewrite uniq_fold_elem. simpl. tauto. Qed.

Lemma labels_of_elem (profile : val) (a : Allergen) (kw : jsstring) (l : list Allergen) :
  In a l -> truthy (get_prop_opt profile (key a)) = true -> In kw (labels a) ->
  In kw (labels_of profile l).
Proof.
  intros Ha Ht Hkw. unfold labels_of. apply in_flat_map.
  exists a. split; [done|]. by rewrite Ht.
Qed.

(** The text hits of [riskFor] are the selected labels that occur, in lower
    case, somewhere in the lower-cased ingredient text. *)
Lemma riskFor_text_hit (profile : val) (p : Product) (text lbl : jsstring) (r : Risk) :
  ingredients_text p = VStr text ->
  riskFor profile (Some p) = Some r ->
  In lbl (labels_of profile ALLERGENS) ->
  includes (toLowerCase text) (toLowerCase lbl) = true ->
  In lbl (hits r) /\ hasRisk r = true.
Proof.
  intros Hing Hr Hsel Hinc. unfold riskFor in Hr.
  destruct (selectedLabels profile) as [sel|] eqn:Hs; [|done].
  assert (Hsel' : sel = labels_of profile ALLERGENS).
  { destruct (get_prop profile (js "peanut")) eqn:Hp.
    - erewrite selectedLabels_object in Hs by (by eexists). congruence.
    - apply selectedLabels_null in Hp. congruence. }
  subst sel. simpl in Hr. rewrite Hing in Hr.
  assert (Hlow : lower_or_empty (VStr text) = Some (toLowerCase text)).
  { by destruct text. }
  rewrite Hlow in Hr. simpl in Hr. injection Hr as <-. simpl.
  match goal with |- In lbl (uniq ?l) /\ _ => assert (Hin : In lbl (uniq l)) end.
  { apply uniq_elem, in_app_iff. left.
    apply list_elem_of_In, list_elem_of_filter. split.
    - by rewrite Hinc.
    - by apply list_elem_of_In. }
  split; [done|].
  apply bool_decide_eq_true.
  match goal with H : In lbl ?u |- _ => destruct u; [done | simpl; lia] end.
Qed.

(** C5 -- for every category of the catalog and every keyword of it, a
    product whose ingredient text is that keyword in any letter case is
    reported as a risk, with the keyword among the hits, by every profile
    that selects the category. *)
Theorem riskFor_detects_keyword
  (a : Allergen) (kw text : jsstring) (profile v : val) (p : Product) :
  In a ALLERGENS -> In kw (labels a) ->
  toLowerCase text = toLowerCase kw ->
  get_prop profile (key a) = Some v -> truthy v = true ->
  ingredients_text p = VStr text ->
  exists r, riskFor profile (Some p) = Some r
            /\ hasRisk r = true /\ In kw (hits r).
Proof.
  intros Ha Hkw Hcase Hv Ht Hing.
  assert (Hsel : selectedLabels profile = Some (labels_of profile ALLERGENS)).
  { eapply selectedLabels_object. by eexists. }
  assert (Hr : is_Some (riskFor profile (Some p))).
  { unfold riskFor. rewrite Hsel. simpl. rewrite Hing.
    destruct text; simpl; by eexists. }
  destruct Hr as [r Hr]. exists r. split; [done|].
  assert (Hopt : get_prop_opt profile (key a) = v).
  { unfold get_prop_opt. by rewrite Hv. }
  destruct (riskFor_text_hit profile p text kw r Hing Hr) as [H1 H2].
  - eapply labels_of_elem; eauto. by rewrite Hopt.
  - rewrite Hcase. apply includes_refl.
  - done.
Qed.

End Risk.

(** ** The guards of the nutrition endpoint *)

Section Guards.
Import Spec.

Lemma dropWhile_all {A} (f : A -> bool) (l : list A) :
  Forall (fun x => f x = true) l -> dropWhile f l = [].
Proof. induction 1 as [|x l Hx _ IH]; simpl; [done|]. by rewrite Hx. Qed.

Lemma trim_blank (s : jsstring) :
  Forall (fun c => isWhiteSpace c = true) s -> trim s = [].
Proof.
  intros H. unfold trim, trimStart, trimEnd.
  by rewrite (dropWhile_all _ _ H).
Qed.

Lemma trimmed_blank (v : val) : blank v -> Server.trimmed v = Some [].
Proof.
  unfold Server.trimmed, or_else.
  intros [Hf | (s & -> & Hs)].
  - by rewrite Hf.
  - destruct (truthy (VStr s)); [|done]. by rewrite trim_blank.
Qed.

Lemma trimmed_string (v : val) :
  string_or_absent v -> exists s, Server.trimmed v = Some s.
Proof.
  unfold Server.trimmed, or_else.
  intros [Hf | (s & ->)].
  - rewrite Hf. by eexists.
  - destruct (truthy (VStr s)); by eexists.
Qed.

Lemma validated_blank (reqBody : val) (w : Server.World) :
  blank (get_prop_opt reqBody (js "name")) ->
  string_or_absent (get_prop_opt reqBody (js "brand")) ->
  Server.validated reqBody w = (Some None, w).
Proof.
  intros Hn Hb. unfold Server.validated, Server.bind, Server.lift.
  rewrite (trimmed_blank _ Hn). destruct (trimmed_string _ Hb) as [b ->].
  reflexivity.
Qed.

(** C1, as the code has it -- without the key every request gets 500
    "USDA_API_KEY missing in .env", whatever it holds; with the key, a
    request whose name is blank and whose brand is a string or absent
    gets 400 "name required".  Neither touches the cache or the upstream. *)
Theorem nutrition_guards
  (USDA_KEY : option jsstring) (up : Server.Upstream) (reqBody : val)
  (w : Server.World) :
  (key_missing USDA_KEY ->
   Server.nutrition USDA_KEY up reqBody w
   = (Server.error 500 "USDA_API_KEY missing in .env", w))
  /\ (~ key_missing USDA_KEY ->
      blank (get_prop_opt reqBody (js "name")) ->
      string_or_absent (get_prop_opt reqBody (js "brand")) ->
      Server.nutrition USDA_KEY up reqBody w
      = (Server.error 400 "name required", w)).
Proof.
  split.
  - by intros [-> | ->].
  - intros Hk Hn Hb. unfold Server.nutrition.
    destruct USDA_KEY as [[|c k]|]; [destruct Hk; by right| |destruct Hk; by left].
    unfold Server.bind at 1. by rewrite validated_blank.
Qed.

(** C1, as it is stated, fails: a blank name does not get 400 when the key
    is missing, the key is looked at first. *)
Lemma nutrition_blank_name_without_key :
  Server.nutrition None offline (VObj [(js "name", VStr (js "  "))]) (booted 0)
  = (Server.error 500 "USDA_API_KEY missing in .env", booted 0)
  /\ Server.status
       (fst (Server.nutrition None offline (VObj [(js "name", VStr (js "  "))])
               (booted 0)))
     <> 400%Z.
Proof. split; [reflexivity | vm_compute; discriminate]. Qed.

(** A brand that is not a string makes [trim] throw before the name is
    looked at: 500 "server_error", also for a blank name. *)
Example nutrition_blank_name_bad_brand :
  Server.nutrition (Some (js "key")) offline
    (VObj [(js "name", VStr []); (js "brand", VNum (num_of_Z 5))]) (booted 0)
  = (Server.error 500 "server_error", booted 0).
Proof. reflexivity. Qed.

Example nutrition_missing_name :
  Server.nutrition (Some (js "key")) offline (VObj []) (booted 0)
  = (Server.error 400 "name required", booted 0).
Proof. reflexivity. Qed.

End Guards.

(** ** The cache of the nutrition endpoint *)

Section Cache.
Import Spec Server.

Lemma keeps_ret {A} (a : A) : keeps_cache (ret a).
Proof. intros w r w' [= <- <-]. split; [done|]. exists []. by rewrite app_nil_r. Qed.

Lemma keeps_throw {A} : keeps_cache (@throw A).
Proof. intros w r w' [= <- <-]. split; [done|]. exists []. by rewrite app_nil_r. Qed.

Lemma keeps_lift {A} (o : option A) : keeps_cache (lift o).
Proof. destruct o; [apply keeps_ret | apply keeps_throw]. Qed.

Lemma keeps_fetch (up : Upstream) (c : call) : keeps_cache (fetch up c).
Proof.
  intros w r w'. unfold fetch. destruct (up c) as [dt rep].
  intros [= <- <-]. simpl. split; [done|]. by exists [c].
Qed.

Lemma keeps_bind {A B} (c : M A) (k : A -> M B) :
  keeps_cache c -> (forall a, keeps_cache (k a)) -> keeps_cache (bind c k).
Proof.
  intros Hc Hk w r w'. unfold bind.
  destruct (c w) as [[a|] w1] eqn:E; intros H.
  - destruct (Hc _ _ _ E) as [E1 [m1 E2]].
    destruct (Hk a _ _ _ H) as [E3 [m2 E4]].
    split; [congruence|]. exists (m1 ++ m2). rewrite E4, E2. by rewrite app_assoc.
  - injection H as <- <-. eauto.
Qed.

Lemma describe_keeps up brand first hits : keeps_cache (describe up brand first hits).
Proof.
  unfold describe.
  repeat first [ apply keeps_bind; [|intros ?] | apply keeps_lift | apply keeps_fetch | apply keeps_ret ].
Qed.

Lemma returns_ret {A} (a : A) (P : A -> Prop) : P a -> returns (ret a) P.
Proof. intros H w a' w' [= <- <-]. done. Qed.

Lemma returns_bind {A B} (c : M A) (k : A -> M B) (P : B -> Prop) :
  (forall a, returns (k a) P) -> returns (bind c k) P.
Proof.
  intros Hk w b w'. unfold bind. destruct (c w) as [[a|] w1]; [|done].
  apply Hk.
Qed.

Lemma describe_object up brand first hits :
  returns (describe up brand first hits) (fun out => truthy out = true).
Proof.
  unfold describe.
  repeat (apply returns_bind; intros ?). by apply returns_ret.
Qed.

(** The cache check. *)
Lemma get_hit (k : jsstring) (w : World) (e : entry) :
  cache w !! k = Some e -> (clock w - t e <= TTL)%Z ->
  get k w = (Some (data e), w).
Proof.
  intros He Hage. unfold get. rewrite He.
  destruct (Z.ltb_spec TTL (clock w - t e)); [lia | done].
Qed.

Lemma get_stale (k : jsstring) (w : World) (e : entry) :
  cache w !! k = Some e -> (TTL < clock w - t e)%Z ->
  get k w = (Some VNull,
             {| cache := delete k (cache w); clock := clock w; calls := calls w |}).
Proof.
  intros He Hage. unfold get. rewrite He.
  destruct (Z.ltb_spec TTL (clock w - t e)); [done | lia].
Qed.

Lemma get_absent (k : jsstring) (w : World) :
  cache w !! k = None -> get k w = (Some VNull, w).
Proof. intros He. unfold get. by rewrite He. Qed.

(** What is served from the cache is an entry not older than the limit. *)
Lemma get_fresh (k : jsstring) (w w' : World) (d : val) :
  get k w = (Some d, w') -> truthy d = true ->
  exists e, cache w !! k = Some e /\ d = data e /\ (clock w - t e <= TTL)%Z /\ w' = w.
Proof.
  unfold get. destruct (cache w !! k) as [e|] eqn:He.
  - destruct (Z.ltb_spec TTL (clock w - t e)); intros [= <- <-]; [done|].
    intros _. by exists e.
  - by intros [= <- <-].
Qed.

Lemma get_world (k : jsstring) (w : World) :
  exists d, get k w = (Some d, after_miss k w).
Proof.
  unfold get, after_miss. destruct (cache w !! k) as [e|]; [|by eexists].
  destruct (TTL <? clock w - t e)%Z; by eexists.
Qed.

Lemma cachedLookup_outcome up brand name w r w' :
  cachedLookup up brand name w = (r, w') -> lookup_outcome up brand name w r w'.
Proof.
  unfold cachedLookup. set (q := query brand name). set (k := cacheKey q).
  unfold bind at 1.
  destruct (get k w) as [[d|] w1] eqn:Hget.
  2:{ destruct (get_world k w) as [d Hd]. congruence. }
  destruct (truthy d) eqn:Hd.
  - intros [= <- <-].
    destruct (get_fresh _ _ _ _ Hget Hd) as (e & He & -> & Hage & ->).
    by apply outcome_hit with (e := e).
  - assert (Hw1 : w1 = after_miss k w).
    { destruct (get_world k w) as [d' Hd']. congruence. }
    subst w1. set (w1 := after_miss k w).
    assert (Hmiss : missed k w).
    { intros e He Hage. rewrite (get_hit _ _ _ He Hage) in Hget. congruence. }
    assert (Hc1 : calls w1 = calls w).
    { unfold w1, after_miss. destruct (cache w !! k) as [e|]; [|done].
      by destruct (TTL <? clock w - t e)%Z. }
    destruct (encodable q) eqn:Henc.
    2:{ intros [= <- <-]. by apply outcome_unencodable. }
    unfold bind at 1, ret at 1. unfold bind at 1, fetch at 1.
    destruct (up (SearchCall q)) as [dt rep].
    set (w2 := {| cache := cache w1; clock := (clock w1 + dt)%Z;
                  calls := calls w1 ++ [SearchCall q] |}).
    assert (Hfail : forall more w3, cache w3 = cache w2 ->
              calls w3 = calls w2 ++ more ->
              forall r0, r0 = None \/ r0 = Some (error 404 "not_found") ->
              lookup_outcome up brand name w r0 w3).
    { intros more w3 Hc Hl r0 Hr0. apply outcome_failed with (more := more); try done.
      rewrite Hl. simpl. rewrite Hc1. by rewrite <- app_assoc. }
    destruct rep as [s|].
    2:{ intros [= <- <-]. apply (Hfail []); auto. by rewrite app_nil_r. }
    unfold bind at 1. destruct (ok s).
    2:{ intros [= <- <-]. apply (Hfail []); auto. by rewrite app_nil_r. }
    unfold ret at 1. unfold bind at 1. destruct (json s) as [sj|].
    2:{ intros [= <- <-]. apply (Hfail []); auto. by rewrite app_nil_r. }
    unfold lift at 1, ret at 1. unfold bind at 1.
    destruct (get_prop sj (js "foods")) as [foods|].
    2:{ intros [= <- <-]. apply (Hfail []); auto. by rewrite app_nil_r. }
    unfold lift at 1, ret at 1.
    destruct (match foods with VArr l => l | _ => [] end) as [|first rest].
    { intros [= <- <-]. apply (Hfail []); auto. by rewrite app_nil_r. }
    unfold bind at 1.
    destruct (describe up brand first (first :: rest) w2) as [[out|] w3] eqn:Hdesc.
    2:{ intros [= <- <-].
        destruct (describe_keeps _ _ _ _ _ _ _ Hdesc) as [Hc [more Hl]].
        apply (Hfail more); auto. }
    unfold bind, set, ret. intros [= <- <-].
    destruct (describe_keeps _ _ _ _ _ _ _ Hdesc) as [Hc [more Hl]].
    apply outcome_stored with (more := more) (now := clock w3); try done.
    + by apply (describe_object _ _ _ _ _ _ _ Hdesc).
    + simpl. by rewrite Hc.
    + simpl. rewrite Hl. simpl. rewrite Hc1. by rewrite <- app_assoc.
Qed.


Lemma validated_cases (reqBody : val) (w : World) :
  exists x, validated reqBody w = (x, w)
    /\ forall brand name, x = Some (Some (brand, name)) ->
         trimmed (get_prop_opt reqBody (js "name")) = Some name /\ name <> []
         /\ trimmed (get_prop_opt reqBody (js "brand")) = Some brand.
Proof.
  unfold validated, bind, lift, ret, throw.
  destruct (trimmed (get_prop_opt reqBody (js "name"))) as [[|c n]|];
    destruct (trimmed (get_prop_opt reqBody (js "brand")));
    eexists; (split; [reflexivity|]); intros brand name [=]; by subst.
Qed.

Lemma validated_ok (reqBody : val) (w : World) (brand name : jsstring) :
  trimmed (get_prop_opt reqBody (js "name")) = Some name -> name <> [] ->
  trimmed (get_prop_opt reqBody (js "brand")) = Some brand ->
  validated reqBody w = (Some (Some (brand, name)), w).
Proof.
  intros H1 Hn H2. unfold validated, bind, lift, ret. rewrite H1, H2.
  by destruct name.
Qed.

(** With the key and a valid request the handler is the lookup, a throw
    turned into 500. *)
Lemma nutrition_lookup USDA_KEY up reqBody w brand name :
  ~ key_missing USDA_KEY ->
  trimmed (get_prop_opt reqBody (js "name")) = Some name -> name <> [] ->
  trimmed (get_prop_opt reqBody (js "brand")) = Some brand ->
  nutrition USDA_KEY up reqBody w
  = match cachedLookup up brand name w with
    | (Some r, w') => (r, w')
    | (None, w') => (error 500 "server_error", w')
    end.
Proof.
  intros Hk Hn Hne Hb. unfold nutrition.
  destruct USDA_KEY as [[|c k]|]; [destruct Hk; by right| |destruct Hk; by left].
  unfold bind at 1. by rewrite (validated_ok _ _ _ _ Hn Hne Hb).
Qed.

Lemma nutrition_outcome USDA_KEY up reqBody w :
  request_outcome USDA_KEY up reqBody w
    (fst (nutrition USDA_KEY up reqBody w)) (snd (nutrition USDA_KEY up reqBody w)).
Proof.
  unfold nutrition.
  destruct USDA_KEY as [[|c k]|] eqn:Hkey; try by (apply request_rejected).
  unfold bind. destruct (validated_cases reqBody w) as (x & -> & Hx).
  destruct x as [[[brand name]|]|]; try by (apply request_rejected).
  destruct (Hx brand name eq_refl) as (Hn & Hne & Hb).
  destruct (cachedLookup up brand name w) as [r w'] eqn:E.
  apply cachedLookup_outcome in E.
  assert (Hk : ~ key_missing (Some (c :: k))) by (intros [?|?]; done).
  pose proof (request_lookup (Some (c :: k)) up reqBody w _ _ _ _ Hk Hn Hne Hb E) as H.
  by destruct r.
Qed.

Lemma after_miss_lookup (k k' : jsstring) (w : World) (e : entry) :
  cache (after_miss k w) !! k' = Some e -> cache w !! k' = Some e.
Proof.
  unfold after_miss. destruct (cache w !! k) as [e0|]; [|done].
  destruct (TTL <? clock w - t e0)%Z; [|done]. simpl.
  rewrite lookup_delete_Some. tauto.
Qed.




Lemma calls_grew {A} (l more : list A) (x : A) : l ++ x :: more <> l.
Proof.
  intros H. apply (f_equal length) in H. rewrite length_app in H. simpl in H. lia.
Qed.




Example oats_first_answer :
  nutrition (Some (js "key")) oats_upstream oats_request (booted 0)
  = ({| status := 200;
        body := VObj [(js "source", VStr (js "usda"));
                      (js "matchType", VStr (js "generic"));
                      (js "serving_desc", VStr (js "100 g"));
                      (js "calories_kcal", VNum (Dec 380 0));
                      (js "carbs_g", VNum (Dec 68 0));
                      (js "sugar_g", VNum (Dec 0 0));
                      (js "raw_name", VStr (js "Oats, raw"))] |},
     {| cache := {[ js "USDA::oats" :=
                      {| data := VObj [(js "source", VStr (js "usda"));
                                       (js "matchType", VStr (js "generic"));
                                       (js "serving_desc", VStr (js "100 g"));
                                       (js "calories_kcal", VNum (Dec 380 0));
                                       (js "carbs_g", VNum (Dec 68 0));
                                       (js "sugar_g", VNum (Dec 0 0));
                                       (js "raw_name", VStr (js "Oats, raw"))];
                         t := 100 |} ]};
        clock := 100;
        calls := [SearchCall (js "Oats"); DetailCall (js "173904")] |}).
Proof. vm_compute. reflexivity. Qed.


End Cache.

(** ** Product search *)

Section Search.
Import Spec Client.

Lemma assoc_None {A} (k : jsstring) (l : list (jsstring * A)) :
  assoc k l = None <-> k ∉ map fst l.
Proof.
  induction l as [|[k' v] l IH]; simpl.
  - split; [intros _; apply not_elem_of_nil | done].
  - rewrite not_elem_of_cons. destruct (str_eqb k k') eqn:E.
    + apply str_eqb_eq in E. subst. split; [done|]. by intros [? _].
    + apply str_eqb_neq in E. rewrite IH. tauto.
Qed.

Lemma obj_set_fresh {A} (k : jsstring) (v : A) (l : list (jsstring * A)) :
  assoc k l = None -> obj_set l k v = l ++ [(k, v)].
Proof.
  induction l as [|[k' v'] l IH]; simpl; [done|].
  destruct (str_eqb k k'); [done|]. intros H. by rewrite IH.
Qed.

Lemma uniqueProdsMap_fold (l : list Product) (mp : list (jsstring * Product)) :
  Forall (fun p => name_key p <> []) l ->
  map snd
    (fold_left
       (fun mp p =>
          let name := name_key p in
          match name, assoc name mp with
          | _ :: _, None => obj_set mp name p
          | _, _ => mp
          end) l mp)
  = map snd mp ++ filter (fun x => name_key x ∉ map fst mp) (first_occurrences l).
Proof.
  intros Hl. revert mp. induction Hl as [|p l Hp _ IH]; intros mp.
  - simpl. by rewrite app_nil_r.
  - cbn [fold_left first_occurrences]. rewrite IH. clear IH.
    destruct (name_key p) as [|c n] eqn:Hn; [done|]. rewrite <- Hn in *.
    destruct (assoc (name_key p) mp) eqn:Ha.
    + assert (Hin : name_key p ∈ map fst mp).
      { destruct (decide (name_key p ∈ map fst mp)) as [|Hno]; [done|].
        apply assoc_None in Hno. congruence. }
      rewrite filter_cons_False by tauto.
      rewrite list_filter_filter. f_equal. apply list_filter_iff.
      intros x. split; [|tauto]. intros H. split; [done|]. congruence.
    + rewrite (obj_set_fresh _ _ _ Ha). apply assoc_None in Ha.
      rewrite filter_cons_True by done.
      rewrite !map_app. simpl. rewrite <- app_assoc. simpl. do 2 f_equal.
      rewrite list_filter_filter. apply list_filter_iff.
      intros x. rewrite not_elem_of_app, not_elem_of_cons.
      pose proof (not_elem_of_nil (name_key x)). tauto.
Qed.

Lemma filter_all {A} (P : A -> Prop) `{!forall x, Decision (P x)} (l : list A) :
  (forall x, P x) -> filter P l = l.
Proof.
  intros HP. induction l as [|x l IH]; [done|].
  rewrite filter_cons_True by done. by rewrite IH.
Qed.

Lemma uniqueProdsMap_first (l : list Product) :
  Forall (fun p => name_key p <> []) l ->
  map snd (uniqueProdsMap l) = first_occurrences l.
Proof.
  intros Hl. unfold uniqueProdsMap. rewrite uniqueProdsMap_fold by done. simpl.
  rewrite filter_all; [done|]. intros x. apply not_elem_of_nil.
Qed.

Lemma first_occurrences_sublist (l : list Product) : sublist (first_occurrences l) l.
Proof.
  induction l as [|p l IH]; simpl; [done|].
  apply sublist_skip. etrans; [apply sublist_filter|done].
Qed.

Lemma first_occurrences_NoDup (l : list Product) :
  NoDup (map name_key (first_occurrences l)).
Proof.
  induction l as [|p l IH]; simpl; [apply NoDup_nil_2|].
  apply NoDup_cons. split.
  - intros H. apply (list_elem_of_fmap name_key) in H as (x & Hx & Hin).
    apply list_elem_of_filter in Hin as [Hne _]. congruence.
  - eapply sublist_NoDup; [exact IH|]. apply (fmap_sublist name_key), sublist_filter.
Qed.

Lemma find_filter_other {A} (f g : A -> bool) (l : list A) :
  (forall x, f x = true -> g x = true) ->
  List.find f (List.filter g l) = List.find f l.
Proof.
  intros H. induction l as [|x l IH]; simpl; [done|].
  destruct (g x) eqn:Hg; simpl.
  - by rewrite IH.
  - destruct (f x) eqn:Hf; [|done]. apply H in Hf. congruence.
Qed.

Lemma stdpp_filter_bool {A} (P : A -> Prop) `{!forall x, Decision (P x)} (l : list A) :
  filter P l = List.filter (fun x => bool_decide (P x)) l.
Proof.
  induction l as [|x l IH]; [done|].
  rewrite filter_cons. cbn [List.filter]. rewrite <- IH.
  destruct (decide (P x)).
  - by rewrite bool_decide_eq_true_2.
  - by rewrite bool_decide_eq_false_2.
Qed.

(** The entry kept for a name is the first candidate of that name. *)
Lemma first_occurrences_find (l : list Product) (p : Product) :
  List.find (same_name p) (first_occurrences l) = List.find (same_name p) l.
Proof.
  induction l as [|a l IH]; simpl; [done|].
  destruct (same_name p a) eqn:E; [done|].
  rewrite <- IH. rewrite stdpp_filter_bool. apply find_filter_other.
  intros x Hx. unfold same_name in *.
  apply bool_decide_eq_true in Hx. apply bool_decide_eq_false in E.
  apply bool_decide_eq_true. congruence.
Qed.

(** What passes the filter has a name, a string that is not empty. *)
Lemma filterM_Forall {A} (f : A -> option bool) (l l' : list A) :
  filterM f l = Some l' -> Forall (fun x => f x = Some true) l' /\ sublist l' l.
Proof.
  revert l'. induction l as [|x l IH]; simpl; intros l'.
  - intros [= <-]. split; constructor.
  - destruct (f x) as [[|]|] eqn:Hx; destruct (filterM f l) as [r|]; try done;
      intros [= <-]; destruct (IH _ eq_refl) as [H1 H2].
    + split; [by constructor | by apply sublist_skip].
    + split; [done | by apply sublist_cons].
Qed.

Lemma name_matches_named (q : jsstring) (p : val) :
  name_matches q p = Some true ->
  exists c s, get_prop_opt p (js "product_name") = VStr (c :: s).
Proof.
  unfold name_matches, get_prop_opt.
  destruct (get_prop p (js "product_name")) as [name|]; [|done]. simpl.
  destruct (truthy name) eqn:Ht; [|done].
  destruct name; try done. simpl. destruct s; [done|]. by eexists _, _.
Qed.

Lemma toProduct_name (p : val) (x : Product) :
  toProduct p = Some x -> product_name x = get_prop_opt p (js "product_name").
Proof.
  unfold toProduct. intros H.
  repeat (apply bind_Some in H as (? & _ & H)). by injection H as <-.
Qed.

Lemma candidates_named (q : jsstring) (j : val) (cs : list Product) :
  candidates q j = Some cs -> Forall (fun p => name_key p <> []) cs.
Proof.
  unfold candidates. intros H.
  apply bind_Some in H as (products & _ & H).
  apply bind_Some in H as (arr & _ & H).
  apply bind_Some in H as (filtered & Hf & H).
  apply filterM_Forall in Hf as [Hf _].
  apply mapM_Some in H. induction H as [|p x ps xs Hpx _ IH]; [constructor|].
  apply Forall_cons in Hf as [Hp Hf]. constructor; [|by apply IH].
  apply name_matches_named in Hp as (c & s & Hp).
  apply toProduct_name in Hpx. unfold name_key. by rewrite Hpx, Hp.
Qed.

Lemma search_candidates (q : jsstring) (j : val) (cs : list Product) :
  trim q <> [] -> encodable q = true -> candidates q j = Some cs ->
  search q (Some j) = take 5 (first_occurrences cs).
Proof.
  intros Hq He Hc. unfold search. destruct (trim q) as [|c0 q0]; [done|].
  rewrite He. simpl. rewrite Hc.
  by rewrite (uniqueProdsMap_first _ (candidates_named _ _ _ Hc)).
Qed.

Lemma search_cases (q : jsstring) (fetched : option val) :
  search q fetched = []
  \/ exists j cs, trim q <> [] /\ encodable q = true /\ fetched = Some j
                  /\ candidates q j = Some cs.
Proof.
  unfold search. destruct (trim q) as [|c0 q0] eqn:Hq; [by left|].
  destruct (encodable q) eqn:He; [|by left].
  destruct fetched as [j|]; [|by left]. simpl.
  destruct (candidates q j) as [cs|] eqn:Hc; [|by left].
  right. exists j, cs. done.
Qed.

(** C4 -- whatever the catalog answers, the result list has at most five
    entries and no two of the same name; when the answer can be read, it is
    the first five of the candidates that passed the filter, each name kept
    once, at its first occurrence, in the order of the answer. *)
Theorem search_dedupes_first_five (q : jsstring) (fetched : option val) :
  length (search q fetched) <= 5
  /\ NoDup (map name_key (search q fetched))
  /\ forall j cs,
      trim q <> [] -> encodable q = true ->
      fetched = Some j -> candidates q j = Some cs ->
      search q fetched = take 5 (first_occurrences cs)
      /\ sublist (search q fetched) cs
      /\ forall p, List.find (same_name p) (first_occurrences cs)
                   = List.find (same_name p) cs.
Proof.
  split; [|split].
  - destruct (search_cases q fetched) as [-> | (j & cs & Hq & He & -> & Hc)];
      [simpl; lia|].
    rewrite (search_candidates _ _ _ Hq He Hc). rewrite length_take. lia.
  - destruct (search_cases q fetched) as [-> | (j & cs & Hq & He & -> & Hc)].
    { apply NoDup_nil_2. }
    rewrite (search_candidates _ _ _ Hq He Hc).
    eapply sublist_NoDup; [apply (first_occurrences_NoDup cs)|].
    apply (fmap_sublist name_key), sublist_take.
  - intros j cs Hq He -> Hc. rewrite (search_candidates _ _ _ Hq He Hc).
    split; [done|]. split.
    + etrans; [apply sublist_take | apply first_occurrences_sublist].
    + intros p. apply first_occurrences_find.
Qed.

(** Two results of the same name, and a third that does not hold the
    query: one entry. *)
Example search_collapses_names :
  map (fun p => (code p, product_name p))
    (search (js "nutella")
       (Some (VObj [(js "products",
          VArr [VObj [(js "code", VStr (js "301")); (js "product_name", VStr (js "Nutella"))];
                VObj [(js "code", VStr (js "302")); (js "product_name", VStr (js "Nutella"))];
                VObj [(js "code", VStr (js "303")); (js "product_name", VStr (js "Hazelnut spread"))]])])))
  = [(VStr (js "301"), VStr (js "Nutella"))].
Proof. vm_compute. reflexivity. Qed.

End Search.

(** ** The profile store *)

Section Json.
Import Spec Client.

Lemma dropWhile_length {A} (f : A -> bool) (l : list A) :
  length (dropWhile f l) <= length l.
Proof. induction l as [|x l IH]; simpl; [done|]. destruct (f x); simpl; lia. Qed.

Lemma skip_ws_length (s : jsstring) : length (skip_ws s) <= length s.
Proof. apply dropWhile_length. Qed.

Lemma pstring_length (s t rest : jsstring) :
  pstring s = Some (t, rest) -> length rest < length s.
Proof.
  revert t rest. induction s as [s IH] using (induction_ltof1 _ (@length _)).
  unfold ltof in IH. intros t rest. destruct s as [|c r]; [done|]. simpl.
  destruct (c =? 34)%N; [intros [= <- <-]; lia|].
  destruct (c =? 92)%N.
  - destruct r as [|e r1]; [done|].
    destruct (e =? 117)%N.
    + destruct r1 as [|h1 [|h2 [|h3 [|h4 r2]]]]; try done.
      destruct (hex4 h1 h2 h3 h4); [|done].
      destruct (pstring r2) as [[t' rest']|] eqn:E; [|done].
      intros [= <- <-]. apply IH in E; simpl in *; lia.
    + destruct (simple_escape e); [|done].
      destruct (pstring r1) as [[t' rest']|] eqn:E; [|done].
      intros [= <- <-]. apply IH in E; simpl in *; lia.
  - destruct (c <? 32)%N; [done|].
    destruct (pstring r) as [[t' rest']|] eqn:E; [|done].
    intros [= <- <-]. apply IH in E; simpl in *; lia.
Qed.

Lemma scan_digits_length (s ds rest : jsstring) :
  scan_digits s = (ds, rest) -> length rest <= length s.
Proof.
  revert ds rest. induction s as [|c r IH]; simpl; intros ds rest.
  - intros [= <- <-]. done.
  - destruct (isDigit c).
    + destruct (scan_digits r) as [ds' rest'] eqn:E. intros [= <- <-].
      specialize (IH _ _ eq_refl). lia.
    + intros [= <- <-]. simpl. lia.
Qed.

Lemma scan_exponent_length (s rest : jsstring) (ex : Z) :
  scan_exponent s = Some (ex, rest) -> length rest <= length s.
Proof.
  unfold scan_exponent. destruct s as [|c r]; [by intros [= <- <-]|].
  destruct ((c =? 101)%N || (c =? 69)%N); [|by intros [= <- <-]].
  destruct (match r with
            | [] => (false, r)
            | sg :: r' => if (sg =? 45)%N then (true, r')
                          else if (sg =? 43)%N then (false, r') else (false, r)
            end) as [neg r1] eqn:E1.
  assert (length r1 <= length r).
  { destruct r as [|sg r']; [injection E1 as <- <-; done|].
    destruct (sg =? 45)%N; [injection E1 as <- <-; simpl; lia|].
    destruct (sg =? 43)%N; injection E1 as <- <-; simpl; lia. }
  destruct (scan_digits r1) as [ds rest'] eqn:E2.
  apply scan_digits_length in E2.
  destruct ds; [done|]. intros [= <- <-]. simpl. lia.
Qed.

Lemma pnumber_length (s rest : jsstring) (n : number) :
  pnumber s = Some (n, rest) -> length rest < length s.
Proof.
  unfold pnumber.
  destruct (match s with
            | [] => (false, s)
            | c :: r => if (c =? 45)%N then (true, r) else (false, s)
            end) as [neg s1] eqn:E1.
  assert (H1 : length s1 <= length s).
  { destruct s as [|c r]; [injection E1 as <- <-; done|].
    destruct (c =? 45)%N; injection E1 as <- <-; simpl; lia. }
  destruct s1 as [|c r]; [done|].
  assert (Hint : forall ip r1,
    (if (c =? 48)%N then Some ([c], r)
     else if isDigit c then Some (scan_digits (c :: r)) else None) = Some (ip, r1) ->
    length r1 < length (c :: r)).
  { intros ip r1. destruct (c =? 48)%N; [intros [= <- <-]; simpl; lia|].
    destruct (isDigit c) eqn:Hd; [|done]. simpl. rewrite Hd.
    destruct (scan_digits r) as [ds rest'] eqn:E. intros [= <- <-].
    apply scan_digits_length in E. simpl. lia. }
  destruct (if (c =? 48)%N then Some ([c], r)
            else if isDigit c then Some (scan_digits (c :: r)) else None)
    as [[ip r1]|]; [|done].
  specialize (Hint _ _ eq_refl).
  assert (Hfrac : forall fp r2,
    match r1 with
    | [] => Some ([], r1)
    | c0 :: r0 =>
        if (c0 =? 46)%N
        then match scan_digits r0 with
             | ([], _) => None
             | (fp, r2) => Some (fp, r2)
             end
        else Some ([], r1)
    end = Some (fp, r2) -> length r2 <= length r1).
  { intros fp r2. destruct r1 as [|c0 r0]; [by intros [= <- <-]|].
    destruct (c0 =? 46)%N; [|by intros [= <- <-]].
    destruct (scan_digits r0) as [ds rest'] eqn:E. apply scan_digits_length in E.
    destruct ds; [done|]. intros [= <- <-]. simpl. lia. }
  destruct (match r1 with
            | [] => Some ([], r1)
            | c0 :: r0 =>
                if (c0 =? 46)%N
                then match scan_digits r0 with
                     | ([], _) => None
                     | (fp, r2) => Some (fp, r2)
                     end
                else Some ([], r1)
            end) as [[fp r2]|]; [|done].
  specialize (Hfrac _ _ eq_refl).
  destruct (scan_exponent r2) as [[ex r3]|] eqn:E3; [|done].
  apply scan_exponent_length in E3. intros [= <- <-]. simpl in *. lia.
Qed.


Lemma drop_shorter {A} (n : nat) (l : list A) :
  0 < n -> l <> [] -> length (drop n l) < length l.
Proof. intros Hn Hl. rewrite length_drop. destruct l; [done|]. simpl. lia. Qed.

(** With enough fuel the parser never runs out of it, and what it reads
    it takes off the text. *)
Lemma parser_fuel (fuel : nat) :
  (forall s, 2 * length s < fuel ->
     pvalue fuel s <> PFuel
     /\ forall v rest, pvalue fuel s = POk v rest -> length rest < length s)
  /\ (forall acc s, 2 * length s < fuel ->
        pmembers fuel acc s <> PFuel
        /\ forall v rest, pmembers fuel acc s = POk v rest -> length rest < length s)
  /\ (forall acc s, 2 * length s + 1 < fuel ->
        pelements fuel acc s <> PFuel
        /\ forall v rest, pelements fuel acc s = POk v rest -> length rest < length s).
Proof.
  induction fuel as [|f (IHv & IHm & IHe)].
  { repeat split; intros; lia. }
  split; [|split].
  - intros s Hs. cbn [pvalue].
    pose proof (skip_ws_length s) as Hws.
    destruct (skip_ws s) as [|c r]; [split; [done|done]|]. simpl in Hws.
    destruct (c =? 123)%N.
    { pose proof (skip_ws_length r) as Hws'.
      destruct (skip_ws r) as [|d r']; [split; done|]. simpl in Hws'.
      destruct (d =? 125)%N.
      - split; [done|]. intros v rest [= <- <-]. lia.
      - destruct (IHm [] r ltac:(lia)) as [H1 H2]. split; [done|].
        intros v rest E. apply H2 in E. lia. }
    destruct (c =? 91)%N.
    { pose proof (skip_ws_length r) as Hws'.
      destruct (skip_ws r) as [|d r']; [split; done|]. simpl in Hws'.
      destruct (d =? 93)%N.
      - split; [done|]. intros v rest [= <- <-]. lia.
      - destruct (IHe [] r ltac:(lia)) as [H1 H2]. split; [done|].
        intros v rest E. apply H2 in E. lia. }
    destruct (c =? 34)%N.
    { destruct (pstring r) as [[t rest']|] eqn:E; [|split; done].
      apply pstring_length in E. split; [done|]. intros v rest [= <- <-]. lia. }
    assert (Hd : forall n, 0 < n -> length (drop n (c :: r)) < length s).
    { intros n Hn. pose proof (drop_shorter n (c :: r) Hn ltac:(done)). simpl in *. lia. }
    destruct (startsWith (c :: r) (js "true")).
    { split; [done|]. intros v rest [= <- <-]. exact (Hd 4 ltac:(lia)). }
    destruct (startsWith (c :: r) (js "false")).
    { split; [done|]. intros v rest [= <- <-]. exact (Hd 5 ltac:(lia)). }
    destruct (startsWith (c :: r) (js "null")).
    { split; [done|]. intros v rest [= <- <-]. exact (Hd 4 ltac:(lia)). }
    destruct (pnumber (c :: r)) as [[n rest']|] eqn:E; [|split; done].
    apply pnumber_length in E. split; [done|]. intros v rest [= <- <-]. simpl in *. lia.
  - intros acc s Hs. cbn [pmembers].
    pose proof (skip_ws_length s) as Hws.
    destruct (skip_ws s) as [|q r]; [split; done|]. simpl in Hws.
    destruct (q =? 34)%N; [|split; done].
    destruct (pstring r) as [[k r1]|] eqn:E; [|split; done].
    apply pstring_length in E.
    pose proof (skip_ws_length r1) as Hws1.
    destruct (skip_ws r1) as [|c r2]; [split; done|]. simpl in Hws1.
    destruct (c =? 58)%N; [|split; done].
    destruct (IHv r2 ltac:(lia)) as [H1 H2].
    destruct (pvalue f r2) as [v r3| |] eqn:Ev; [|split; done|done].
    specialize (H2 _ _ eq_refl).
    pose proof (skip_ws_length r3) as Hws3.
    destruct (skip_ws r3) as [|d r4]; [split; done|]. simpl in Hws3.
    destruct (d =? 44)%N.
    { destruct (IHm (obj_set acc k v) r4 ltac:(lia)) as [H3 H4]. split; [done|].
      intros v' rest E'. apply H4 in E'. lia. }
    destruct (d =? 125)%N; [|split; done].
    split; [done|]. intros v' rest [= <- <-]. lia.
  - intros acc s Hs. cbn [pelements].
    destruct (IHv s ltac:(lia)) as [H1 H2].
    destruct (pvalue f s) as [v r| |] eqn:Ev; [|split; done|done].
    specialize (H2 _ _ eq_refl).
    pose proof (skip_ws_length r) as Hws.
    destruct (skip_ws r) as [|d r']; [split; done|]. simpl in Hws.
    destruct (d =? 44)%N.
    { destruct (IHe (acc ++ [v]) r' ltac:(lia)) as [H3 H4]. split; [done|].
      intros v' rest E'. apply H4 in E'. lia. }
    destruct (d =? 93)%N; [|split; done].
    split; [done|]. intros v' rest [= <- <-]. lia.
Qed.

(** [JSON_parse] gives [None] for a text that is not JSON only, never for
    want of fuel. *)
Lemma JSON_parse_fuel (s : jsstring) : pvalue (S (2 * length s)) s <> PFuel.
Proof. apply parser_fuel. lia. Qed.


(** *** A profile read back *)

Lemma quote_chars_plain (k : jsstring) :
  forallb plain_char k = true -> quote_chars k = k.
Proof.
  induction k as [|c k IH]; simpl; [done|].
  intros H. apply andb_prop in H as [Hc Hk]. rewrite (IH Hk). clear IH Hk.
  unfold plain_char in Hc.
  repeat match type of Hc with (_ && _) = true => apply andb_prop in Hc as [Hc ?] end.
  apply N.leb_le in Hc.
  repeat match goal with H : negb _ = true |- _ => apply negb_true_iff in H end.
  repeat match goal with H : (_ =? _)%N = false |- _ => apply N.eqb_neq in H end.
  repeat match goal with
         | |- context [(c =? ?n)%N] => destruct (N.eqb_spec c n); [lia|]
         | |- context [(c <? ?n)%N] => destruct (N.ltb_spec c n); [lia|]
         end.
  by repeat match goal with H : _ = false |- _ => rewrite H end.
Qed.

Lemma pstring_plain (k rest : jsstring) :
  forallb plain_char k = true -> pstring (k ++ 34%N :: rest) = Some (k, rest).
Proof.
  induction k as [|c k IH]; simpl; [done|].
  intros H. apply andb_prop in H as [Hc Hk]. rewrite (IH Hk). clear IH Hk.
  unfold plain_char in Hc.
  repeat match type of Hc with (_ && _) = true => apply andb_prop in Hc as [Hc ?] end.
  apply N.leb_le in Hc.
  repeat match goal with H : negb _ = true |- _ => apply negb_true_iff in H end.
  repeat match goal with H : (_ =? _)%N = false |- _ => rewrite H end.
  destruct (N.ltb_spec c 32); [lia|done].
Qed.

Lemma pvalue_flag (f : nat) (b : bool) (rest : jsstring) :
  pvalue (S f) (flag_text (VBool b) ++ rest) = POk (VBool b) rest.
Proof. destruct b; reflexivity. Qed.

Lemma members_text_one (e : jsstring * val) : members_text [e] = member_text e.
Proof. reflexivity. Qed.

Lemma members_text_more (e e' : jsstring * val) (kv : list (jsstring * val)) :
  members_text (e :: e' :: kv) = member_text e ++ js "," ++ members_text (e' :: kv).
Proof. reflexivity. Qed.

Lemma pmembers_member (f : nat) (acc : list (jsstring * val)) (k : jsstring)
  (b : bool) (more : jsstring) :
  forallb plain_char k = true ->
  pmembers (S (S f)) acc (member_text (k, VBool b) ++ more)
  = match skip_ws more with
    | d :: r4 =>
        if (d =? 44)%N then pmembers (S f) (obj_set acc k (VBool b)) r4
        else if (d =? 125)%N then POk (VObj (obj_set acc k (VBool b))) r4
        else PErr
    | [] => PErr
    end.
Proof.
  intros Hk. unfold member_text. cbn [fst snd]. rewrite <- !app_assoc.
  remember (S f) as f1 eqn:Hf1. cbn [pmembers].
  change (skip_ws (dq ++ ?x)) with (dq ++ x).
  cbn [dq app]. change (34 =? 34)%N with true. cbv iota.
  rewrite (pstring_plain _ _ Hk).
  change (skip_ws (js ":" ++ ?x)) with (js ":" ++ x).
  change (js ":" ++ ?x) with (58%N :: x). change (58 =? 58)%N with true. cbv iota.
  subst f1. by rewrite pvalue_flag.
Qed.

Lemma pmembers_flags (kv : list (jsstring * val)) :
  forall (acc : list (jsstring * val)) (rest : jsstring) (fuel : nat),
    kv <> [] ->
    Forall (fun e => forallb plain_char (fst e) = true /\ is_flag (snd e)) kv ->
    length kv < fuel ->
    pmembers fuel acc (members_text kv ++ js "}" ++ rest)
    = POk (VObj (fold_left set_member kv acc)) rest.
Proof.
  induction kv as [|[k v] kv IH]; [done|].
  intros acc rest fuel _ Hkv Hfuel.
  apply Forall_cons in Hkv as [[Hk [b Hb]] Hkv]. simpl in Hk, Hb. subst v.
  destruct fuel as [|[|f]]; [simpl in Hfuel; lia..|].
  destruct kv as [|e kv].
  - rewrite members_text_one, (pmembers_member _ _ _ _ _ Hk). reflexivity.
  - rewrite members_text_more, <- !app_assoc, (pmembers_member _ _ _ _ _ Hk).
    change (js "," ++ ?x) with (44%N :: x).
    change (skip_ws (44%N :: ?x)) with (44%N :: x). change (44 =? 44)%N with true.
    cbv iota.
    change (fold_left set_member ((k, VBool b) :: e :: kv) acc)
      with (fold_left set_member (e :: kv) (obj_set acc k (VBool b))).
    apply IH; [done|done|simpl in *; lia].
Qed.

Lemma fold_set_member_fresh (kv acc : list (jsstring * val)) :
  NoDup (map fst (acc ++ kv)) -> fold_left set_member kv acc = acc ++ kv.
Proof.
  revert acc. induction kv as [|[k v] kv IH]; intros acc Hnd; simpl.
  - by rewrite app_nil_r.
  - unfold set_member at 2. simpl.
    assert (Hk : assoc k acc = None).
    { apply assoc_None. rewrite map_app in Hnd. simpl in Hnd.
      apply NoDup_app in Hnd as (_ & Hd & _). intros Hin.
      apply (Hd _ Hin). by left. }
    rewrite (obj_set_fresh _ _ _ Hk), IH; rewrite <- app_assoc; done.
Qed.

Lemma catalog_keys_plain (k : jsstring) :
  In k (map key ALLERGENS) -> forallb plain_char k = true.
Proof.
  revert k. apply forallb_forall. vm_compute. reflexivity.
Qed.

Lemma profile_ok_plain (kv : list (jsstring * val)) :
  profile_ok kv ->
  Forall (fun e => forallb plain_char (fst e) = true /\ is_flag (snd e)) kv.
Proof.
  intros [_ H]. eapply Forall_impl; [exact H|].
  intros e [Hk Hf]. split; [by apply catalog_keys_plain | done].
Qed.

(** What [JSON.stringify] writes for a profile. *)
Lemma profile_text (kv : list (jsstring * val)) :
  Forall (fun e => forallb plain_char (fst e) = true /\ is_flag (snd e)) kv ->
  JSON_stringify (VObj kv) = Some (js "{" ++ members_text kv ++ js "}").
Proof.
  intros H. cbn [JSON_stringify]. do 3 f_equal. unfold members_text. f_equal.
  induction H as [|[k v] kv [Hk [b Hb]] _ IH]; [done|].
  simpl in Hk, Hb. subst v. cbn [flat_map map]. rewrite IH. clear IH.
  unfold quote. rewrite (quote_chars_plain _ Hk).
  destruct b; cbn [JSON_stringify app fst snd flag_text]; by rewrite <- !app_assoc.
Qed.

Lemma members_text_length (kv : list (jsstring * val)) :
  length kv <= length (members_text kv).
Proof.
  induction kv as [|e [|e' kv] IH]; [done|simpl; lia|].
  rewrite members_text_more, !length_app. simpl in *. lia.
Qed.

(** The text of a profile parses back to the profile. *)
Lemma profile_parse (kv : list (jsstring * val)) :
  profile_ok kv -> JSON_parse (js "{" ++ members_text kv ++ js "}") = Some (VObj kv).
Proof.
  intros Hok. pose proof (profile_ok_plain _ Hok) as Hplain.
  destruct Hok as [Hnd _]. unfold JSON_parse.
  destruct kv as [|e kv]; [reflexivity|].
  set (txt := js "{" ++ members_text (e :: kv) ++ js "}").
  assert (Hlen : length (e :: kv) < 2 * length txt).
  { unfold txt. rewrite !length_app. pose proof (members_text_length (e :: kv)).
    simpl in *. lia. }
  assert (Hhead : exists r, members_text (e :: kv) = 34%N :: r).
  { destruct kv; [rewrite members_text_one|rewrite members_text_more];
      eexists; reflexivity. }
  destruct Hhead as [r Hr].
  assert (E : pvalue (S (2 * length txt)) txt
              = pmembers (2 * length txt) [] (members_text (e :: kv) ++ js "}" ++ [])).
  { unfold txt. rewrite Hr. remember (2 * length _) as n. reflexivity. }
  assert (Hne : e :: kv <> []) by done.
  rewrite E, (pmembers_flags _ _ _ _ Hne Hplain Hlen).
  rewrite fold_set_member_fresh by done. reflexivity.
Qed.

Lemma loadProfile_text (s : jsstring) :
  s <> [] ->
  loadProfile (Some s) = match JSON_parse s with Some v => v | None => VObj [] end.
Proof. by destruct s. Qed.

(** The profile that was saved is the profile that is loaded. *)
Lemma load_saved (kv : list (jsstring * val)) :
  profile_ok kv -> loadProfile (saveProfile (VObj kv)) = VObj kv.
Proof.
  intros Hok. unfold saveProfile.
  rewrite (profile_text _ (profile_ok_plain _ Hok)).
  change (default _ (Some ?x)) with x.
  rewrite loadProfile_text by done. by rewrite profile_parse.
Qed.

End Json.

Section Profile.
Import Spec Client.

Lemma renders_object (kv : list (jsstring * val)) : renders (VObj kv) = true.
Proof.
  unfold renders. erewrite (selectedLabels_object _ []); [done|]. by eexists.
Qed.

Lemma commit_object (st : Storage) (kv : list (jsstring * val)) :
  commit st (VObj kv) = {| storage := saveProfile (VObj kv); profile := VObj kv |}.
Proof. unfold commit. by rewrite renders_object. Qed.

Lemma obj_set_keys {A} (kv : list (jsstring * A)) (k : jsstring) (v : A) :
  map fst (obj_set kv k v)
  = match assoc k kv with Some _ => map fst kv | None => map fst kv ++ [k] end.
Proof.
  induction kv as [|[k' v'] kv IH]; simpl; [done|].
  destruct (str_eqb k k') eqn:E.
  - apply str_eqb_eq in E. by subst.
  - simpl. rewrite IH. by destruct (assoc k kv).
Qed.

Lemma obj_set_Forall {A} (P : jsstring * A -> Prop) (kv : list (jsstring * A))
  (k : jsstring) (v : A) :
  Forall P kv -> P (k, v) -> Forall P (obj_set kv k v).
Proof.
  intros H Hk. induction H as [|[k' v'] kv Hx Hkv IH]; simpl.
  - by constructor.
  - destruct (str_eqb k k'); constructor; done.
Qed.

Lemma obj_set_ok (kv : list (jsstring * val)) (k : jsstring) (b : bool) :
  profile_ok kv -> In k (map key ALLERGENS) -> profile_ok (obj_set kv k (VBool b)).
Proof.
  intros [Hnd Hall] Hk. split.
  - rewrite obj_set_keys. destruct (assoc k kv) eqn:E; [done|].
    apply assoc_None in E. apply NoDup_app. split; [done|]. split.
    + intros x Hx Hx'. apply list_elem_of_singleton in Hx'. by subst.
    + apply NoDup_singleton.
  - apply obj_set_Forall; [done|]. split; [done|]. by exists b.
Qed.

Lemma setAll_ok (b : bool) :
  exists kv, setAll b = VObj kv /\ profile_ok kv.
Proof.
  unfold setAll. eexists. split; [reflexivity|].
  assert (H : forall l acc, (forall a, In a l -> In (key a) (map key ALLERGENS)) ->
            profile_ok acc ->
            profile_ok (fold_left (fun o a => obj_set o (key a) (VBool b)) l acc)).
  { induction l as [|a l IH]; intros acc Hl Hacc; simpl; [done|].
    apply IH; [intros a' Ha'; apply Hl; by right|].
    apply obj_set_ok; [done|]. apply Hl. by left. }
  apply H.
  - intros a Ha. by apply in_map.
  - split; constructor.
Qed.

Lemma fresh_ok : session_ok fresh.
Proof.
  exists []. split; [reflexivity|]. split; [split; constructor|reflexivity].
Qed.

Lemma step_ok (s s' : Session) : session_ok s -> step s s' -> session_ok s'.
Proof.
  intros (kv & Hp & Hok & Hst) Hstep.
  destruct Hstep as [s|s a checked _ Ha|s _|s _].
  - rewrite Hst, (load_saved _ Hok), commit_object. by exists kv.
  - rewrite Hp. unfold toggle. cbn [spread]. rewrite commit_object.
    eexists. split; [reflexivity|]. split; [|reflexivity].
    apply obj_set_ok; [done|]. by apply in_map.
  - destruct (setAll_ok true) as (kv' & E & Hok'). unfold selectAllAllergens.
    rewrite E, commit_object. by exists kv'.
  - destruct (setAll_ok false) as (kv' & E & Hok'). unfold deselectAllAllergens.
    rewrite E, commit_object. by exists kv'.
Qed.

Lemma reachable_ok (s : Session) : reachable s -> session_ok s.
Proof. induction 1; [apply fresh_ok | by eapply step_ok]. Qed.

Lemma catalog_keys : length ALLERGENS = 12 /\ NoDup (map key ALLERGENS).
Proof.
  split; [reflexivity|]. apply (bool_decide_unpack _).
  vm_compute. reflexivity.
Qed.

(** C8 -- in every state the client can reach from a first visit, by
    opening the page (which loads what was saved), by the checkboxes and
    by the two buttons, the profile is a mapping whose keys are among the
    identifiers of the twelve categories. *)
Theorem profile_keys_in_catalog (s : Session) :
  reachable s -> keys_in_catalog (profile s).
Proof.
  intros H. destruct (reachable_ok _ H) as (kv & Hp & [_ Hall] & _).
  exists kv. split; [done|]. apply Forall_fmap.
  eapply Forall_impl; [exact Hall|]. by intros e [He _].
Qed.

(** C7, as the code has it -- [loadProfile] returns an empty mapping when
    nothing or the empty string is stored, or when the text is not JSON;
    otherwise what the text parses to, whatever that is; and for the text
    that [saveProfile] wrote for a profile, that profile. *)
Theorem loadProfile_cases (st : Storage) :
  (st = None \/ st = Some [] -> loadProfile st = VObj [])
  /\ (forall s, st = Some s -> JSON_parse s = None -> loadProfile st = VObj [])
  /\ (forall s v, st = Some s -> s <> [] -> JSON_parse s = Some v ->
                  loadProfile st = v)
  /\ (forall kv, profile_ok kv -> st = saveProfile (VObj kv) ->
                 loadProfile st = VObj kv).
Proof.
  split; [|split; [|split]].
  - by intros [-> | ->].
  - intros s -> Hs. destruct s as [|c r]; [reflexivity|].
    rewrite loadProfile_text by done. by rewrite Hs.
  - intros s v -> Hne Hs. rewrite loadProfile_text by done. by rewrite Hs.
  - intros kv Hok ->. by apply load_saved.
Qed.

(** C7, as it is stated, fails: the stored text "null" is JSON and no
    profile; what is loaded is [null], no empty mapping, and the component
    that reads a category of it throws. *)
Lemma loadProfile_null :
  loadProfile (Some (js "null")) = VNull
  /\ loadProfile (Some (js "null")) <> VObj []
  /\ renders (loadProfile (Some (js "null"))) = false.
Proof. split; [reflexivity|]. split; [discriminate|reflexivity]. Qed.

End Profile.

(** ** Highlighting *)

Section Compile.
Import Spec Client RegExp.

Lemma syntax_not_b (c : char) : isSyntaxChar c = true -> (c =? 98)%N = false.
Proof.
  intros H. destruct (N.eqb_spec c 98) as [->|]; [|done]. vm_compute in H. done.
Qed.

Lemma plain_not_structure (c : char) :
  isSyntaxChar c = false ->
  (c =? 92)%N = false /\ (c =? 40)%N = false /\ (c =? 41)%N = false
  /\ (c =? 124)%N = false.
Proof.
  intros H.
  repeat split; match goal with |- (c =? ?n)%N = false =>
    destruct (N.eqb_spec c n) as [->|]; [vm_compute in H; done | done] end.
Qed.

(** An escaped keyword is read as its characters, whatever they are. *)
Lemma lex_escape (n rest : jsstring) :
  lex (escapeRegExp n ++ rest) = (fun ts => map TLit n ++ ts) <$> lex rest.
Proof.
  induction n as [|c n IH]; simpl.
  - by destruct (lex rest).
  - destruct (isSyntaxChar c) eqn:E; simpl.
    + rewrite (syntax_not_b _ E), E. rewrite IH. by destruct (lex rest).
    + destruct (plain_not_structure _ E) as (-> & -> & -> & ->). rewrite E.
      rewrite IH. by destruct (lex rest).
Qed.

Lemma lex_keywords (needles : list jsstring) (rest : jsstring) :
  lex (join (js "|") (map escapeRegExp needles) ++ rest)
  = (fun ts => keyword_tokens needles ++ ts) <$> lex rest.
Proof.
  induction needles as [|n [|n' r] IH].
  - simpl. by destruct (lex rest).
  - cbn [map join keyword_tokens]. apply lex_escape.
  - change (join (js "|") (map escapeRegExp (n :: n' :: r)))
      with (escapeRegExp n ++ js "|" ++ join (js "|") (map escapeRegExp (n' :: r))).
    change (keyword_tokens (n :: n' :: r))
      with (map TLit n ++ TBar :: keyword_tokens (n' :: r)).
    rewrite <- !app_assoc, lex_escape.
    change (js "|" ++ ?x) with (124%N :: x). cbn [lex].
    change (124 =? 92)%N with false. change (124 =? 40)%N with false.
    change (124 =? 41)%N with false. change (124 =? 124)%N with true. cbv iota.
    rewrite IH. destruct (lex rest); simpl; [|done].
    by rewrite <- app_assoc.
Qed.

Lemma lex_source (needles : list jsstring) :
  lex (highlight_source needles)
  = Some (TB :: TOpen :: keyword_tokens needles ++ [TClose; TB]).
Proof.
  unfold highlight_source. change (js "\b(" ++ ?x) with (92%N :: 98%N :: 40%N :: x).
  cbn [lex]. change (92 =? 92)%N with true. change (98 =? 98)%N with true.
  change (40 =? 92)%N with false. change (40 =? 40)%N with true. cbv iota.
  rewrite lex_keywords. reflexivity.
Qed.

Lemma parse_literal (n : jsstring) (alts : list regex) (cur : regex)
  (stack : list frame) :
  fold_left parse_step (map TLit n) (Some ((alts, cur), stack))
  = Some ((alts, fold_left (fun r c => RSeq r (RChar c)) n cur), stack).
Proof.
  revert cur. induction n as [|c n IH]; intros cur; simpl; [done|]. apply IH.
Qed.

Lemma parse_keywords (needles : list jsstring) (alts0 : list regex)
  (stack : list frame) :
  exists alts cur,
    fold_left parse_step (keyword_tokens needles) (Some ((alts0, REmpty), stack))
    = Some ((alts, cur), stack)
    /\ alts ++ [cur] = alts0 ++ alternatives needles.
Proof.
  revert alts0. induction needles as [|n [|n' r] IH]; intros alts0.
  - by exists alts0, REmpty.
  - exists alts0, (literal n). split; [apply parse_literal | done].
  - change (keyword_tokens (n :: n' :: r))
      with (map TLit n ++ TBar :: keyword_tokens (n' :: r)).
    rewrite fold_left_app, parse_literal. cbn [fold_left parse_step].
    change (fold_left (fun r c => RSeq r (RChar c)) n REmpty) with (literal n).
    destruct (IH (alts0 ++ [literal n])) as (alts & cur & -> & E).
    exists alts, cur. split; [done|]. rewrite E, <- app_assoc. done.
Qed.

(** [new RegExp] never throws on the source that [highlight] builds. *)
Lemma highlight_source_compiles (needles : list jsstring) :
  RegExp_new (highlight_source needles) = Some (highlight_regex needles).
Proof.
  unfold RegExp_new. rewrite lex_source. cbn [mbind option_bind].
  unfold parse. cbn [fold_left parse_step]. rewrite fold_left_app.
  destruct (parse_keywords needles [] [([], RSeq REmpty RWordB)])
    as (alts & cur & -> & E).
  cbn [fold_left parse_step app]. rewrite E. reflexivity.
Qed.

End Compile.

Section Matching.
Import Spec Client RegExp.

Lemma m_ext (r : regex) (text : jsstring) (k1 k2 : nat -> option nat) (i : nat) :
  (forall j, k1 j = k2 j) -> m r text k1 i = m r text k2 i.
Proof.
  revert k1 k2 i. induction r as [| c | | a IHa b IHb | a IHa b IHb | a IHa];
    intros k1 k2 i Hk; simpl.
  - apply Hk.
  - destruct (text !! i); [|done]. destruct (_ =? _)%N; [apply Hk | done].
  - destruct (isWordBoundary text i); [apply Hk | done].
  - apply IHa. intros j. by apply IHb.
  - rewrite (IHa k1 k2 i Hk), (IHb k1 k2 i Hk). done.
  - by apply IHa.
Qed.

Lemma m_literal (n : jsstring) (cur : regex) (text : jsstring)
  (k : nat -> option nat) (i : nat) :
  m (fold_left (fun r c => RSeq r (RChar c)) n cur) text k i
  = m cur text (fun j => if keyword_at n text j then k (j + length n) else None) i.
Proof.
  revert cur k i. induction n as [|c n IH]; intros cur k i.
  - simpl. apply m_ext. intros j. by rewrite Nat.add_0_r.
  - cbn [fold_left]. rewrite IH. cbn [m]. apply m_ext. intros j.
    cbn [keyword_at length]. destruct (text !! j) as [d|]; [|done].
    destruct (_ =? _)%N; [|done]. cbn [andb].
    destruct (keyword_at n text (S j)); [|done]. f_equal. lia.
Qed.

Lemma m_alternatives (needles : list jsstring) (text : jsstring) (i : nat) :
  needles <> [] ->
  m (mk_alt (map literal needles)) text
    (fun j => if isWordBoundary text j then Some j else None) i
  = first_keyword needles text i.
Proof.
  intros Hne. induction needles as [|n [|n' r] IH]; [done| |].
  - cbn [map mk_alt first_keyword]. unfold literal. rewrite m_literal. cbn [m].
    destruct (keyword_at n text i); [|done]. cbn [andb].
    by destruct (isWordBoundary text (i + length n)).
  - change (mk_alt (map literal (n :: n' :: r)))
      with (RAlt (literal n) (mk_alt (map literal (n' :: r)))).
    cbn [m first_keyword]. rewrite IH by done. unfold literal. rewrite m_literal.
    cbn [m]. destruct (keyword_at n text i); [|done]. cbn [andb].
    by destruct (isWordBoundary text (i + length n)).
Qed.

(** The matcher on the expression of [highlight]. *)
Lemma match_at_highlight (needles : list jsstring) (text : jsstring) (i : nat) :
  match_at (highlight_regex needles) text i = marked_at needles text i.
Proof.
  unfold match_at, highlight_regex, marked_at. cbn [m].
  destruct (isWordBoundary text i) eqn:E; [|done].
  destruct needles as [|n r].
  - cbn [alternatives mk_alt m]. by rewrite E.
  - unfold alternatives. by apply m_alternatives.
Qed.

Lemma wordAt_range (text : jsstring) (i : nat) :
  wordAt text i = true -> i < length text.
Proof.
  unfold wordAt. destruct (text !! i) eqn:E; [|done]. intros _.
  by apply lookup_lt_Some in E.
Qed.

Lemma boundary_range (text : jsstring) (i : nat) :
  isWordBoundary text i = true -> i <= length text.
Proof.
  unfold isWordBoundary. destruct i as [|j]; [lia|].
  destruct (wordAt text j) eqn:E1.
  - apply wordAt_range in E1. lia.
  - destruct (wordAt text (S j)) eqn:E2; [|done]. apply wordAt_range in E2. lia.
Qed.

Lemma keyword_at_length (n text : jsstring) (i : nat) :
  keyword_at n text i = true -> i <= length text -> i + length n <= length text.
Proof.
  revert i. induction n as [|c n IH]; intros i; simpl; [lia|].
  destruct (text !! i) as [d|] eqn:E; [|done].
  apply lookup_lt_Some in E.
  intros H _. apply andb_prop in H as [_ H]. unfold char in *.
  assert (S i <= length text) as Hi by lia.
  specialize (IH _ H Hi). simpl. lia.
Qed.

(** What a match of [highlight] is: it starts and ends on a word boundary
    and, when there are keywords, spans one of them. *)
Lemma first_keyword_Some (needles : list jsstring) (text : jsstring) (i e : nat) :
  first_keyword needles text i = Some e ->
  exists n, In n needles /\ e = i + length n /\ keyword_at n text i = true
            /\ isWordBoundary text e = true.
Proof.
  induction needles as [|n r IH]; simpl; [done|].
  destruct (keyword_at n text i && isWordBoundary text (i + length n)) eqn:E.
  - intros [= <-]. apply andb_prop in E as [E1 E2]. exists n. auto.
  - intros H. destruct (IH H) as (n' & Hin & Hrest). exists n'. auto.
Qed.

Lemma first_keyword_None (needles : list jsstring) (text : jsstring) (i : nat) (n : jsstring) :
  first_keyword needles text i = None -> In n needles ->
  keyword_at n text i = true -> isWordBoundary text (i + length n) = false.
Proof.
  induction needles as [|n' r IH]; simpl; [done|].
  destruct (keyword_at n' text i && isWordBoundary text (i + length n')) eqn:E; [done|].
  intros H [->|Hin] Hk; [|by apply IH].
  rewrite Hk in E. by destruct (isWordBoundary text (i + length n)).
Qed.

Lemma marked_at_Some (needles : list jsstring) (text : jsstring) (i e : nat) :
  marked_at needles text i = Some e ->
  isWordBoundary text i = true /\ isWordBoundary text e = true
  /\ i <= e <= length text
  /\ (needles = [] /\ e = i
      \/ exists n, In n needles /\ e = i + length n /\ keyword_at n text i = true).
Proof.
  unfold marked_at. destruct (isWordBoundary text i) eqn:Hb; [|done].
  pose proof (boundary_range _ _ Hb) as Hi.
  destruct needles as [|n0 r].
  - intros [= <-]. split; [done|]. split; [done|]. split; [lia|]. by left.
  - intros H. apply first_keyword_Some in H as (n & Hin & -> & Hk & He).
    split; [done|]. split; [done|].
    pose proof (keyword_at_length _ _ _ Hk Hi). split; [lia|].
    right. by exists n.
Qed.

End Matching.

Section Replace.
Import Spec Client RegExp.

Lemma replace_from_splice (fuel : nat) (r : regex) (f : jsstring -> jsstring)
  (text : jsstring) (i copied : nat) :
  replace_from fuel r f text i copied
  = splice f text (matches_from fuel (match_at r text) (length text) i) copied.
Proof.
  revert i copied. induction fuel as [|fuel IH]; intros i copied; simpl; [done|].
  destruct (bool_decide (length text < i)); [done|].
  destruct (match_at r text i) as [e|]; simpl; [|apply IH].
  by rewrite IH.
Qed.

Lemma matches_from_ext (fuel : nat) (mt1 mt2 : nat -> option nat) (len i : nat) :
  (forall j, mt1 j = mt2 j) -> matches_from fuel mt1 len i = matches_from fuel mt2 len i.
Proof.
  intros H. revert i. induction fuel as [|fuel IH]; intros i; simpl; [done|].
  rewrite H. destruct (mt2 i); by rewrite !IH.
Qed.

Section Scan.
Variable mt : nat -> option nat.
Variable len : nat.
Hypothesis mt_range : forall i e, mt i = Some e -> i <= e <= len.

Lemma matches_from_chain (fuel i : nat) : chain len i (matches_from fuel mt len i).
Proof using mt_range.
  revert i. induction fuel as [|fuel IH]; intros i; simpl; [done|].
  destruct (bool_decide (len < i)); [done|].
  destruct (mt i) as [e|] eqn:E.
  - destruct (mt_range _ _ E). simpl. repeat split; try lia.
    destruct (Nat.eqb_spec e i) as [->|].
    + specialize (IH (S i)). destruct (matches_from fuel mt len (S i)) as [|[o e'] r];
        [done|]. simpl in *. intuition lia.
    + apply IH.
  - specialize (IH (S i)). destruct (matches_from fuel mt len (S i)) as [|[o e'] r];
      [done|]. simpl in *. intuition lia.
Qed.

Lemma matches_from_sound (fuel i : nat) :
  Forall (fun oe => mt (fst oe) = Some (snd oe)) (matches_from fuel mt len i).
Proof.
  revert i. induction fuel as [|fuel IH]; intros i; simpl; [constructor|].
  destruct (bool_decide (len < i)); [constructor|].
  destruct (mt i) as [e|] eqn:E; [|apply IH].
  constructor; [done|apply IH].
Qed.

(** Nothing that matches is left outside the matches: an index where the
    expression matches is the start of a match or lies inside one. *)
Lemma matches_from_complete (fuel i j : nat) :
  len < fuel + i -> i <= j <= len -> mt j <> None ->
  exists o e, In (o, e) (matches_from fuel mt len i) /\ o <= j /\ (j = o \/ j < e).
Proof using mt_range.
  revert i. induction fuel as [|fuel IH]; intros i Hfuel Hj Hm; [lia|].
  simpl. rewrite bool_decide_eq_false_2 by lia.
  destruct (mt i) as [e|] eqn:E.
  - destruct (decide (j = i)) as [->|Hne].
    { exists i, e. split; [by left|]. split; [lia|by left]. }
    destruct (decide (j < e)) as [Hlt|Hge].
    { exists i, e. split; [by left|]. split; [lia|by right]. }
    destruct (IH (if (e =? i) then S i else e)) as (o & e' & Hin & Ho).
    + destruct (mt_range _ _ E). destruct (Nat.eqb_spec e i); lia.
    + destruct (Nat.eqb_spec e i); lia.
    + done.
    + exists o, e'. split; [by right|done].
  - destruct (decide (j = i)) as [->|Hne]; [congruence|].
    destruct (IH (S i)) as (o & e' & Hin & Ho); [lia|lia|done|].
    by exists o, e'.
Qed.

End Scan.

Lemma slice_drop (text : jsstring) (a b : nat) :
  a <= b -> b <= length text -> slice text a b ++ drop b text = drop a text.
Proof.
  intros Hab Hb. unfold slice.
  rewrite <- (take_drop (b - a) (drop a text)) at 2.
  f_equal. rewrite drop_drop. f_equal. lia.
Qed.

(** The text is all there, in order, around and inside the marks: with
    the identity in the place of the mark, the text comes back. *)
Lemma splice_id (text : jsstring) (ms : list (nat * nat)) (copied : nat) :
  chain (length text) copied ms -> splice (fun x => x) text ms copied = drop copied text.
Proof.
  revert copied. induction ms as [|[o e] ms IH]; intros copied; simpl; [done|].
  intros (H1 & H2 & H3 & H4). rewrite (IH _ H4).
  rewrite slice_drop by lia. apply slice_drop; lia.
Qed.

End Replace.

Section Highlight.
Import Spec Client RegExp.

Lemma marked_at_range (needles : list jsstring) (text : jsstring) (i e : nat) :
  marked_at needles text i = Some e -> i <= e <= length text.
Proof. intros H. by destruct (marked_at_Some _ _ _ _ H) as (_ & _ & ? & _). Qed.

(** [highlight] as the text with its marks. *)
Lemma highlight_splice (text : jsstring) (needles : list jsstring) :
  text <> [] ->
  highlight text needles = Some (splice mark text (marks needles text) 0).
Proof.
  intros Ht. unfold highlight. destruct text as [|c text]; [done|].
  rewrite highlight_source_compiles. cbn [mbind option_bind].
  unfold replace_all. rewrite replace_from_splice. unfold marks.
  do 2 f_equal. apply matches_from_ext. intros j. apply match_at_highlight.
Qed.

(** What [highlight] marks, for every text and every list of keywords:
    the text is all there around and inside the marks; a mark starts and
    ends on a word boundary and holds a keyword, letter case apart (or
    nothing, when there is no keyword at all); and a keyword that stands
    between two word boundaries starts a mark or lies in one. *)
Theorem highlight_marks_keywords (text : jsstring) (needles : list jsstring) :
  text <> [] ->
  highlight text needles = Some (splice mark text (marks needles text) 0)
  /\ splice (fun x => x) text (marks needles text) 0 = text
  /\ chain (length text) 0 (marks needles text)
  /\ Forall (fun oe =>
               isWordBoundary text (fst oe) = true
               /\ isWordBoundary text (snd oe) = true
               /\ (needles = [] /\ snd oe = fst oe
                   \/ exists n, In n needles /\ snd oe = fst oe + length n
                                /\ keyword_at n text (fst oe) = true))
            (marks needles text)
  /\ (forall i n,
         In n needles -> keyword_at n text i = true ->
         isWordBoundary text i = true ->
         isWordBoundary text (i + length n) = true ->
         exists o e, In (o, e) (marks needles text) /\ o <= i /\ (i = o \/ i < e)).
Proof.
  intros Ht.
  pose proof (matches_from_chain _ _ (marked_at_range needles text)
                (S (length text)) 0) as Hchain.
  split; [by apply highlight_splice|]. split; [by apply splice_id|].
  split; [done|]. split.
  - eapply Forall_impl; [apply matches_from_sound|].
    intros [o e] H. simpl in *.
    by destruct (marked_at_Some _ _ _ _ H) as (? & ? & _ & ?).
  - intros i n Hin Hk Hb He.
    apply (matches_from_complete _ _ (marked_at_range needles text)).
    + lia.
    + pose proof (boundary_range _ _ Hb). lia.
    + unfold marked_at. rewrite Hb. destruct needles as [|n0 r]; [done|].
      intros Hnone. pose proof (first_keyword_None _ _ _ _ Hnone Hin Hk). congruence.
Qed.

End Highlight.

Section RiskAndMarks.
Import Spec Client RegExp.

(** Without tags the hits are the selected labels found in the text. *)
Lemma riskFor_text_hits (profile : val) (p : Product) (text lbl : jsstring) (r : Risk) :
  ingredients_text p = VStr text ->
  default [] (allergens_tags p) = [] ->
  riskFor profile (Some p) = Some r ->
  In lbl (hits r)
  <-> In lbl (labels_of profile ALLERGENS)
      /\ includes (toLowerCase text) (toLowerCase lbl) = true.
Proof.
  intros Hing Htags Hr. split.
  - unfold riskFor in Hr.
    destruct (selectedLabels profile) as [sel|] eqn:Hs; [|done].
    assert (Hsel' : sel = labels_of profile ALLERGENS).
    { destruct (get_prop profile (js "peanut")) eqn:Hp.
      - erewrite selectedLabels_object in Hs by (by eexists). congruence.
      - apply selectedLabels_null in Hp. congruence. }
    subst sel. simpl in Hr. rewrite Hing, Htags in Hr.
    assert (Hlow : lower_or_empty (VStr text) = Some (toLowerCase text)).
    { by destruct text. }
    rewrite Hlow in Hr. simpl in Hr. injection Hr as <-. simpl.
    rewrite app_nil_r, uniq_elem, <- list_elem_of_In, list_elem_of_filter.
    rewrite list_elem_of_In. intros [H1 H2]. split; [done|].
    by apply Is_true_true.
  - intros [H1 H2]. by destruct (riskFor_text_hit profile p text lbl r).
Qed.

(** C10 -- the risk detector finds a selected keyword anywhere in the
    ingredient text, letter case apart, while every mark of the
    highlighter starts and ends on a word boundary: for the text "milky"
    and the milk category, a risk is reported and the text comes back
    without a mark. *)
Theorem risk_by_substring_mark_by_word :
  (forall profile p text lbl r,
      ingredients_text p = VStr text ->
      default [] (allergens_tags p) = [] ->
      riskFor profile (Some p) = Some r ->
      In lbl (hits r)
      <-> In lbl (labels_of profile ALLERGENS)
          /\ includes (toLowerCase text) (toLowerCase lbl) = true)
  /\ (forall text needles,
         text <> [] ->
         highlight text needles = Some (splice mark text (marks needles text) 0)
         /\ Forall (fun oe => isWordBoundary text (fst oe) = true
                              /\ isWordBoundary text (snd oe) = true)
                   (marks needles text))
  /\ riskFor (VObj [(js "milk", VBool true)]) (Some milky)
     = Some {| hits := [js "milk"]; hasRisk := true |}
  /\ selectedLabels (VObj [(js "milk", VBool true)])
     = Some (map js ["milk"; "dairy"; "casein"; "whey"; "lactose"]%string)
  /\ highlight (js "milky") (map js ["milk"; "dairy"; "casein"; "whey"; "lactose"]%string)
     = Some (js "milky").
Proof.
  split; [exact riskFor_text_hits|]. split.
  - intros text needles Ht. split; [by apply highlight_splice|].
    eapply Forall_impl; [apply matches_from_sound|].
    intros [o e] H. simpl in *.
    by destruct (marked_at_Some _ _ _ _ H) as (? & ? & _).
  - split; [vm_compute; reflexivity|]. split; vm_compute; reflexivity.
Qed.

(** C6 at an empty keyword list: the text does not come back unchanged, an
    empty mark stands at each of its eight word boundaries. *)
Theorem highlight_empty_keyword_list :
  highlight (js "Contains milk and soy") []
  = Some (mark [] ++ js "Contains" ++ mark [] ++ js " " ++ mark [] ++ js "milk"
          ++ mark [] ++ js " " ++ mark [] ++ js "and" ++ mark [] ++ js " "
          ++ mark [] ++ js "soy" ++ mark [])
  /\ highlight (js "Contains milk and soy") [] <> Some (js "Contains milk and soy").
Proof. split; [vm_compute; reflexivity | vm_compute; discriminate]. Qed.

(** The two instances that do hold. *)
Example highlight_milk :
  highlight (js "Contains milk and soy") [js "milk"]
  = Some (js "Contains " ++ mark (js "milk") ++ js " and soy").
Proof. vm_compute. reflexivity. Qed.

Example highlight_empty_text (needles : list jsstring) : highlight [] needles = Some [].
Proof. reflexivity. Qed.

End RiskAndMarks.

(** ** Further properties of the risk detector, the buttons and the lookup *)

Section Further.
Import Spec Client.

(** A profile that selects nothing reports no risk, whatever the text and
    the tags of the product are. *)
Theorem riskFor_nothing_selected (profile : val) (p : Product) (text : jsstring) :
  is_Some (get_prop profile (js "peanut")) ->
  (forall a, In a ALLERGENS -> truthy (get_prop_opt profile (key a)) = false) ->
  ingredients_text p = VStr text ->
  riskFor profile (Some p) = Some {| hits := []; hasRisk := false |}.
Proof.
  intros Hdef Hnone Hing. unfold riskFor.
  rewrite (selectedLabels_object _ _ Hdef). cbn [mbind option_bind].
  rewrite Hing.
  assert (Hlow : lower_or_empty (VStr text) = Some (toLowerCase text)) by (by destruct text).
  rewrite Hlow. cbn [mbind option_bind].
  assert (Hsel : labels_of profile ALLERGENS = []).
  { unfold labels_of. induction ALLERGENS as [|a l IH]; [done|]. simpl.
    rewrite Hnone by (by left). simpl. apply IH. intros a' Ha'. apply Hnone. by right. }
  rewrite Hsel. rewrite filter_nil. cbn [app].
  assert (Htags : filter (tag_selected profile)
                    (map strip_lang (default [] (allergens_tags p))) = []).
  { generalize (map strip_lang (default [] (allergens_tags p))). intros l.
    induction l as [|t l IH]; [done|].
    rewrite filter_cons_False; [done|]. unfold tag_selected.
    intros H. apply Is_true_true in H. apply existsb_exists in H as (a & Ha & H).
    rewrite (Hnone a Ha) in H. done. }
  rewrite Htags. reflexivity.
Qed.

(** Select All and Deselect All give every category its flag, and the
    profile is in the store afterwards, from where it loads back. *)
Theorem setAll_flags (b : bool) (st : Storage) :
  (forall a, In a ALLERGENS -> get_prop (setAll b) (key a) = Some (VBool b))
  /\ storage (commit st (setAll b)) = saveProfile (setAll b)
  /\ loadProfile (storage (commit st (setAll b))) = setAll b.
Proof.
  split; [|split].
  - intros a Ha.
    apply (proj1 (List.Forall_forall
                    (fun a => get_prop (setAll b) (key a) = Some (VBool b)) ALLERGENS));
      [|done].
    destruct b; vm_compute; repeat constructor.
  - destruct (setAll_ok b) as (kv & -> & _). by rewrite commit_object.
  - destruct (setAll_ok b) as (kv & -> & Hok). rewrite commit_object. cbn [storage].
    by apply load_saved.
Qed.

End Further.

Section FurtherServer.
Import Spec Client Server.

(** A search that finds nothing is answered with 404 "not_found", not
    with a crash; the cache is not written. *)
Theorem nutrition_not_found (USDA_KEY : option jsstring) (up : Upstream)
  (reqBody sj : val) (w : World) (brand name : jsstring) (dt : Z) :
  ~ key_missing USDA_KEY ->
  trimmed (get_prop_opt reqBody (js "name")) = Some name -> name <> [] ->
  trimmed (get_prop_opt reqBody (js "brand")) = Some brand ->
  missed (cacheKey (query brand name)) w ->
  encodable (query brand name) = true ->
  up (SearchCall (query brand name)) = (dt, Some {| ok := true; json := Some sj |}) ->
  (get_prop sj (js "foods") = Some (VArr [])
   \/ exists v, get_prop sj (js "foods") = Some v /\ as_array v = None) ->
  nutrition USDA_KEY up reqBody w
  = (error 404 "not_found",
     {| cache := cache (after_miss (cacheKey (query brand name)) w);
        clock := (clock w + dt)%Z;
        calls := calls w ++ [SearchCall (query brand name)] |}).
Proof.
  intros Hk Hn Hne Hb Hmiss Henc Hup Hfoods.
  rewrite (nutrition_lookup _ up _ w _ _ Hk Hn Hne Hb).
  unfold cachedLookup. unfold bind at 1.
  destruct (get_world (cacheKey (query brand name)) w) as [d Hd]. rewrite Hd.
  assert (Hfalsy : truthy d = false).
  { destruct (truthy d) eqn:E; [|done].
    destruct (get_fresh _ _ _ _ Hd E) as (e & He & -> & Hage & _).
    by rewrite (Hmiss e He Hage) in E. }
  assert (Hw : clock (after_miss (cacheKey (query brand name)) w) = clock w
               /\ calls (after_miss (cacheKey (query brand name)) w) = calls w).
  { unfold after_miss. destruct (cache w !! _) as [e|]; [|done].
    by destruct (TTL <? clock w - t e)%Z. }
  destruct Hw as [Hw1 Hw2].
  rewrite Hfalsy, Henc. unfold bind at 1, ret at 1. unfold bind at 1, fetch at 1.
  rewrite Hup. unfold bind at 1. cbn [ok json]. unfold ret at 1.
  unfold bind at 1, lift at 1, ret at 1. unfold bind at 1.
  destruct Hfoods as [-> | (v & -> & Hv)]; unfold lift at 1, ret at 1.
  - unfold ret. cbn [cache clock calls]. by rewrite Hw1, Hw2.
  - destruct v; try done; unfold ret; cbn [cache clock calls]; by rewrite Hw1, Hw2.
Qed.


End FurtherServer.

(** ** Further properties of the code *)

(** *** The two operations of the cache *)

Section CacheOps.
Import Spec Client RegExp Server.

(** What [set] stored, [get] returns for five minutes, the last
    millisecond included; after that it returns [null] and the entry is
    gone; and the entries of the other keys are served as before. *)
Theorem cache_set_then_get (k k' : jsstring) (d : val) (w : World) (now : Z) :
  ((now - clock w <= TTL)%Z ->
   get k (at_time now (snd (set k d w))) = (Some d, at_time now (snd (set k d w))))
  /\ ((TTL < now - clock w)%Z ->
      fst (get k (at_time now (snd (set k d w)))) = Some VNull
      /\ cache (snd (get k (at_time now (snd (set k d w))))) = delete k (cache w))
  /\ (k' <> k ->
      fst (get k' (at_time now (snd (set k d w)))) = fst (get k' (at_time now w))).
Proof.
  split; [|split].
  - intros Hage. apply (get_hit _ _ {| data := d; t := clock w |}); [|done].
    simpl. apply lookup_insert_eq.
  - intros Hage.
    rewrite (get_stale _ _ {| data := d; t := clock w |}); [| |done].
    + simpl. split; [done|]. apply delete_insert_eq.
    + simpl. apply lookup_insert_eq.
  - intros Hk. unfold get. simpl. rewrite lookup_insert_ne by done.
    destruct (cache w !! k') as [e|]; [|done].
    by destruct (TTL <? now - t e)%Z.
Qed.

End CacheOps.

(** *** The query and the cache key *)

Section Query.
Import Spec Client RegExp Server.

Lemma dropWhile_stop {A} (f : A -> bool) (l : list A) (x : A) (r : list A) :
  dropWhile f l = x :: r -> f x = false.
Proof.
  induction l as [|y l IH]; simpl; [done|].
  destruct (f y) eqn:E; [done|]. by intros [= <- <-].
Qed.

Lemma dropWhile_keep {A} (f : A -> bool) (l : list A) (x : A) :
  f x = false -> dropWhile f (l ++ [x]) = dropWhile f l ++ [x].
Proof.
  intros Hx. induction l as [|y l IH]; simpl; [by rewrite Hx|].
  by destruct (f y).
Qed.

Lemma starts_tight_dropWhile (s : jsstring) :
  starts_tight s -> dropWhile isWhiteSpace s = s.
Proof. destruct s as [|c r]; [done|]. simpl. by intros ->. Qed.

Lemma starts_tight_snoc (l : jsstring) (h : char) :
  isWhiteSpace h = false -> (forall y u, l = y :: u -> isWhiteSpace y = false) ->
  starts_tight (l ++ [h]).
Proof. intros Hh Hl. destruct l as [|y u]; [exact Hh|]. by apply (Hl y u). Qed.

Lemma tight_trim (s : jsstring) : tight s -> trim s = s.
Proof.
  intros [H1 H2]. unfold trim, trimStart, trimEnd.
  rewrite (starts_tight_dropWhile _ H1), (starts_tight_dropWhile _ H2).
  apply rev_involutive.
Qed.

Lemma trim_tight (s : jsstring) : tight (trim s).
Proof.
  unfold trim, trimStart, trimEnd, tight. rewrite rev_involutive.
  destruct (dropWhile isWhiteSpace s) as [|h r] eqn:E; [split; exact I|].
  pose proof (dropWhile_stop _ _ _ _ E) as Hh. unfold jsstring, char in *.
  simpl rev. rewrite (dropWhile_keep _ _ _ Hh). split.
  - by rewrite rev_app_distr.
  - apply starts_tight_snoc; [exact Hh|]. intros y u. apply dropWhile_stop.
Qed.

Lemma tight_join (s t : jsstring) (sep : jsstring) :
  tight s -> tight t -> s <> [] -> t <> [] -> tight (s ++ sep ++ t).
Proof.
  intros [Hs _] [_ Ht] Hs0 Ht0. split.
  - destruct s; done.
  - rewrite !rev_app_distr. destruct (rev t) eqn:E; [|done].
    apply (f_equal (@length _)) in E. rewrite length_rev in E. by destruct t.
Qed.

(** The query sent upstream: the brand, a space, the name; or the name
    alone.  It is never empty, so the fallback of the source is never
    taken; and a request without brand whose name is that text asks for
    the same. *)
Theorem query_brand_name (brand name : jsstring) :
  trim name <> [] ->
  query (trim brand) (trim name)
  = match trim brand with
    | [] => trim name
    | _ => trim brand ++ js " " ++ trim name
    end
  /\ query (trim brand) (trim name) <> []
  /\ trim (query (trim brand) (trim name)) = query (trim brand) (trim name)
  /\ query [] (query (trim brand) (trim name)) = query (trim brand) (trim name).
Proof.
  intros Hn.
  assert (H1 : query (trim brand) (trim name)
               = match trim brand with
                 | [] => trim name
                 | _ => trim brand ++ js " " ++ trim name
                 end).
  { unfold query. pose proof (trim_tight brand) as Hb. pose proof (trim_tight name) as Ht.
    destruct (trim brand) as [|b0 b] eqn:Eb; destruct (trim name) as [|n0 n] eqn:En; try done.
    - cbn [List.filter join]. rewrite (tight_trim _ Ht). done.
    - cbn [List.filter join]. 
      rewrite (tight_trim (_ ++ _ ++ _)); [done|]. by apply tight_join. }
  assert (H2 : tight (query (trim brand) (trim name))).
  { rewrite H1. pose proof (trim_tight brand) as Hb. pose proof (trim_tight name) as Ht.
    destruct (trim brand) as [|b0 b] eqn:Eb; [done|].
    apply tight_join; try done. }
  assert (H3 : query (trim brand) (trim name) <> []).
  { rewrite H1. destruct (trim brand); [done|]. done. }
  split; [done|]. split; [done|]. split; [by apply tight_trim|].
  destruct (query (trim brand) (trim name)) as [|q0 q] eqn:Eq; [done|].
  unfold query at 1. cbn [List.filter join]. by rewrite (tight_trim _ H2).
Qed.

End Query.

(** *** What a lookup answers, calls and caches *)

Section Lookup.
Import Spec Client RegExp Server.

Lemma cachedLookup_trace up brand name w r w' :
  cachedLookup up brand name w = (r, w') ->
  lookup_outcome up brand name w r w'
  /\ (calls w' = calls w
      \/ (w' = searched up (query brand name) w
          /\ (r = None \/ r = Some (error 404 "not_found")))
      \/ exists first rest ro w3,
           describe up brand first (first :: rest) (searched up (query brand name) w)
           = (ro, w3)
           /\ match ro with
              | Some out =>
                  r = Some {| status := 200; body := out |}
                  /\ w' = snd (set (cacheKey (query brand name)) out w3)
              | None => r = None /\ w' = w3
              end).
Proof.
  intros H. split; [by apply cachedLookup_outcome|]. revert H.
  unfold cachedLookup, searched. set (q := query brand name). set (k := cacheKey q).
  unfold bind at 1.
  destruct (get_world k w) as [d Hget]. rewrite Hget.
  assert (Hc1 : calls (after_miss k w) = calls w).
  { unfold after_miss. destruct (cache w !! k) as [e|]; [|done].
    by destruct (TTL <? clock w - t e)%Z. }
  destruct (truthy d).
  { intros [= <- <-]. by left. }
  destruct (encodable q).
  2:{ intros [= <- <-]. by left. }
  unfold bind at 1, ret at 1. unfold bind at 1.
  destruct (fetch up (SearchCall q) (after_miss k w)) as [rep w2] eqn:Hf. simpl.
  destruct rep as [s|].
  2:{ intros [= <- <-]. right. left. auto. }
  unfold bind at 1. destruct (ok s).
  2:{ intros [= <- <-]. right. left. auto. }
  unfold ret at 1. unfold bind at 1. destruct (json s) as [sj|].
  2:{ intros [= <- <-]. right. left. auto. }
  unfold lift at 1, ret at 1. unfold bind at 1.
  destruct (get_prop sj (js "foods")) as [foods|].
  2:{ intros [= <- <-]. right. left. auto. }
  unfold lift at 1, ret at 1.
  destruct (match foods with VArr l => l | _ => [] end) as [|first rest].
  { intros [= <- <-]. right. left. auto. }
  unfold bind at 1.
  destruct (describe up brand first (first :: rest) w2) as [[out|] w3] eqn:Hdesc.
  - unfold bind, ret. intros [= <- <-]. right. right.
    exists first, rest, (Some out), w3. done.
  - intros [= <- <-]. right. right. exists first, rest, None, w3. done.
Qed.

Lemma round_or_0_integer (n : number) :
  Number_isFinite n = true -> exists z, round_or_0 n = VNum z /\ is_integer z = true.
Proof.
  destruct n as [m e| | |]; try done. intros _. unfold round_or_0.
  destruct (num_truthy (Dec m e)); [|by eexists].
  unfold Math_round. destruct (0 <=? e)%Z eqn:E; by eexists.
Qed.

Lemma num_finite (x : val) : Number_isFinite (num x) = true.
Proof. unfold num. by destruct (Number_isFinite (ToNumber x)) eqn:E. Qed.

Lemma fromLabel_finite (ln : val) (n : Nutrients) :
  fromLabel ln = Some n ->
  Number_isFinite (calories n) = true /\ Number_isFinite (carbs n) = true
  /\ Number_isFinite (sugars n) = true.
Proof.
  unfold fromLabel. intros H.
  repeat (apply bind_Some in H as (? & _ & H)). injection H as <-. simpl.
  auto using num_finite.
Qed.

Lemma fromNutrients_finite (l : val) (n : Nutrients) :
  fromNutrients l = Some n ->
  Number_isFinite (calories n) = true /\ Number_isFinite (carbs n) = true
  /\ Number_isFinite (sugars n) = true.
Proof.
  unfold fromNutrients.
  destruct (match l with VUndef => VArr [] | _ => l end); try done.
  intros [= <-]. simpl. auto using num_finite.
Qed.

Lemma returns_lift {A B} (o : option A) (k : A -> M B) (P : B -> Prop) :
  (forall a, o = Some a -> returns (k a) P) -> returns (bind (lift o) k) P.
Proof.
  intros Hk w b w'. unfold bind, lift. destruct o as [a|]; [|done].
  unfold ret. by apply Hk.
Qed.

Lemma describe_record up brand first hits :
  returns (describe up brand first hits)
    (fun out => nutrition_record out
                /\ (get_prop out (js "matchType") = Some (VStr (js "generic"))
                    <-> brand = [])).
Proof.
  unfold describe.
  apply returns_bind; intros found.
  apply returns_bind; intros fdcId.
  apply returns_bind; intros r.
  apply returns_bind; intros d.
  apply returns_bind; intros ln.
  apply returns_lift; intros n Hn.
  apply returns_lift; intros mt Hmt.
  apply returns_ret.
  assert (Hfin : Number_isFinite (calories n) = true /\ Number_isFinite (carbs n) = true
                 /\ Number_isFinite (sugars n) = true).
  { destruct (truthy ln); [by eapply fromLabel_finite | by eapply fromNutrients_finite]. }
  destruct Hfin as (H1 & H2 & H3).
  destruct (round_or_0_integer _ H1) as (z1 & -> & Hz1).
  destruct (round_or_0_integer _ H2) as (z2 & -> & Hz2).
  destruct (round_or_0_integer _ H3) as (z3 & -> & Hz3).
  split.
  - eexists mt, _, z1, z2, z3, _. split; [reflexivity|].
    split.
    { destruct brand; [injection Hmt as <-; simpl; auto|].
      destruct (or_else _ _); try done. injection Hmt as <-.
      destruct (includes _ _); simpl; auto. }
    split; [|done].
    unfold or_else.
    destruct (truthy (get_prop_opt d (js "householdServingFullText"))) eqn:E; [done|].
    destruct (_ && _); [|done]. simpl.
    by destruct (ToString (get_prop_opt d (js "servingSize"))).
  - cbn. split.
    + intros [= E]. destruct brand ; [done|].
      destruct (or_else _ _); try done. injection Hmt as <-.
      by destruct (includes _ _).
    + intros ->. by injection Hmt as <-.
Qed.

Lemma describe_calls up brand first hits w ro w3 :
  describe up brand first hits w = (ro, w3) ->
  cache w3 = cache w
  /\ (calls w3 = calls w /\ ro = None
      \/ exists id, calls w3 = calls w ++ [DetailCall id]).
Proof.
  unfold describe. unfold bind at 1.
  destruct (lift _ w) as [[found|] w1] eqn:E1.
  2:{ destruct brand; [done|]. unfold lift in E1.
      destruct (find_branded hits); [done|]. injection E1 as <-. intros [= <- <-]. auto. }
  assert (w1 = w) as ->.
  { unfold lift in E1. destruct (match brand with [] => _ | _ => _ end); by injection E1. }
  unfold bind at 1. unfold lift at 1.
  destruct (get_prop (or_else found first) (js "fdcId")) as [fdcId|].
  2:{ intros [= <- <-]. auto. }
  unfold ret at 1. unfold bind at 1. unfold fetch at 1.
  destruct (up (DetailCall (ToString fdcId))) as [dt rep].
  set (w2 := {| cache := cache w; clock := (clock w + dt)%Z;
                calls := calls w ++ [DetailCall (ToString fdcId)] |}).
  intros H.
  destruct rep as [r|].
  2:{ injection H as <- <-. split; [done|]. right. by eexists. }
  revert H.
  repeat (unfold bind at 1; unfold lift at 1;
          match goal with
          | |- context [match ?o with Some _ => ret _ | None => throw end] =>
              destruct o; [unfold ret at 1|intros [= <- <-]; split; [done|]; right; by eexists]
          end).
  unfold ret. intros [= <- <-]. split; [done|]. right. by eexists.
Qed.


Lemma nutrition_cases USDA_KEY up reqBody w :
  (status (fst (nutrition USDA_KEY up reqBody w)) <> 200%Z
   /\ snd (nutrition USDA_KEY up reqBody w) = w)
  \/ exists brand name,
       ~ key_missing USDA_KEY
       /\ trimmed (get_prop_opt reqBody (js "name")) = Some name /\ name <> []
       /\ trimmed (get_prop_opt reqBody (js "brand")) = Some brand.
Proof.
  destruct (nutrition_outcome USDA_KEY up reqBody w) as [r Hr|brand name r w' Hk Hn Hne Hb Ho].
  - by left.
  - right. by exists brand, name.
Qed.

Lemma record_truthy (v : val) : nutrition_record v -> truthy v = true.
Proof. by intros (? & ? & ? & ? & ? & ? & -> & _). Qed.

Lemma lookup_records up brand name w r w' :
  cache_records w -> cachedLookup up brand name w = (r, w') ->
  cache_records w'
  /\ forall x, r = Some x -> status x = 200%Z -> nutrition_record (body x).
Proof.
  intros Hw E. destruct (cachedLookup_trace _ _ _ _ _ _ E) as [Ho Ht].
  assert (Hmiss : forall w1, cache w1 = cache (after_miss (cacheKey (query brand name)) w) ->
            cache_records w1).
  { intros w1 Hw1 k e He. rewrite Hw1 in He. eapply Hw, after_miss_lookup, He. }
  destruct Ho as [e He Hage Hd| |r w' more _ _ Hr Hc Hl|out w' more now _ _ Hout Hc Hl].
  - split; [done|]. intros x [= <-] _. simpl. by apply (Hw _ _ He).
  - split; [by apply Hmiss|]. done.
  - split; [by apply Hmiss|]. intros x Hx Hs.
    destruct Hr as [-> | ->]; [done|]. by injection Hx as <-.
  - assert (Hrec : nutrition_record out).
    { destruct Ht as [Ht|[[_ [?|?]]|(first & rest & ro & w3 & Hd & Hro)]]; try done.
      - rewrite Hl in Ht. by apply calls_grew in Ht.
      - destruct ro as [out'|]; [|by destruct Hro].
        destruct Hro as [[= <-] _].
        by apply (describe_record _ _ _ _ _ _ _ Hd). }
    split.
    + intros k e He. rewrite Hc in He.
      apply lookup_insert_Some in He as [[_ <-]|[_ He]]; [done|].
      eapply Hw, after_miss_lookup, He.
    + by intros x [= <-] _.
Qed.

Lemma runs_records USDA_KEY w : runs USDA_KEY w -> cache_records w.
Proof.
  induction 1 as [now|w now _ IH|w up reqBody _ IH].
  - intros k e He. simpl in He. by rewrite lookup_empty in He.
  - done.
  - destruct (nutrition_cases USDA_KEY up reqBody w)
      as [[_ ->]|(brand & name & Hk & Hn & Hne & Hb)]; [done|].
    rewrite (nutrition_lookup _ up _ w _ _ Hk Hn Hne Hb).
    destruct (cachedLookup up brand name w) as [r w'] eqn:E.
    destruct (lookup_records _ _ _ _ _ _ IH E) as [H _]. by destruct r.
Qed.

(** Whatever the upstream answers, a 200 answer of the handler is a
    record with the seven fields: the source, one of the three match
    types, a serving description that is there, and whole numbers for
    calories, carbohydrates and sugar. *)
Theorem answer_is_record (USDA_KEY : option jsstring) (up : Upstream)
  (reqBody : val) (w : World) :
  runs USDA_KEY w ->
  status (fst (nutrition USDA_KEY up reqBody w)) = 200%Z ->
  nutrition_record (body (fst (nutrition USDA_KEY up reqBody w))).
Proof.
  intros Hruns. apply runs_records in Hruns.
  destruct (nutrition_cases USDA_KEY up reqBody w)
    as [[? _]|(brand & name & Hk & Hn & Hne & Hb)]; [done|].
  rewrite (nutrition_lookup _ up _ w _ _ Hk Hn Hne Hb).
  destruct (cachedLookup up brand name w) as [r w'] eqn:E.
  destruct (lookup_records _ _ _ _ _ _ Hruns E) as [_ H].
  destruct r as [x|]; [|done]. simpl. by apply H.
Qed.

(** A request costs at most two upstream calls: none, or the search, or
    the search and then one detail. *)
Theorem nutrition_upstream_calls (USDA_KEY : option jsstring) (up : Upstream)
  (reqBody : val) (w : World) :
  calls (snd (nutrition USDA_KEY up reqBody w)) = calls w
  \/ exists brand name,
       trimmed (get_prop_opt reqBody (js "name")) = Some name
       /\ trimmed (get_prop_opt reqBody (js "brand")) = Some brand
       /\ (calls (snd (nutrition USDA_KEY up reqBody w))
           = calls w ++ [SearchCall (query brand name)]
           /\ status (fst (nutrition USDA_KEY up reqBody w)) <> 200%Z
           \/ exists id,
                calls (snd (nutrition USDA_KEY up reqBody w))
                = calls w ++ [SearchCall (query brand name); DetailCall id]).
Proof.
  destruct (nutrition_cases USDA_KEY up reqBody w)
    as [[_ ->]|(brand & name & Hk & Hn & Hne & Hb)]; [by left|].
  rewrite (nutrition_lookup _ up _ w _ _ Hk Hn Hne Hb).
  destruct (cachedLookup up brand name w) as [r w'] eqn:E.
  destruct (cachedLookup_trace _ _ _ _ _ _ E) as [_ Ht].
  assert (Hs : calls (searched up (query brand name) w)
               = calls w ++ [SearchCall (query brand name)]).
  { unfold searched, fetch. destruct (up _) as [dt rep]. simpl.
    unfold after_miss. destruct (cache w !! _) as [e|]; [|done].
    by destruct (TTL <? clock w - t e)%Z. }
  destruct Ht as [Ht|[[-> Hr]|(first & rest & ro & w3 & Hd & Hro)]].
  - left. by destruct r.
  - right. exists brand, name. split; [done|]. split; [done|]. left.
    destruct Hr as [-> | ->]; done.
  - right. exists brand, name. split; [done|]. split; [done|].
    destruct (describe_calls _ _ _ _ _ _ _ Hd) as [_ [[Hc ->]|[id Hc]]].
    + destruct Hro as [-> ->]. left. simpl. by rewrite Hc, Hs.
    + right. exists id.
      assert (calls w' = calls w3) as Hw'.
      { destruct ro; destruct Hro as [_ ->]; done. }
      destruct r; simpl; rewrite Hw', Hc, Hs; by rewrite <- app_assoc.
Qed.

(** An answer that was looked up upstream says "generic" exactly when the
    request named no brand. *)
Theorem looked_up_matchType (USDA_KEY : option jsstring) (up : Upstream)
  (reqBody : val) (w : World) (brand name : jsstring) :
  ~ key_missing USDA_KEY ->
  trimmed (get_prop_opt reqBody (js "name")) = Some name -> name <> [] ->
  trimmed (get_prop_opt reqBody (js "brand")) = Some brand ->
  status (fst (nutrition USDA_KEY up reqBody w)) = 200%Z ->
  calls (snd (nutrition USDA_KEY up reqBody w)) <> calls w ->
  (get_prop (body (fst (nutrition USDA_KEY up reqBody w))) (js "matchType")
   = Some (VStr (js "generic"))
   <-> brand = []).
Proof.
  intros Hk Hn Hne Hb.
  rewrite (nutrition_lookup _ up _ w _ _ Hk Hn Hne Hb).
  destruct (cachedLookup up brand name w) as [r w'] eqn:E.
  destruct (cachedLookup_trace _ _ _ _ _ _ E) as [_ Ht].
  intros Hst Hcalls.
  destruct Ht as [Ht|[[-> Hr]|(first & rest & ro & w3 & Hd & Hro)]].
  - destruct r; done.
  - destruct Hr as [-> | ->]; done.
  - destruct ro as [out|]; destruct Hro as [-> ->]; [|done]. simpl.
    by apply (describe_record _ _ _ _ _ _ _ Hd).
Qed.


(** The cache does not tell a brand from a name: the entry written for the
    brand "Quaker" and the name "Oats" answers the request for the name
    "quaker oats", with the match type of the first request, where a
    lookup would have said "generic". *)
Example cached_answer_of_other_request :
  get_prop
    (body (fst (nutrition (Some (js "key")) offline
                  (VObj [(js "name", VStr (js "quaker oats"))])
                  (snd (nutrition (Some (js "key")) oats_upstream
                          (VObj [(js "name", VStr (js "Oats"));
                                 (js "brand", VStr (js "Quaker"))])
                          (booted 0))))))
    (js "matchType")
  = Some (VStr (js "likely"))
  /\ get_prop
       (body (fst (nutrition (Some (js "key")) oats_upstream
                     (VObj [(js "name", VStr (js "quaker oats"))]) (booted 0))))
       (js "matchType")
     = Some (VStr (js "generic")).
Proof. split; vm_compute; reflexivity. Qed.

End Lookup.

(** *** The status of the detail response *)

Section DetailStatus.
Import Spec Client RegExp Server.

Lemma bind_ext {A B} (c c' : M A) (k k' : A -> M B) (w : World) :
  c w = c' w -> (forall a w', k a w' = k' a w') -> bind c k w = bind c' k' w.
Proof.
  intros Hc Hk. unfold bind. rewrite Hc. destruct (c' w) as [[a|] w']; [apply Hk|done].
Qed.

Lemma describe_detail_status up brand first hits w :
  describe (detail_marked_ok up) brand first hits w = describe up brand first hits w.
Proof.
  unfold describe.
  apply bind_ext; [done|]. intros found w1.
  apply bind_ext; [done|]. intros fdcId w2.
  unfold bind at 1. unfold bind at 6. unfold fetch, detail_marked_ok.
  destruct (up (DetailCall (ToString fdcId))) as [dt [r|]]; simpl; [|done].
  reflexivity.
Qed.

Lemma cachedLookup_detail_status up brand name w :
  cachedLookup (detail_marked_ok up) brand name w = cachedLookup up brand name w.
Proof.
  unfold cachedLookup.
  apply bind_ext; [done|]. intros cached w1.
  destruct (truthy cached); [done|].
  apply bind_ext; [done|]. intros _ w2.
  apply bind_ext; [done|]. intros s w3.
  apply bind_ext; [done|]. intros _ w4.
  apply bind_ext; [done|]. intros sj w5.
  apply bind_ext; [done|]. intros foods w6.
  destruct (match foods with VArr l => l | _ => [] end) as [|first rest]; [done|].
  apply bind_ext; [apply describe_detail_status|done].
Qed.

(** The handler never looks at the status of the detail response: with
    every detail reply marked as successful, each request gets the same
    answer and leaves the same cache and the same calls. *)
Theorem detail_status_ignored (USDA_KEY : option jsstring) (up : Upstream)
  (reqBody : val) (w : World) :
  nutrition USDA_KEY (detail_marked_ok up) reqBody w = nutrition USDA_KEY up reqBody w.
Proof.
  unfold nutrition. destruct USDA_KEY as [[|c k]|]; try done.
  unfold bind. destruct (validated reqBody w) as [[[[brand name]|]|] w1]; try done.
  by rewrite cachedLookup_detail_status.
Qed.

(** So an error of the detail endpoint is answered with 200 and zeros,
    under the description of the search hit, and is cached. *)
Example failed_detail_is_answered :
  fst (nutrition (Some (js "key")) oats_without_detail oats_request (booted 0))
  = {| status := 200;
       body := VObj [(js "source", VStr (js "usda"));
                     (js "matchType", VStr (js "generic"));
                     (js "serving_desc", VStr (js "100 g"));
                     (js "calories_kcal", VNum (Dec 0 0));
                     (js "carbs_g", VNum (Dec 0 0));
                     (js "sugar_g", VNum (Dec 0 0));
                     (js "raw_name", VStr (js "Oats"))] |}
  /\ is_Some (cache (snd (nutrition (Some (js "key")) oats_without_detail oats_request
                            (booted 0)))
              !! js "USDA::oats").
Proof. split; [vm_compute; reflexivity|]. vm_compute. by eexists. Qed.

End DetailStatus.

(** *** Fields of the request and of the detail *)

Section Fields.
Import Spec Client RegExp Server.

Lemma trimmed_not_a_string (v : val) : not_a_string v -> trimmed v = None.
Proof.
  intros [Ht Hs]. unfold trimmed, or_else. rewrite Ht.
  destruct v; try done. by destruct (Hs s).
Qed.

(** A name or a brand that is there and is not a string ends the request
    in 500 "server_error": nothing is looked up, nothing is cached. *)
Theorem nutrition_field_not_a_string (USDA_KEY : option jsstring) (up : Upstream)
  (reqBody : val) (w : World) :
  ~ key_missing USDA_KEY ->
  not_a_string (get_prop_opt reqBody (js "name"))
  \/ not_a_string (get_prop_opt reqBody (js "brand")) ->
  nutrition USDA_KEY up reqBody w = (error 500 "server_error", w).
Proof.
  intros Hk H. unfold nutrition.
  destruct USDA_KEY as [[|c k]|]; [destruct Hk; by right| |destruct Hk; by left].
  unfold bind at 1. unfold validated, bind, lift.
  destruct H as [H|H].
  - by rewrite (trimmed_not_a_string _ H).
  - rewrite (trimmed_not_a_string _ H).
    by destruct (trimmed (get_prop_opt reqBody (js "name"))).
Qed.




End Fields.

(** *** The badge of a rounded amount *)

Section RoundedBadge.
Import Spec Client Server.
Local Open Scope Q_scope.

Lemma Math_round_value (m e : Z) :
  exists m' e' z,
    Math_round (Dec m e) = Dec m' e'
    /\ num_value m' e' == inject_Z z
    /\ inject_Z z <= num_value m e + (1 # 2)
    /\ num_value m e + (1 # 2) < inject_Z z + 1.
Proof.
  unfold Math_round. destruct (Z.leb_spec 0 e) as [He|He].
  - exists m, e, (m * 10 ^ e)%Z.
    assert (Hv : num_value m e == inject_Z (m * 10 ^ e)).
    { unfold num_value. rewrite inject_Z_mult, Zpower_Qpower by lia. reflexivity. }
    split; [done|]. split; [done|]. rewrite Hv. split.
    + rewrite <- (Qplus_0_r (inject_Z _)) at 1. apply Qplus_le_r. discriminate.
    + apply Qplus_lt_r. reflexivity.
  - set (d := (10 ^ (- e))%Z).
    assert (Hd : (0 < d)%Z) by (apply Z.pow_pos_nonneg; lia).
    exists ((2 * m + d) / (2 * d))%Z, 0%Z, ((2 * m + d) / (2 * d))%Z.
    split; [done|]. split; [apply num_value_int|].
    assert (Hx : num_value m e == inject_Z m / inject_Z d).
    { unfold num_value, d. rewrite Zpower_Qpower by lia.
      replace e with (- - e)%Z at 1 by lia. rewrite Qpower_opp. reflexivity. }
    assert (HdQ : 0 < inject_Z d) by (rewrite <- (Zlt_Qlt 0); done).
    assert (Hsum : num_value m e + (1 # 2) == inject_Z (2 * m + d) / inject_Z (2 * d)).
    { rewrite Hx. rewrite !inject_Z_plus, !inject_Z_mult. field.
      intros E. rewrite E in HdQ. by apply Qlt_irrefl in HdQ. }
    assert (H2d : 0 < inject_Z (2 * d)) by (rewrite <- (Zlt_Qlt 0); lia).
    set (z := ((2 * m + d) / (2 * d))%Z).
    assert (Hz : (z * (2 * d) <= 2 * m + d < (z + 1) * (2 * d))%Z).
    { pose proof (Z.mul_div_le (2 * m + d) (2 * d)).
      pose proof (Z.mul_succ_div_gt (2 * m + d) (2 * d)). fold z in H, H0. lia. }
    rewrite Hsum. split.
    + apply Qle_shift_div_l; [done|]. rewrite <- inject_Z_mult, <- Zle_Qle. lia.
    + apply Qlt_shift_div_r; [done|].
      change (inject_Z z + 1) with (inject_Z z + inject_Z 1).
      rewrite <- (inject_Z_plus _ 1), <- inject_Z_mult, <- Zlt_Qlt. lia.
Qed.

Lemma badge_by_floor (m' e' z : Z) (x : Q) :
  num_value m' e' == inject_Z z ->
  inject_Z z <= x + (1 # 2) -> x + (1 # 2) < inject_Z z + 1 ->
  (61 # 2 <= x -> label (classifyCarbs (Dec m' e')) = js "Avoid")
  /\ (29 # 2 <= x < 61 # 2 -> label (classifyCarbs (Dec m' e')) = js "Limit")
  /\ (x < 29 # 2 -> label (classifyCarbs (Dec m' e')) = js "Eat").
Proof.
  intros Hv Hlo Hhi'.
  assert (Hhi : x + (1 # 2) < inject_Z (z + 1)) by (rewrite inject_Z_plus; exact Hhi').
  split; [|split].
  - intros Hx. apply classifyCarbs_avoid. rewrite Hv.
    assert (H : inject_Z 31 < inject_Z (z + 1)).
    { eapply Qle_lt_trans; [|exact Hhi].
      apply Qle_trans with ((61 # 2) + (1 # 2)); [discriminate|].
      by apply Qplus_le_l. }
    rewrite <- Zlt_Qlt in H. change (inject_Z 30 < inject_Z z).
    rewrite <- Zlt_Qlt. lia.
  - intros [Hx1 Hx2]. apply classifyCarbs_limit. rewrite Hv. split.
    + assert (H : inject_Z 15 < inject_Z (z + 1)).
      { eapply Qle_lt_trans; [|exact Hhi].
        apply Qle_trans with ((29 # 2) + (1 # 2)); [discriminate|].
        by apply Qplus_le_l. }
      rewrite <- Zlt_Qlt in H. change (inject_Z 15 <= inject_Z z).
      rewrite <- Zle_Qle. lia.
    + assert (H : inject_Z z < inject_Z 31).
      { eapply Qle_lt_trans; [exact Hlo|].
        apply Qlt_le_trans with ((61 # 2) + (1 # 2)); [|discriminate].
        by apply Qplus_lt_l. }
      rewrite <- Zlt_Qlt in H. change (inject_Z z <= inject_Z 30).
      rewrite <- Zle_Qle. lia.
  - intros Hx. apply classifyCarbs_eat. rewrite Hv.
    eapply Qle_lt_trans; [exact Hlo|].
    apply Qlt_le_trans with ((29 # 2) + (1 # 2)); [|discriminate].
    by apply Qplus_lt_l.
Qed.

Lemma Math_round_idem (n : number) : Math_round (Math_round n) = Math_round n.
Proof.
  destruct n as [m e| | |]; try done. unfold Math_round at 2.
  destruct (0 <=? e)%Z eqn:E; simpl; by rewrite ?E.
Qed.

(** The badge of an amount that the server has rounded: "Avoid" from 30.5
    on, "Limit" from 14.5 on, "Eat" below; and the client, which rounds
    the amount again before it shows it, shows what the server sent. *)
Theorem badge_of_rounded_carbs (m e : Z) :
  exists r,
    round_or_0 (Dec m e) = VNum r
    /\ Math_round r = r
    /\ (61 # 2 <= num_value m e -> label (classifyCarbs r) = js "Avoid")
    /\ (29 # 2 <= num_value m e < 61 # 2 -> label (classifyCarbs r) = js "Limit")
    /\ (num_value m e < 29 # 2 -> label (classifyCarbs r) = js "Eat").
Proof.
  unfold round_or_0. cbn [num_truthy].
  destruct (Z.eqb_spec m 0) as [->|Hm]; cbn [negb].
  - exists (Dec 0 0). split; [reflexivity|]. split; [reflexivity|].
    apply (badge_by_floor 0 0 0).
    + reflexivity.
    + unfold num_value. rewrite Qmult_0_l. discriminate.
    + unfold num_value. rewrite Qmult_0_l. reflexivity.
  - pose proof (Math_round_idem (Dec m e)) as Hid.
    destruct (Math_round_value m e) as (m' & e' & z & Hr & Hv & Hlo & Hhi).
    rewrite Hr in Hid. rewrite Hr.
    exists (Dec m' e'). split; [reflexivity|]. split; [exact Hid|].
    by apply (badge_by_floor m' e' z).
Qed.

End RoundedBadge.

(** *** The profile and its store *)

Section ProfileStore.
Import Spec Client RegExp Server.

(** In every state the client can reach the store holds the text of the
    profile on the screen, the profile loads back from it as it is, and
    every flag in it is a boolean. *)
Theorem store_in_sync (s : Session) :
  reachable s ->
  storage s = saveProfile (profile s)
  /\ loadProfile (storage s) = profile s
  /\ renders (profile s) = true
  /\ exists kv, profile s = VObj kv /\ Forall (fun e => is_flag (snd e)) kv.
Proof.
  intros H. destruct (reachable_ok _ H) as (kv & Hp & Hok & Hst).
  rewrite Hp, Hst. split; [done|]. split; [by apply load_saved|].
  split; [apply renders_object|]. exists kv. split; [done|].
  destruct Hok as [_ Hall]. eapply Forall_impl; [exact Hall|]. by intros e [_ He].
Qed.

Lemma assoc_obj_set {A} (l : list (jsstring * A)) (k k' : jsstring) (v : A) :
  assoc k' (obj_set l k v) = if str_eqb k' k then Some v else assoc k' l.
Proof.
  induction l as [|[k0 v0] l IH]; simpl.
  - by destruct (str_eqb k' k).
  - destruct (str_eqb k k0) eqn:E; simpl.
    + apply str_eqb_eq in E. subst k0. by destruct (str_eqb k' k).
    + rewrite IH. destruct (str_eqb k' k0) eqn:E0; [|done].
      apply str_eqb_eq in E0. subst k0.
      destruct (str_eqb k' k) eqn:E1; [|done].
      apply str_eqb_eq in E1. subst. by rewrite str_eqb_refl in E.
Qed.

Lemma get_prop_toggle (prev : list (jsstring * val)) (a : Allergen) (b : bool)
  (k : jsstring) :
  get_prop (toggle (VObj prev) a b) k
  = Some (if str_eqb k (key a) then VBool b else get_prop_opt (VObj prev) k).
Proof.
  unfold toggle, get_prop_opt. cbn [spread get_prop]. rewrite assoc_obj_set.
  by destruct (str_eqb k (key a)).
Qed.

(** A checkbox sets the flag of its category and leaves every other
    property of the profile as it was; of two changes of the same
    category the last one counts, and changes of different categories can
    be made in either order. *)
Theorem toggle_one_category (prev : list (jsstring * val)) (a a' : Allergen)
  (b b' : bool) (k : jsstring) :
  get_prop (toggle (VObj prev) a b) (key a) = Some (VBool b)
  /\ (k <> key a ->
      get_prop (toggle (VObj prev) a b) k = get_prop (VObj prev) k)
  /\ get_prop (toggle (toggle (VObj prev) a b) a b') k
     = get_prop (toggle (VObj prev) a b') k
  /\ (key a <> key a' ->
      get_prop (toggle (toggle (VObj prev) a b) a' b') k
      = get_prop (toggle (toggle (VObj prev) a' b') a b) k).
Proof.
  split; [|split; [|split]].
  - by rewrite get_prop_toggle, str_eqb_refl.
  - intros Hk. rewrite get_prop_toggle. apply str_eqb_neq in Hk. by rewrite Hk.
  - unfold toggle at 1 3. cbn [spread]. unfold toggle. cbn [spread get_prop].
    rewrite !assoc_obj_set. by destruct (str_eqb k (key a)).
  - intros Hne. unfold toggle at 1 3. cbn [spread]. unfold toggle. cbn [spread get_prop].
    rewrite !assoc_obj_set.
    destruct (str_eqb k (key a')) eqn:E1; destruct (str_eqb k (key a)) eqn:E2; try done.
    apply str_eqb_eq in E1, E2. congruence.
Qed.

End ProfileStore.

(** *** The selected keywords *)

Section SelectedLabels.
Import Spec Client RegExp Server.

(** The keywords that the render works with: for a profile that is there,
    the keyword lists of the selected categories, one after the other in
    the order of the catalog; reading a category of [null] or [undefined]
    throws.  All 57 keywords after Select All, none after Deselect All. *)
Theorem selectedLabels_in_catalog_order (profile : val) :
  (profile = VNull \/ profile = VUndef ->
   selectedLabels profile = None /\ renders profile = false)
  /\ (profile <> VNull -> profile <> VUndef ->
      selectedLabels profile
      = Some (flat_map (fun a => if selected profile a then labels a else []) ALLERGENS))
  /\ selectedLabels selectAllAllergens = Some (flat_map labels ALLERGENS)
  /\ length (flat_map labels ALLERGENS) = 57
  /\ selectedLabels deselectAllAllergens = Some [].
Proof.
  split; [|split; [|split; [|split]]].
  - intros [-> | ->]; split; reflexivity.
  - intros H1 H2. apply (selectedLabels_object profile (js "peanut")).
    destruct profile; try done; by eexists.
  - vm_compute. reflexivity.
  - reflexivity.
  - vm_compute. reflexivity.
Qed.

End SelectedLabels.

(** *** The hits of the risk detector *)

Section RiskHits.
Import Spec Client RegExp Server.

Lemma uniq_fold_NoDup (l seen : list jsstring) :
  NoDup seen ->
  NoDup (fold_left (fun seen x => if existsb (str_eqb x) seen then seen else seen ++ [x])
                   l seen).
Proof.
  revert seen. induction l as [|y l IH]; intros seen Hs; simpl; [done|].
  apply IH. destruct (existsb (str_eqb y) seen) eqn:E; [done|].
  apply NoDup_app. split; [done|]. split; [|apply NoDup_singleton].
  intros x Hx Hx'. apply list_elem_of_singleton in Hx'. subst x.
  assert (existsb (str_eqb y) seen = true); [|congruence].
  apply existsb_exists. exists y. split; [by apply list_elem_of_In | apply str_eqb_refl].
Qed.

Lemma uniq_NoDup (l : list jsstring) : NoDup (uniq l).
Proof. apply uniq_fold_NoDup. constructor. Qed.

Lemma selectedLabels_labels_of (profile : val) (sel : list jsstring) :
  selectedLabels profile = Some sel -> sel = labels_of profile ALLERGENS.
Proof.
  intros Hs. destruct (get_prop profile (js "peanut")) eqn:Hp.
  - erewrite selectedLabels_object in Hs by (by eexists). congruence.
  - apply selectedLabels_null in Hp. congruence.
Qed.

Lemma labels_of_selected (profile : val) (l : list Allergen) (h : jsstring) :
  In h (labels_of profile l) ->
  exists a, In a l /\ selected profile a = true /\ In h (labels a).
Proof.
  unfold labels_of. rewrite in_flat_map. intros (a & Ha & Hh).
  exists a. split; [done|]. unfold selected.
  destruct (truthy (get_prop_opt profile (key a))); [done|]. by destruct Hh.
Qed.

(** What [riskFor] reports: no hit twice; a risk exactly when there is a
    hit; and every hit is a keyword or the key of a category that the
    profile selects, a keyword being in the ingredient text and a tag
    among the product's tags. *)
Theorem riskFor_reports_selected (profile : val) (p : Product) (r : Risk) :
  riskFor profile (Some p) = Some r ->
  NoDup (hits r)
  /\ (hasRisk r = true <-> hits r <> [])
  /\ forall h, In h (hits r) ->
       exists a, In a ALLERGENS /\ selected profile a = true
                 /\ (h = key a \/ In h (labels a))
                 /\ ((exists text, lower_or_empty (ingredients_text p) = Some text
                                   /\ includes text (toLowerCase h) = true)
                     \/ In h (map strip_lang (default [] (allergens_tags p)))).
Proof.
  unfold riskFor. intros Hr.
  destruct (selectedLabels profile) as [sel|] eqn:Hs; [|done].
  apply selectedLabels_labels_of in Hs. subst sel. cbn [mbind option_bind] in Hr.
  destruct (lower_or_empty (ingredients_text p)) as [ing|] eqn:Hing; [|done].
  cbn [mbind option_bind] in Hr. injection Hr as <-. cbn [hits hasRisk].
  split; [apply uniq_NoDup|]. split.
  - rewrite bool_decide_eq_true. destruct (uniq _); simpl; [split; [lia|done]|].
    split; [done|lia].
  - intros h Hh. apply uniq_elem, in_app_iff in Hh. destruct Hh as [Hh|Hh].
    + apply list_elem_of_In, list_elem_of_filter in Hh as [Hinc Hh].
      apply list_elem_of_In in Hh.
      destruct (labels_of_selected profile ALLERGENS h Hh) as (a & Ha & Hsel & Hl).
      exists a. split; [done|]. split; [done|]. split; [by right|].
      left. exists ing. split; [done|]. by apply Is_true_true.
    + apply list_elem_of_In, list_elem_of_filter in Hh as [Htag Hh].
      apply list_elem_of_In in Hh.
      unfold tag_selected in Htag. apply Is_true_true in Htag.
      apply existsb_exists in Htag as (a & Ha & Htag).
      apply andb_prop in Htag as [Hsel Hk].
      exists a. split; [done|]. split; [done|]. split; [|by right].
      apply orb_prop in Hk as [Hk|Hk].
      * left. apply str_eqb_eq in Hk. done.
      * right. apply existsb_exists in Hk as (l & Hl & Hk).
        apply str_eqb_eq in Hk. by subst.
Qed.

Lemma catalog_names_plain :
  Forall (fun a => Forall (fun t => strip_lang t = t) (key a :: labels a)) ALLERGENS.
Proof. repeat constructor. Qed.

(** A product that carries the tag of a selected category, with or
    without the language before it, is a risk, whatever its ingredient
    text says; the hit is the name in the tag. *)
Theorem riskFor_detects_tag (profile : val) (p : Product) (a : Allergen)
  (t tag : jsstring) (c1 c2 : char) (tags : list jsstring) :
  In a ALLERGENS -> t = key a \/ In t (labels a) ->
  selected profile a = true ->
  string_or_absent (ingredients_text p) ->
  allergens_tags p = Some tags -> In tag tags ->
  tag = t
  \/ (tag = with_lang c1 c2 t
      /\ isLineTerminator c1 = false /\ isLineTerminator c2 = false) ->
  exists r, riskFor profile (Some p) = Some r /\ hasRisk r = true /\ In t (hits r).
Proof.
  intros Ha Ht Hsel Hing Htags Hin Htag.
  assert (Hdef : is_Some (get_prop profile (key a))).
  { unfold selected, get_prop_opt in Hsel.
    destruct (get_prop profile (key a)); [by eexists|done]. }
  assert (Hplain : strip_lang t = t).
  { pose proof catalog_names_plain as H.
    rewrite List.Forall_forall in H. specialize (H a Ha).
    rewrite List.Forall_forall in H. apply H. simpl.
    destruct Ht as [-> | Ht]; auto. }
  assert (Hstrip : strip_lang tag = t).
  { destruct Htag as [-> | (-> & H1 & H2)]; [done|].
    unfold with_lang, strip_lang. by rewrite H1, H2. }
  unfold riskFor. rewrite (selectedLabels_object _ _ Hdef). simpl.
  assert (Hlow : is_Some (lower_or_empty (ingredients_text p))).
  { unfold lower_or_empty, or_else. destruct Hing as [Hf | [s Hs]].
    - rewrite Hf. by eexists.
    - rewrite Hs. destruct s; by eexists. }
  destruct Hlow as [ing ->]. simpl. eexists. split; [reflexivity|]. simpl.
  rewrite Htags. simpl.
  match goal with |- _ /\ In t (uniq ?l) => assert (Hu : In t (uniq l)) end.
  { apply uniq_elem, in_app_iff. right.
    apply list_elem_of_In, list_elem_of_filter. split.
    - apply Is_true_true. unfold tag_selected. apply existsb_exists.
      exists a. split; [done|]. fold (selected profile a). rewrite Hsel. simpl.
      destruct Ht as [-> | Ht]; [by rewrite str_eqb_refl|].
      apply orb_true_iff. right. apply existsb_exists.
      exists t. split; [done|apply str_eqb_refl].
    - apply list_elem_of_In. rewrite <- Hstrip. by apply in_map. }
  split; [|done]. apply bool_decide_eq_true.
  match goal with H : In t ?u |- _ => destruct u; [done | simpl; lia] end.
Qed.

End RiskHits.

(** *** The results of a search *)

Section SearchResults.
Import Spec Client RegExp Server.



End SearchResults.

(** *** The tags of a product of the search *)

Section Tags.
Import Spec Client RegExp Server.

Lemma startsWith_app (s p : jsstring) :
  startsWith s p = true <-> exists r, s = p ++ r.
Proof.
  revert s. induction p as [|c p IH]; intros s; simpl.
  - split; [by exists s|done].
  - destruct s as [|d s]; [split; [done|by intros [r Hr]]|].
    rewrite andb_true_iff, IH, N.eqb_eq. split.
    + intros [-> [r ->]]. by exists r.
    + intros [r [= -> ->]]. split; [done|by exists r].
Qed.

(** The tags of a product that the search shows are the English tags of
    the catalog entry, without the "en:" before them and in their order;
    a tag in any other language is dropped. *)
Theorem toProduct_english_tags (raw : val) (p : Product) (strs : list jsstring) :
  toProduct raw = Some p ->
  get_prop_opt raw (js "allergens_tags") = VArr (map VStr strs) ->
  exists ts,
    allergens_tags p = Some ts
    /\ ts = map (drop 3) (filter (fun t => startsWith t (js "en:")) strs)
    /\ forall t, In t ts <-> In (js "en:" ++ t) strs.
Proof.
  unfold toProduct, get_prop_opt. intros H Htags.
  destruct (get_prop raw (js "allergens_tags")) as [tags|] eqn:E; [|done].
  simpl in Htags. subst tags. cbn [mbind option_bind or_else truthy as_array] in H.
  assert (Hm : mapM as_string (map VStr strs) = Some strs).
  { apply mapM_Some. clear. induction strs; constructor; done. }
  apply bind_Some in H as (strs' & Hs' & H).
  pose proof (eq_trans (eq_sym Hs') Hm) as Heq. injection Heq as ->.
  injection H as <-. cbn [allergens_tags].
  eexists. split; [reflexivity|]. split; [reflexivity|].
  intros t. rewrite in_map_iff. split.
  - intros (x & <- & Hx). apply list_elem_of_In, list_elem_of_filter in Hx as [Hs Hx].
    apply Is_true_true in Hs.
    destruct (proj1 (startsWith_app x (js "en:")) Hs) as [r ->].
    apply list_elem_of_In in Hx. exact Hx.
  - intros Hin. exists (js "en:" ++ t). split; [reflexivity|].
    apply list_elem_of_In, list_elem_of_filter. split.
    + apply Is_true_true. apply (proj2 (startsWith_app _ (js "en:"))). by exists t.
    + by apply list_elem_of_In.
Qed.

End Tags.

(** *** Marks and risk *)

Section MarksAndRisk.
Import Spec Client RegExp Server.

Lemma canonicalize_lower (c d : char) :
  isAscii c = true -> canonicalize d = canonicalize c -> toLowerChar d = toLowerChar c.
Proof.
  unfold isAscii. intros Hc. apply N.ltb_lt in Hc.
  assert (H1 : canonicalize c = if in_range 97 122 c then (c - 32)%N else c).
  { unfold canonicalize, in_range. split_ranges; simpl; lia. }
  assert (H2 : toLowerChar c = if in_range 65 90 c then (c + 32)%N else c).
  { unfold toLowerChar, in_range. split_ranges; simpl; lia. }
  rewrite H1, H2. clear H1 H2.
  unfold canonicalize, toLowerChar, in_range.
  split_ranges; simpl; intros Heq; lia.
Qed.

Lemma toLowerCase_lookup (text : jsstring) (i : nat) (d : char) :
  text !! i = Some d -> toLowerCase text !! i = Some (toLowerChar d).
Proof.
  revert i. induction text as [|x l IH]; intros [|i]; simpl; try done.
  - by intros [= ->].
  - apply IH.
Qed.

Lemma keyword_at_startsWith (n text : jsstring) (i : nat) :
  forallb isAscii n = true -> keyword_at n text i = true ->
  startsWith (drop i (toLowerCase text)) (toLowerCase n) = true.
Proof.
  revert i. induction n as [|c n IH]; intros i; [done|].
  cbn [forallb keyword_at]. intros Ha. apply andb_prop in Ha as [Hc Hn].
  destruct (text !! i) as [d|] eqn:E; [|done].
  pose proof (toLowerCase_lookup _ _ _ E) as Hd.
  intros H. apply andb_prop in H as [H1 H2]. apply N.eqb_eq in H1.
  unfold jsstring, char in *. rewrite (drop_S _ _ _ Hd).
  change (toLowerCase (c :: n)) with (toLowerChar c :: toLowerCase n).
  cbn [startsWith].
  rewrite (canonicalize_lower _ _ Hc H1), N.eqb_refl. simpl.
  by apply IH.
Qed.

Lemma includes_drop (s n : jsstring) (i : nat) :
  startsWith (drop i s) n = true -> includes s n = true.
Proof.
  revert i. induction s as [|c s IH]; intros i.
  - rewrite drop_nil. simpl. intros ->. done.
  - destruct i as [|i].
    + rewrite drop_0. intros H. cbn [includes]. by rewrite H.
    + simpl drop. intros H. cbn [includes]. rewrite (IH _ H). apply orb_true_r.
Qed.

Lemma catalog_labels_ascii :
  Forall (fun a => Forall (fun t => forallb isAscii t = true) (labels a)) ALLERGENS.
Proof. repeat constructor. Qed.

Lemma labels_of_ascii (profile : val) (n : jsstring) :
  In n (labels_of profile ALLERGENS) -> forallb isAscii n = true.
Proof.
  unfold labels_of. rewrite in_flat_map. intros (a & Ha & Hn).
  destruct (truthy _); [|done].
  pose proof catalog_labels_ascii as H. rewrite List.Forall_forall in H.
  specialize (H a Ha). rewrite List.Forall_forall in H. by apply H.
Qed.

(** The two views of the details agree in one direction: when some
    category is selected and [riskFor] reports no risk for the picked
    product, the highlighter marks nothing, the ingredient text is shown as
    it is. *)
Theorem no_risk_no_mark (profile : val) (p : Product) (text : jsstring) (d : Details) :
  details profile (Some p) = Some d ->
  ingredients_text p = VStr text ->
  selectedLabels profile <> Some [] ->
  hasRisk (pickedRisk d) = false ->
  highlighted d = text.
Proof.
  unfold details. intros Hd Hing Hsel Hrisk.
  destruct (selectedLabels profile) as [sel|] eqn:Hs; [|done].
  cbn [mbind option_bind] in Hd.
  destruct (riskFor profile (Some p)) as [r|] eqn:Hr; [|done].
  cbn [mbind option_bind] in Hd. rewrite Hing in Hd.
  destruct text as [|c0 text0]; [by injection Hd as <-|].
  set (text := c0 :: text0) in *.
  assert (Htext : text <> []) by done.
  cbn [truthy as_string mbind option_bind] in Hd.
  rewrite (highlight_splice _ _ Htext) in Hd.
  injection Hd as <-. cbn [pickedRisk highlighted] in *.
  destruct (marks sel text) as [|[o e] ms] eqn:Hm; [done|]. exfalso.
  pose proof (matches_from_sound (marked_at sel text) (length text)
                (S (length text)) 0) as Hsound.
  fold (marks sel text) in Hsound. rewrite Hm in Hsound.
  apply Forall_cons in Hsound as [Hoe _]. simpl in Hoe.
  apply marked_at_Some in Hoe as (_ & _ & _ & [[-> _]|(n & Hn & _ & Hk)]).
  { by destruct Hsel. }
  pose proof (selectedLabels_labels_of _ _ Hs) as ->.
  destruct (riskFor_text_hit profile p text n r Hing Hr Hn) as [_ H]; [|congruence].
  eapply includes_drop, keyword_at_startsWith; [|exact Hk].
  by eapply labels_of_ascii.
Qed.

(** With nothing selected the agreement is lost: no risk, and the text of
    the details comes with an empty mark at each word boundary. *)
Example details_nothing_selected :
  (d ← details (VObj [])
         (Some {| code := VStr (js "5"); product_name := VStr (js "Bar");
                  brands := VUndef; ingredients_text := VStr (js "milk, soy");
                  allergens_tags := Some [] |});
   Some (hasRisk (pickedRisk d), ingredientsHtml d))
  = Some (false,
          mark [] ++ js "milk" ++ mark [] ++ js ", " ++ mark [] ++ js "soy" ++ mark []).
Proof. vm_compute. reflexivity. Qed.

End MarksAndRisk.

(** *** From the picked product to the handler *)

Section Transport.
Import Spec Client RegExp Server.

Lemma hex_val_digit (n : N) :
  (n < 16)%N -> hex_val (hex_digit n) = Some (Z.of_N n).
Proof.
  intros Hn. unfold hex_val, hex_digit, isDigit, in_range.
  destruct (N.ltb_spec n 10).
  - destruct (N.leb_spec 48 (48 + n)); [|lia].
    destruct (N.leb_spec (48 + n) 57); [|lia]. simpl. f_equal. lia.
  - destruct (N.leb_spec (87 + n) 57); [lia|]. rewrite andb_false_r.
    destruct (N.leb_spec 97 (87 + n)); [|lia].
    destruct (N.leb_spec (87 + n) 102); [|lia]. simpl. f_equal. lia.
Qed.

Lemma hex4_escape (c : char) :
  code_unit c ->
  hex4 (hex_digit (c / 4096 mod 16)) (hex_digit (c / 256 mod 16))
       (hex_digit (c / 16 mod 16)) (hex_digit (c mod 16)) = Some c.
Proof.
  unfold code_unit. intros Hc. unfold hex4.
  rewrite !hex_val_digit by (apply N.mod_upper_bound; lia).
  f_equal. 
  rewrite !N2Z.inj_mod, !N2Z.inj_div. simpl Z.of_N.
  rewrite <- (N2Z.id c) at 5. f_equal.
  assert (0 <= Z.of_N c < 65536)%Z by lia.
  generalize dependent (Z.of_N c). intros z Hz.
  Z.to_euclidean_division_equations. lia.
Qed.


Lemma pstring_cons_plain (c : char) (x : jsstring) :
  c <> 34%N -> c <> 92%N -> (32 <= c)%N -> pstring (c :: x) = pcons c (pstring x).
Proof.
  intros H1 H2 H3. cbn [pstring].
  destruct (N.eqb_spec c 34); [done|]. destruct (N.eqb_spec c 92); [done|].
  destruct (N.ltb_spec c 32); [lia|]. reflexivity.
Qed.

Lemma pstring_simple (e u : char) (x : jsstring) :
  simple_escape e = Some u -> pstring (92%N :: e :: x) = pcons u (pstring x).
Proof.
  intros H. cbn [pstring]. change (92 =? 34)%N with false. change (92 =? 92)%N with true.
  cbv iota. destruct (N.eqb_spec e 117) as [->|]; [done|]. rewrite H.
  unfold pcons. by destruct (pstring x) as [[t rest]|].
Qed.

Lemma pstring_unicode (c : char) (x : jsstring) :
  code_unit c -> pstring (unicode_escape c ++ x) = pcons c (pstring x).
Proof.
  intros Hc. unfold unicode_escape. cbn [js list_ascii_of_string map app].
  change (N_of_ascii "\") with 92%N. change (N_of_ascii "u") with 117%N.
  cbn [pstring]. change (92 =? 34)%N with false. change (92 =? 92)%N with true.
  change (117 =? 117)%N with true. cbv iota.
  rewrite (hex4_escape _ Hc). unfold pcons. by destruct (pstring x) as [[t rest]|].
Qed.

(** A string literal that [JSON.stringify] wrote reads back as the string. *)
Lemma pstring_quote_chars (n : nat) :
  forall (s rest : jsstring),
    length s <= n -> Forall code_unit s ->
    pstring (quote_chars s ++ 34%N :: rest) = Some (s, rest).
Proof.
  induction n as [|n IH]; intros s rest Hlen Hs.
  { destruct s; [reflexivity | simpl in Hlen; lia]. }
  destruct s as [|c r]; [reflexivity|].
  apply Forall_cons in Hs as [Hc Hr]. simpl in Hlen.
  assert (IHr : pstring (quote_chars r ++ 34%N :: rest) = Some (r, rest)).
  { apply IH; [lia|done]. }
  cbn [quote_chars].
  destruct (N.eqb_spec c 8) as [->|H8].
  { cbn [js list_ascii_of_string map app]. rewrite (pstring_simple 98%N 8%N) by done.
    by rewrite IHr. }
  destruct (N.eqb_spec c 9) as [->|H9].
  { cbn [js list_ascii_of_string map app]. rewrite (pstring_simple 116%N 9%N) by done.
    by rewrite IHr. }
  destruct (N.eqb_spec c 10) as [->|H10].
  { cbn [js list_ascii_of_string map app]. rewrite (pstring_simple 110%N 10%N) by done.
    by rewrite IHr. }
  destruct (N.eqb_spec c 12) as [->|H12].
  { cbn [js list_ascii_of_string map app]. rewrite (pstring_simple 102%N 12%N) by done.
    by rewrite IHr. }
  destruct (N.eqb_spec c 13) as [->|H13].
  { cbn [js list_ascii_of_string map app]. rewrite (pstring_simple 114%N 13%N) by done.
    by rewrite IHr. }
  destruct (N.eqb_spec c 34) as [->|H34].
  { cbn [app]. rewrite (pstring_simple 34%N 34%N) by done. by rewrite IHr. }
  destruct (N.eqb_spec c 92) as [->|H92].
  { cbn [app]. rewrite (pstring_simple 92%N 92%N) by done. by rewrite IHr. }
  destruct (N.ltb_spec c 32) as [H32|H32].
  { rewrite <- app_assoc, (pstring_unicode _ _ Hc). by rewrite IHr. }
  destruct (isHighSurrogate c) eqn:Hhi.
  { destruct r as [|d r'].
    - rewrite (pstring_unicode _ _ Hc). reflexivity.
    - destruct (isLowSurrogate d) eqn:Hlo.
      + cbn [app]. rewrite pstring_cons_plain by done.
        unfold isLowSurrogate, in_range in Hlo. apply andb_prop in Hlo as [Hlo _].
        apply N.leb_le in Hlo. rewrite pstring_cons_plain by lia.
        apply Forall_cons in Hr as [_ Hr']. simpl in Hlen.
        rewrite IH; [done|lia|done].
      + rewrite <- app_assoc, (pstring_unicode _ _ Hc). by rewrite IHr. }
  destruct (isLowSurrogate c) eqn:Hlo.
  { rewrite <- app_assoc, (pstring_unicode _ _ Hc). by rewrite IHr. }
  cbn [app]. rewrite pstring_cons_plain by done. by rewrite IHr.
Qed.

Lemma pvalue_string (f : nat) (s rest : jsstring) :
  Forall code_unit s ->
  pvalue (S f) (quote s ++ rest) = POk (VStr s) rest.
Proof.
  intros Hs.
  assert (E : quote s ++ rest = 34%N :: quote_chars s ++ 34%N :: rest).
  { unfold quote, dq. by rewrite <- !app_assoc. }
  rewrite E. cbn [pvalue].
  change (skip_ws (34%N :: ?x)) with (34%N :: x). cbv iota.
  change (34 =? 123)%N with false. change (34 =? 91)%N with false.
  change (34 =? 34)%N with true. cbv iota.
  by rewrite (pstring_quote_chars (length s) s rest).
Qed.


Lemma stringify_name_brand (s b : jsstring) :
  JSON_stringify (VObj [(js "name", VStr s); (js "brand", VStr b)])
  = Some (body_text s b).
Proof.
  cbn [JSON_stringify flat_map app join]. unfold body_text. f_equal.
  change (quote (js "name")) with (dq ++ js "name" ++ dq).
  change (quote (js "brand")) with (dq ++ js "brand" ++ dq).
  by rewrite <- !app_assoc.
Qed.

Lemma pvalue_name_brand (f : nat) (s b : jsstring) :
  Forall code_unit s -> Forall code_unit b ->
  pvalue (S (S (S (S f)))) (body_text s b)
  = POk (VObj [(js "name", VStr s); (js "brand", VStr b)]) [].
Proof.
  intros Hs Hb. unfold body_text.
  remember (S (S (S f))) as f3 eqn:Hf3.
  change (js "{" ++ dq ++ ?x) with (123%N :: 34%N :: x).
  cbn [pvalue]. change (skip_ws (123%N :: ?x)) with (123%N :: x). cbv iota.
  change (123 =? 123)%N with true. cbv iota.
  change (skip_ws (34%N :: ?x)) with (34%N :: x). cbv iota.
  change (34 =? 125)%N with false. cbv iota.
  subst f3. remember (S (S f)) as f2 eqn:Hf2.
  cbn [pmembers]. change (skip_ws (34%N :: ?x)) with (34%N :: x). cbv iota.
  change (34 =? 34)%N with true. cbv iota.
  change (dq ++ ?x) with (34%N :: x).
  rewrite (pstring_plain (js "name")) by reflexivity.
  change (js ":" ++ ?x) with (58%N :: x).
  change (skip_ws (58%N :: ?x)) with (58%N :: x). cbv iota.
  change (58 =? 58)%N with true. cbv iota.
  subst f2. rewrite (pvalue_string _ _ _ Hs).
  change (js "," ++ ?x) with (44%N :: x).
  change (skip_ws (44%N :: ?x)) with (44%N :: x). cbv iota.
  change (44 =? 44)%N with true. cbv iota.
  remember (S f) as f1 eqn:Hf1.
  change (dq ++ js "brand" ++ dq ++ ?x) with (34%N :: js "brand" ++ 34%N :: x).
  cbn [pmembers]. change (skip_ws (34%N :: ?x)) with (34%N :: x). cbv iota.
  change (34 =? 34)%N with true. cbv iota.
  rewrite (pstring_plain (js "brand")) by reflexivity.
  change (js ":" ++ ?x) with (58%N :: x).
  change (skip_ws (58%N :: ?x)) with (58%N :: x). cbv iota.
  change (58 =? 58)%N with true. cbv iota.
  subst f1. rewrite (pvalue_string _ _ _ Hb).
  reflexivity.
Qed.

Lemma parse_name_brand (s b : jsstring) :
  Forall code_unit s -> Forall code_unit b ->
  JSON_parse (body_text s b) = Some (VObj [(js "name", VStr s); (js "brand", VStr b)]).
Proof.
  intros Hs Hb. unfold JSON_parse.
  assert (Hlen : exists f, 2 * length (body_text s b) = S (S (S f))).
  { assert (H : 2 <= length (body_text s b)).
    { unfold body_text. rewrite !length_app. simpl. lia. }
    exists (2 * length (body_text s b) - 3). lia. }
  destruct Hlen as [f ->]. by rewrite (pvalue_name_brand _ _ _ Hs Hb).
Qed.


(** From the picked product to the handler: the body that the client
    posts for a product with a name parses, on the server, to the name and
    the brand of the product, whatever characters they hold; the request
    is turned down with 400 when the name is white space only, and is
    looked up otherwise, under the trimmed brand and name. *)
Theorem picked_product_request (p : Product) (s b : jsstring)
  (USDA_KEY : option jsstring) (up : Upstream) (w : World) :
  product_name p = VStr s -> s <> [] ->
  brands p = VStr b \/ truthy (brands p) = false /\ b = [] ->
  Forall code_unit s -> Forall code_unit b ->
  ~ key_missing USDA_KEY ->
  exists text,
    nutritionBody (Some p) = Some text
    /\ JSON_parse text = Some (VObj [(js "name", VStr s); (js "brand", VStr b)])
    /\ (trim s = [] ->
        nutrition USDA_KEY up (VObj [(js "name", VStr s); (js "brand", VStr b)]) w
        = (error 400 "name required", w))
    /\ (trim s <> [] ->
        nutrition USDA_KEY up (VObj [(js "name", VStr s); (js "brand", VStr b)]) w
        = match cachedLookup up (trim b) (trim s) w with
          | (Some r, w') => (r, w')
          | (None, w') => (error 500 "server_error", w')
          end).
Proof.
  intros Hname Hs Hbrand Hcs Hcb Hk.
  exists (body_text s b).
  split.
  { unfold nutritionBody. rewrite Hname.
    assert (Hb : or_else (brands p) (VStr []) = VStr b).
    { unfold or_else. destruct Hbrand as [-> | [-> ->]]; [by destruct b|done]. }
    rewrite Hb. unfold or_else. destruct s as [|c s]; [done|].
    cbn [truthy]. apply stringify_name_brand. }
  split; [by apply parse_name_brand|].
  assert (Hn : trimmed (get_prop_opt (VObj [(js "name", VStr s); (js "brand", VStr b)])
                          (js "name")) = Some (trim s)).
  { change (get_prop_opt _ _) with (VStr s). unfold trimmed, or_else.
    by destruct s. }
  assert (Hb : trimmed (get_prop_opt (VObj [(js "name", VStr s); (js "brand", VStr b)])
                          (js "brand")) = Some (trim b)).
  { change (get_prop_opt _ _) with (VStr b). unfold trimmed, or_else.
    by destruct b. }
  split.
  - intros Hblank. unfold nutrition.
    destruct USDA_KEY as [[|c k]|]; [destruct Hk; by right| |destruct Hk; by left].
    unfold bind at 1. unfold validated, bind, lift, ret. rewrite Hn, Hb, Hblank. done.
  - intros Hne. by apply nutrition_lookup.
Qed.

End Transport.

(** ** Instances *)

Section Instances.
Import Spec Client.

(** The milk category is selected and the text is its keyword "whey" in
    capitals: a risk, and "whey" is a hit. *)
Lemma riskFor_detects_keyword_whey :
  exists r,
    riskFor (VObj [(js "milk", VBool true)])
      (Some {| code := VStr (js "3017620422003"); product_name := VStr (js "Shake");
               brands := VUndef; ingredients_text := VStr (js "WHEY");
               allergens_tags := Some [] |})
    = Some r
    /\ hasRisk r = true /\ In (js "whey") (hits r).
Proof.
  apply (riskFor_detects_keyword
           {| key := js "milk";
              labels := map js ["milk"; "dairy"; "casein"; "whey"; "lactose"]%string |}
           (js "whey") (js "WHEY") (VObj [(js "milk", VBool true)]) (VBool true)).
  - vm_compute. tauto.
  - vm_compute. tauto.
  - reflexivity.
  - reflexivity.
  - reflexivity.
  - reflexivity.
Defined.

(** The example of the specification: "whey" inside a longer text. *)
Example riskFor_contains_whey_protein :
  riskFor (VObj [(js "milk", VBool true)])
    (Some {| code := VStr (js "1"); product_name := VStr (js "Shake");
             brands := VUndef; ingredients_text := VStr (js "Contains WHEY protein");
             allergens_tags := Some [] |})
  = Some {| hits := [js "whey"]; hasRisk := true |}.
Proof. vm_compute. reflexivity. Qed.



(** A first visit, then the milk checkbox: the profile has the key "milk". *)
Lemma profile_keys_after_toggle :
  keys_in_catalog
    (profile (commit (storage fresh)
                (toggle (profile fresh)
                   {| key := js "milk";
                      labels := map js ["milk"; "dairy"; "casein"; "whey"; "lactose"]%string |}
                   true))).
Proof.
  apply (profile_keys_in_catalog
           (commit (storage fresh)
              (toggle (profile fresh)
                 {| key := js "milk";
                    labels := map js ["milk"; "dairy"; "casein"; "whey"; "lactose"]%string |}
                 true))).
  eapply reach_step; [apply reach_fresh|]. apply step_toggle.
  - reflexivity.
  - vm_compute. tauto.
Defined.

(** The marks of "peanut" and "whey" in a text, one of them in capitals. *)
Lemma highlight_marks_two :
  highlight (js "Peanut oil, whey!") [js "whey"; js "peanut"]
  = Some (splice mark (js "Peanut oil, whey!")
            (marks [js "whey"; js "peanut"] (js "Peanut oil, whey!")) 0)
  /\ marks [js "whey"; js "peanut"] (js "Peanut oil, whey!") = [(0, 6); (12, 16)].
Proof.
  assert (Ht : js "Peanut oil, whey!" <> []) by discriminate.
  destruct (highlight_marks_keywords (js "Peanut oil, whey!") [js "whey"; js "peanut"] Ht)
    as [H _].
  split; [exact H|]. vm_compute. reflexivity.
Defined.

(** Nothing selected, a text that holds a keyword: no risk. *)
Lemma riskFor_nothing_selected_empty :
  riskFor (VObj []) (Some milky) = Some {| hits := []; hasRisk := false |}.
Proof.
  apply (riskFor_nothing_selected (VObj []) milky (js "milky")).
  - by eexists.
  - intros a _. reflexivity.
  - reflexivity.
Defined.

(** The search finds nothing: 404, the search call made, nothing cached. *)
Lemma nutrition_not_found_oats :
  Server.nutrition (Some (js "key")) empty_upstream oats_request (booted 0)
  = (Server.error 404 "not_found",
     {| Server.cache := ∅; Server.clock := 25; Server.calls := [Server.SearchCall (js "Oats")] |}).
Proof.
  apply (nutrition_not_found (Some (js "key")) empty_upstream oats_request
           (VObj [(js "foods", VArr [])]) (booted 0) [] (js "Oats") 25).
  - intros [H|H]; discriminate H.
  - reflexivity.
  - discriminate.
  - reflexivity.
  - intros e He. vm_compute in He. discriminate He.
  - reflexivity.
  - reflexivity.
  - left. reflexivity.
Defined.


End Instances.

(** ** Instances of the further properties *)

Section MoreInstances.
Import Spec Client Server.

(** A brand and a name with white space around them. *)
Lemma query_quaker_oats :
  query (trim (js " Quaker ")) (trim (js "Oats "))
  = match trim (js " Quaker ") with
    | [] => trim (js "Oats ")
    | _ => trim (js " Quaker ") ++ js " " ++ trim (js "Oats ")
    end
  /\ query (trim (js " Quaker ")) (trim (js "Oats ")) <> []
  /\ trim (query (trim (js " Quaker ")) (trim (js "Oats ")))
     = query (trim (js " Quaker ")) (trim (js "Oats "))
  /\ query [] (query (trim (js " Quaker ")) (trim (js "Oats ")))
     = query (trim (js " Quaker ")) (trim (js "Oats ")).
Proof.
  apply (query_brand_name (js " Quaker ") (js "Oats ")).
  vm_compute. discriminate.
Defined.

(** The first answer for oats is a record. *)
Lemma answer_is_record_oats :
  nutrition_record
    (body (fst (nutrition (Some (js "key")) oats_upstream oats_request (booted 0)))).
Proof.
  apply (answer_is_record (Some (js "key")) oats_upstream oats_request (booted 0)).
  - apply runs_boot.
  - vm_compute. reflexivity.
Defined.

(** Oats without a brand, looked up: "generic". *)
Lemma looked_up_matchType_oats :
  get_prop (body (fst (nutrition (Some (js "key")) oats_upstream oats_request (booted 0))))
    (js "matchType")
  = Some (VStr (js "generic"))
  <-> @nil char = [].
Proof.
  apply (looked_up_matchType (Some (js "key")) oats_upstream oats_request (booted 0)
           [] (js "Oats")).
  - intros [H|H]; discriminate H.
  - reflexivity.
  - discriminate.
  - reflexivity.
  - vm_compute. reflexivity.
  - vm_compute. discriminate.
Defined.


(** A number as the name. *)
Lemma nutrition_numeric_name :
  nutrition (Some (js "key")) offline (VObj [(js "name", VNum (num_of_Z 5))]) (booted 0)
  = (error 500 "server_error", booted 0).
Proof.
  apply (nutrition_field_not_a_string (Some (js "key")) offline
           (VObj [(js "name", VNum (num_of_Z 5))]) (booted 0)).
  - intros [H|H]; discriminate H.
  - left. split; [reflexivity|]. intros s. vm_compute. discriminate.
Defined.


(** A first visit, then the milk checkbox. *)
Lemma store_in_sync_after_toggle :
  loadProfile
    (storage (commit (storage fresh)
                (toggle (profile fresh)
                   {| key := js "milk";
                      labels := map js ["milk"; "dairy"; "casein"; "whey"; "lactose"]%string |}
                   true)))
  = profile (commit (storage fresh)
               (toggle (profile fresh)
                  {| key := js "milk";
                     labels := map js ["milk"; "dairy"; "casein"; "whey"; "lactose"]%string |}
                  true)).
Proof.
  destruct (store_in_sync
              (commit (storage fresh)
                 (toggle (profile fresh)
                    {| key := js "milk";
                       labels := map js ["milk"; "dairy"; "casein"; "whey"; "lactose"]%string |}
                    true))) as (_ & H & _).
  - eapply reach_step; [apply reach_fresh|]. apply step_toggle.
    + reflexivity.
    + vm_compute. tauto.
  - exact H.
Defined.

(** The hit of "milky" is a keyword of the selected milk category. *)
Lemma riskFor_reports_milk :
  riskFor (VObj [(js "milk", VBool true)]) (Some milky)
  = Some {| hits := [js "milk"]; hasRisk := true |}
  /\ NoDup (hits {| hits := [js "milk"]; hasRisk := true |})
  /\ exists a, In a ALLERGENS /\ selected (VObj [(js "milk", VBool true)]) a = true
               /\ (js "milk" = key a \/ In (js "milk") (labels a)).
Proof.
  assert (Hr : riskFor (VObj [(js "milk", VBool true)]) (Some milky)
               = Some {| hits := [js "milk"]; hasRisk := true |}).
  { vm_compute. reflexivity. }
  destruct (riskFor_reports_selected (VObj [(js "milk", VBool true)]) milky
              {| hits := [js "milk"]; hasRisk := true |} Hr) as (H1 & _ & H3).
  split; [exact Hr|]. split; [exact H1|].
  destruct (H3 (js "milk")) as (a & Ha & Hsel & Hk & _).
  - left. reflexivity.
  - exists a. split; [exact Ha|]. split; [exact Hsel | exact Hk].
Defined.

(** The tag "en:milk" with the milk category selected, no ingredients. *)
Lemma riskFor_detects_tag_milk :
  exists r,
    riskFor (VObj [(js "milk", VBool true)])
      (Some {| code := VStr (js "7"); product_name := VStr (js "Bar");
               brands := VUndef; ingredients_text := VUndef;
               allergens_tags := Some [js "en:milk"] |})
    = Some r
    /\ hasRisk r = true /\ In (js "milk") (hits r).
Proof.
  apply (riskFor_detects_tag (VObj [(js "milk", VBool true)])
           {| code := VStr (js "7"); product_name := VStr (js "Bar");
              brands := VUndef; ingredients_text := VUndef;
              allergens_tags := Some [js "en:milk"] |}
           {| key := js "milk";
              labels := map js ["milk"; "dairy"; "casein"; "whey"; "lactose"]%string |}
           (js "milk") (js "en:milk") 101%N 110%N [js "en:milk"]).
  - vm_compute. tauto.
  - left. reflexivity.
  - reflexivity.
  - left. reflexivity.
  - reflexivity.
  - left. reflexivity.
  - right. split; [reflexivity|]. split; reflexivity.
Defined.

(** Milk selected, a text without any keyword: shown as it is. *)
Lemma no_risk_no_mark_oats :
  details (VObj [(js "milk", VBool true)])
    (Some {| code := VStr (js "8"); product_name := VStr (js "Flakes");
             brands := VUndef; ingredients_text := VStr (js "Oat flakes, salt");
             allergens_tags := Some [] |})
  = Some {| pickedRisk := {| hits := []; hasRisk := false |};
            highlighted := js "Oat flakes, salt" |}
  /\ highlighted {| pickedRisk := {| hits := []; hasRisk := false |};
                    highlighted := js "Oat flakes, salt" |}
     = js "Oat flakes, salt".
Proof.
  assert (Hd : details (VObj [(js "milk", VBool true)])
       (Some {| code := VStr (js "8"); product_name := VStr (js "Flakes");
                brands := VUndef; ingredients_text := VStr (js "Oat flakes, salt");
                allergens_tags := Some [] |})
     = Some {| pickedRisk := {| hits := []; hasRisk := false |};
               highlighted := js "Oat flakes, salt" |}).
  { vm_compute. reflexivity. }
  split; [exact Hd|].
  apply (no_risk_no_mark (VObj [(js "milk", VBool true)])
           {| code := VStr (js "8"); product_name := VStr (js "Flakes");
              brands := VUndef; ingredients_text := VStr (js "Oat flakes, salt");
              allergens_tags := Some [] |}
           (js "Oat flakes, salt")
           {| pickedRisk := {| hits := []; hasRisk := false |};
              highlighted := js "Oat flakes, salt" |}).
  - exact Hd.
  - reflexivity.
  - vm_compute. discriminate.
  - reflexivity.
Defined.

(** A product whose name holds a quote and a line break, no brand: the
    server reads the name as it is. *)
Lemma picked_product_request_quoted :
  exists text,
    nutritionBody
      (Some {| code := VStr (js "9"); product_name := VStr (js "Choc" ++ dq ++ [10%N] ++ js "bar");
               brands := VUndef; ingredients_text := VUndef; allergens_tags := Some [] |})
    = Some text
    /\ JSON_parse text
       = Some (VObj [(js "name", VStr (js "Choc" ++ dq ++ [10%N] ++ js "bar"));
                     (js "brand", VStr [])]).
Proof.
  destruct (picked_product_request
              {| code := VStr (js "9");
                 product_name := VStr (js "Choc" ++ dq ++ [10%N] ++ js "bar");
                 brands := VUndef; ingredients_text := VUndef; allergens_tags := Some [] |}
              (js "Choc" ++ dq ++ [10%N] ++ js "bar") [] (Some (js "key")) offline (booted 0))
    as (text & H1 & H2 & _).
  - reflexivity.
  - discriminate.
  - right. split; reflexivity.
  - repeat (constructor; [reflexivity|]). constructor.
  - constructor.
  - intros [H|H]; discriminate H.
  - exists text. split; [exact H1|exact H2].
Defined.

(** An English and a French tag: the English one is kept, without its
    prefix. *)
Lemma toProduct_english_tag_only :
  exists ts,
    allergens_tags
      {| code := VUndef; product_name := VStr (js "Bar"); brands := VUndef;
         ingredients_text := VUndef; allergens_tags := Some [js "milk"] |}
    = Some ts
    /\ ts = map (drop 3)
              (filter (fun t => startsWith t (js "en:")) [js "en:milk"; js "fr:lait"])
    /\ forall t, In t ts <-> In (js "en:" ++ t) [js "en:milk"; js "fr:lait"].
Proof.
  apply (toProduct_english_tags
           (VObj [(js "product_name", VStr (js "Bar"));
                  (js "allergens_tags", VArr [VStr (js "en:milk"); VStr (js "fr:lait")])])
           {| code := VUndef; product_name := VStr (js "Bar"); brands := VUndef;
              ingredients_text := VUndef; allergens_tags := Some [js "milk"] |}
           [js "en:milk"; js "fr:lait"]).
  - reflexivity.
  - reflexivity.
Defined.

End MoreInstances.
